(** * ComfyUI-layerdiffuse: the transparent VAE decoder of
      [lib_layerdiffusion/models.py]

    A shallow embedding of the tensor bookkeeping of [models.py]:
    the rotate/flip augmentation protocol, the 8-way ensemble decoder
    [TransparentVAEDecoder], the skip-connection stack of [UNet1024.forward],
    the layer table of [LatentTransparencyOffsetEncoder] and the checkerboard
    compositor [fill_checkerboard_bg].

    Conventions.
    - A tensor element is an exact rational extended with NaN and the two
      infinities; rounding of the floating-point formats is abstracted.
    - A tensor is rank 4 and carries its shape explicitly (PyTorch tensors
      may have zero-sized axes, which nested lists alone cannot express).
    - The learned network is a parameter of the development; PyTorch, NumPy,
      OpenCV and diffusers primitives are modelled from their documented
      behaviour.
    - Logging ([DEBUG_ENABLED] is false) and the progress bar are left out. *)

From Stdlib Require Import List ZArith QArith Qcanon Lia Bool Arith.
Import ListNotations.

Open Scope nat_scope.

(** ** Tensor elements *)

Inductive val : Type :=
| Num (q : Qc)
| NaN
| PInf
| NInf.

Definition zero : val := Num 0%Qc.

Definition is_nan (v : val) : bool :=
  match v with NaN => true | _ => false end.

Definition is_inf (v : val) : bool :=
  match v with PInf | NInf => true | _ => false end.

Definition is_finite (v : val) : bool :=
  match v with Num _ => true | _ => false end.

(** ** Rank-4 tensors *)

Inductive device : Type :=
| Cpu
| Cuda (index : nat)
| PrivateUse (index : nat).

Inductive dtype : Type := Float16 | BFloat16 | Float32 | Float64.

Definition plane := list (list val).
Definition data4 := list (list plane).

Record tensor : Type := mkTensor {
  dim0 : nat;
  dim1 : nat;
  dim2 : nat;
  dim3 : nat;
  t_device : device;
  t_dtype : dtype;
  t_data : data4
}.

Definition t_shape (t : tensor) : nat * nat * nat * nat :=
  (dim0 t, dim1 t, dim2 t, dim3 t).

Definition rank (t : tensor) : nat := 4.

Definition map4 (f : val -> val) (d : data4) : data4 :=
  map (map (map (map f))) d.

Definition forall4 (p : val -> bool) (d : data4) : bool :=
  forallb (forallb (forallb (forallb p))) d.

Definition exists4 (p : val -> bool) (d : data4) : bool :=
  existsb (existsb (existsb (existsb p))) d.

(** The nested data agrees with the declared shape. *)
Definition plane_ok (h w : nat) (m : plane) : bool :=
  (length m =? h) && forallb (fun r => length r =? w) m.

Definition data_ok (b c h w : nat) (d : data4) : bool :=
  (length d =? b) &&
  forallb (fun x => (length x =? c) && forallb (plane_ok h w) x) d.

Definition shape_ok (t : tensor) : bool :=
  data_ok (dim0 t) (dim1 t) (dim2 t) (dim3 t) (t_data t).

(** [t[b, c, h, w]] *)
Definition at4 (d : data4) (b c h w : nat) : val :=
  nth w (nth h (nth c (nth b d []) []) []) zero.

Definition get (t : tensor) (b c h w : nat) : val :=
  at4 (t_data t) b c h w.

(** ** Flips and quarter turns

    [torch.flip(t, dims=(3,))] reverses every row, [torch.flip(t, dims=(2,))]
    reverses the order of the rows, and [transpose(2, 3)] exchanges the two
    spatial axes. *)

Definition transpose_plane (w : nat) (m : plane) : plane :=
  map (fun j => map (fun r => nth j r zero) m) (seq 0 w).

Definition clone (t : tensor) : tensor := t.

Definition flip3 (t : tensor) : tensor :=
  mkTensor (dim0 t) (dim1 t) (dim2 t) (dim3 t) (t_device t) (t_dtype t)
    (map (map (map (@rev val))) (t_data t)).

Definition flip2 (t : tensor) : tensor :=
  mkTensor (dim0 t) (dim1 t) (dim2 t) (dim3 t) (t_device t) (t_dtype t)
    (map (map (@rev (list val))) (t_data t)).

Definition transpose23 (t : tensor) : tensor :=
  mkTensor (dim0 t) (dim1 t) (dim3 t) (dim2 t) (t_device t) (t_dtype t)
    (map (map (transpose_plane (dim3 t))) (t_data t)).

(** [torch.rot90(t, k, dims=(2, 3))].  ATen normalises [k] with the
    truncating remainder of C++, [(4 + k % 4) % 4], and then
    - 1: flips axis 3 and transposes,
    - 2: flips both axes,
    - 3: flips axis 2 and transposes,
    - 0: copies.
    In torch [k] is a 64-bit signed integer, and a Python integer outside
    that range is refused before any turn is done; [rot90] gives the turn
    for the counts torch accepts (the decoder passes -3 .. 3), and what is
    proved of it for arbitrary counts carries the range, [int64] below, as
    a hypothesis. *)
Definition rot90_steps (k : Z) : Z := ((4 + Z.rem k 4) mod 4)%Z.

Definition rot90 (k : Z) (t : tensor) : tensor :=
  match rot90_steps k with
  | 1%Z => transpose23 (flip3 t)
  | 2%Z => flip2 (flip3 t)
  | 3%Z => transpose23 (flip2 t)
  | _ => clone t
  end.

(** The forward and the inverse transform of one loop iteration of
    [estimate_augmented]. *)
Definition augment (flip : bool) (rok : Z) (t : tensor) : tensor :=
  let feed := clone t in
  let feed := if flip then flip3 feed else feed in
  rot90 rok feed.

Definition unaugment (flip : bool) (rok : Z) (eps : tensor) : tensor :=
  let eps := rot90 (- rok) eps in
  if flip then flip3 eps else eps.

(** ** Arithmetic on tensor elements

    The IEEE conventions for NaN and the infinities, over exact rationals. *)

Definition qc_leb (a b : Qc) : bool := Qle_bool a b.
Definition qc_max (a b : Qc) : Qc := if qc_leb a b then b else a.
Definition qc_min (a b : Qc) : Qc := if qc_leb a b then a else b.

Definition vneg (a : val) : val :=
  match a with
  | Num x => Num (- x)%Qc
  | NaN => NaN
  | PInf => NInf
  | NInf => PInf
  end.

Definition vadd (a b : val) : val :=
  match a, b with
  | NaN, _ | _, NaN => NaN
  | PInf, NInf | NInf, PInf => NaN
  | PInf, _ | _, PInf => PInf
  | NInf, _ | _, NInf => NInf
  | Num x, Num y => Num (x + y)%Qc
  end.

Definition vsub (a b : val) : val := vadd a (vneg b).

(** Sign of a rational: [Lt] negative, [Eq] zero, [Gt] positive. *)
Definition qc_sign (x : Qc) : comparison := (x ?= 0)%Qc.

Definition vmul (a b : val) : val :=
  match a, b with
  | NaN, _ | _, NaN => NaN
  | Num x, Num y => Num (x * y)%Qc
  | Num x, PInf | PInf, Num x =>
      match qc_sign x with Eq => NaN | Gt => PInf | Lt => NInf end
  | Num x, NInf | NInf, Num x =>
      match qc_sign x with Eq => NaN | Gt => NInf | Lt => PInf end
  | PInf, PInf | NInf, NInf => PInf
  | PInf, NInf | NInf, PInf => NInf
  end.

(** Division by a count, as [torch.mean] divides the sum by the size of the
    reduced axis; an empty axis gives NaN. *)
Definition vdiv_count (a : val) (n : nat) : val :=
  match n with
  | O => NaN
  | S _ =>
      match a with
      | Num x => Num (x / Q2Qc (inject_Z (Z.of_nat n)))%Qc
      | other => other
      end
  end.

(** [x.clip(0, 1)]: [min(max(x, 0), 1)]; NaN stays NaN. *)
Definition vclip01 (a : val) : val :=
  match a with
  | Num x => Num (qc_min (qc_max x 0%Qc) 1%Qc)
  | NaN => NaN
  | PInf => Num 1%Qc
  | NInf => Num 0%Qc
  end.

Definition in_unit (a : val) : bool :=
  match a with
  | Num x => qc_leb 0%Qc x && qc_leb x 1%Qc
  | _ => false
  end.

(** ** Errors, events and the decoder monad

    The decoder raises Python exceptions; what it does to the outside (a
    device transfer, a forward pass of the network) is recorded in a log
    threaded through the computation. *)

Inductive error : Type :=
| AssertionError_pixel (got : nat)
| AssertionError_output (got : nat)
| ValueError_nan_inf
| ValueError_dims
| RuntimeError_stack
| RuntimeError_conv
| Cv2Error
| BackendError (code : nat).

Inductive event : Type :=
| EvTo (d : device) (ty : dtype)
| EvForward (pixel_shape latent_shape : nat * nat * nat * nat).

Definition M (A : Type) : Type := list event -> list event * (error + A).

Definition ret {A} (a : A) : M A := fun log => (log, inr a).

Definition raise {A} (e : error) : M A := fun log => (log, inl e).

Definition bind {A B} (m : M A) (f : A -> M B) : M B :=
  fun log =>
    match m log with
    | (log', inl e) => (log', inl e)
    | (log', inr a) => f a log'
    end.

Definition emit (ev : event) : M unit := fun log => (log ++ [ev], inr tt).

Definition lift {A} (r : error + A) : M A := fun log => (log, r).

Definition assert_ (c : bool) (e : error) : M unit :=
  if c then ret tt else raise e.

Declare Scope decoder_scope.
Delimit Scope decoder_scope with decoder.
Notation "x <- m ;; k" := (bind m (fun x => k))
  (at level 61, m at next level, right associativity) : decoder_scope.
Notation "m ;;; k" := (bind m (fun _ => k))
  (at level 61, right associativity) : decoder_scope.

(** The [for ... : result.append(...)] loop. *)
Fixpoint for_each {A B} (f : A -> M B) (l : list A) : M (list B) :=
  match l with
  | [] => ret []
  | a :: l' =>
      bind (f a) (fun b => bind (for_each f l') (fun bs => ret (b :: bs)))
  end.

(** ** Elementwise operations, stacking and the mean over the ensemble *)

Definition clip01 (t : tensor) : tensor :=
  mkTensor (dim0 t) (dim1 t) (dim2 t) (dim3 t) (t_device t) (t_dtype t)
    (map4 vclip01 (t_data t)).

Fixpoint zip_with {A B C} (f : A -> B -> C) (l : list A) (l' : list B)
  : list C :=
  match l, l' with
  | a :: l, b :: l' => f a b :: zip_with f l l'
  | _, _ => []
  end.

Definition zip4 (f : val -> val -> val) (a b : data4) : data4 :=
  zip_with (zip_with (zip_with (zip_with f))) a b.

Definition shape_eqb (s s' : nat * nat * nat * nat) : bool :=
  let '(a, b, c, d) := s in
  let '(a', b', c', d') := s' in
  (a =? a') && (b =? b') && (c =? c') && (d =? d').

(** The rank-5 result of [torch.stack(result, dim=0)]. *)
Record stacked : Type := mkStacked {
  s_count : nat;
  s_shape : nat * nat * nat * nat;
  s_device : device;
  s_dtype : dtype;
  s_data : list data4
}.

(** [torch.stack] wants a non-empty list of tensors of one size. *)
Definition stack (ts : list tensor) : error + stacked :=
  match ts with
  | [] => inl RuntimeError_stack
  | t :: rest =>
      if forallb (fun u => shape_eqb (t_shape u) (t_shape t)) rest
      then inr (mkStacked (length ts) (t_shape t) (t_device t) (t_dtype t)
                  (map t_data ts))
      else inl RuntimeError_stack
  end.

Definition any_nan (st : stacked) : bool :=
  existsb (exists4 is_nan) (s_data st).

Definition any_inf (st : stacked) : bool :=
  existsb (exists4 is_inf) (s_data st).

Definition sum_dim0 (ds : list data4) : data4 :=
  match ds with
  | [] => []
  | d :: rest => fold_left (zip4 vadd) rest d
  end.

(** [torch.mean(result, dim=0)] *)
Definition mean_dim0 (st : stacked) : tensor :=
  let '(b, c, h, w) := s_shape st in
  mkTensor b c h w (s_device st) (s_dtype st)
    (map4 (fun v => vdiv_count v (s_count st)) (sum_dim0 (s_data st))).

(** The arithmetic mean of a non-empty list of elements. *)
Definition mean_of (xs : list val) : val :=
  match xs with
  | [] => NaN
  | x :: rest => vdiv_count (fold_left vadd rest x) (length xs)
  end.

(** The plain sum of a list of rationals, against which the mean is stated:
    a number [m] is the mean of [xs] when [length xs * m = qc_sum xs]. *)
Definition qc_sum (xs : list Qc) : Qc := fold_right Qcplus 0%Qc xs.

(** ** TransparentVAEDecoder *)

Definition network : Type := tensor -> tensor -> error + tensor.

Record TransparentVAEDecoder : Type := mkDecoder {
  load_device : device;
  self_dtype : dtype;
  model : network
}.

Open Scope decoder_scope.

(** [t.to(device=d, dtype=ty)]: the same elements under another placement. *)
Definition to_tensor (d : device) (ty : dtype) (t : tensor) : tensor :=
  mkTensor (dim0 t) (dim1 t) (dim2 t) (dim3 t) d ty (t_data t).

Definition to (d : device) (ty : dtype) (t : tensor) : M tensor :=
  emit (EvTo d ty) ;;;
  ret (to_tensor d ty t).

Definition estimate_single_pass (self : TransparentVAEDecoder)
    (pixel latent : tensor) : M tensor :=
  emit (EvForward (t_shape pixel) (t_shape latent)) ;;;
  lift (model self pixel latent).

Definition args : list (bool * Z) :=
  [ (false, 0%Z); (false, 1%Z); (false, 2%Z); (false, 3%Z);
    (true, 0%Z); (true, 1%Z); (true, 2%Z); (true, 3%Z) ].

(** One iteration of the loop of [estimate_augmented]. *)
Definition augmented_pass (self : TransparentVAEDecoder)
    (pixel latent : tensor) (a : bool * Z) : M tensor :=
  let '(flip, rok) := a in
  let feed_pixel := augment flip rok pixel in
  let feed_latent := augment flip rok latent in
  y <- estimate_single_pass self feed_pixel feed_latent ;;
  let eps := clip01 y in
  ret (unaugment flip rok eps).

(** The list [result] and the tensor stacked from it. *)
Definition ensemble (self : TransparentVAEDecoder) (pixel latent : tensor)
  : M stacked :=
  result <- for_each (augmented_pass self pixel latent) args ;;
  lift (stack result).

Definition estimate_augmented (self : TransparentVAEDecoder)
    (pixel latent : tensor) : M tensor :=
  result <- ensemble self pixel latent ;;
  if any_nan result || any_inf result
  then raise ValueError_nan_inf
  else ret (mean_dim0 result).

Definition decode_pixel (self : TransparentVAEDecoder)
    (pixel latent : tensor) : M tensor :=
  assert_ (dim1 pixel =? 3) (AssertionError_pixel (dim1 pixel)) ;;;
  let pixel_device := t_device pixel in
  let pixel_dtype := t_dtype pixel in
  pixel <- to (load_device self) (self_dtype self) pixel ;;
  latent <- to (load_device self) (self_dtype self) latent ;;
  y <- estimate_augmented self pixel latent ;;
  if rank y <? 2 then raise ValueError_dims
  else
    let y := clip01 y in
    assert_ (dim1 y =? 4) (AssertionError_output (dim1 y)) ;;;
    to pixel_device pixel_dtype y.

Close Scope decoder_scope.

(** What a decode call needs from the network on one feed: it answers, with
    a well-shaped 4-channel tensor of the batch and spatial size of the
    pixel feed, and emits no NaN. *)
Definition network_ok (self : TransparentVAEDecoder) (pixel latent : tensor)
  : bool :=
  match model self pixel latent with
  | inr y =>
      shape_ok y
      && shape_eqb (t_shape y) (dim0 pixel, 4, dim2 pixel, dim3 pixel)
      && negb (exists4 is_nan (t_data y))
  | inl _ => false
  end.

(** A valid input pair of [decode_pixel]: a well-shaped pixel tensor with
    three channels on which, with its latent, the network is well behaved
    for each of the eight feeds. *)
Definition valid_pair (self : TransparentVAEDecoder) (pixel latent : tensor)
  : bool :=
  shape_ok pixel
  && (dim1 pixel =? 3)
  && forallb
       (fun a : bool * Z =>
          network_ok self
            (augment (fst a) (snd a)
               (to_tensor (load_device self) (self_dtype self) pixel))
            (augment (fst a) (snd a)
               (to_tensor (load_device self) (self_dtype self) latent)))
       args.

(** A quarter turn exchanges the two spatial sizes exactly when the
    normalised step count is odd. *)
Definition turned (k : Z) (s : nat * nat * nat * nat) : nat * nat * nat * nat :=
  let '(b, c, h, w) := s in
  if Z.odd (rot90_steps k) then (b, c, w, h) else (b, c, h, w).

(** What one iteration of the loop leaves in [result] on a valid input. *)
Definition pass_post (pixel eps : tensor) : Prop :=
  shape_ok eps = true /\
  t_shape eps = (dim0 pixel, 4, dim2 pixel, dim3 pixel) /\
  forall4 in_unit (t_data eps) = true.

(** The feed logged by the forward pass of one augmentation. *)
Definition forward_event (pixel latent : tensor) (a : bool * Z) : event :=
  EvForward (t_shape (augment (fst a) (snd a) pixel))
            (t_shape (augment (fst a) (snd a) latent)).

(** An element that went through [clip]: in [0, 1], or the NaN that
    [clip] lets through. *)
Definition clipped (v : val) : bool := in_unit v || is_nan v.

(** ** Test doubles

    Constant tensors and networks that answer with a constant 4-channel
    tensor of the spatial size of their input. *)

Definition const_tensor (b c h w : nat) (d : device) (ty : dtype) (v : val)
  : tensor :=
  mkTensor b c h w d ty (repeat (repeat (repeat (repeat v w) h) c) b).

Definition flat_network (v : val) : network :=
  fun pixel latent =>
    inr (const_tensor (dim0 pixel) 4 (dim2 pixel) (dim3 pixel)
           (t_device pixel) (t_dtype pixel) v).

Definition half : Qc := Q2Qc (1 # 2).

Definition flat_decoder (v : val) : TransparentVAEDecoder :=
  mkDecoder (Cuda 0) Float16 (flat_network v).

Definition toy_pixel : tensor := const_tensor 1 3 2 3 Cpu Float32 (Num half).
Definition toy_latent : tensor := const_tensor 1 4 1 1 Cpu Float32 zero.

(** The answers of the constant network on the eight feeds of the toy pair:
    the spatial sizes alternate between 2 x 3 and 3 x 2. *)
Definition toy_outputs : list tensor :=
  map (fun a : bool * Z =>
         const_tensor 1 4
           (if Z.odd (snd a) then 3 else 2) (if Z.odd (snd a) then 2 else 3)
           Cpu Float32 (Num half))
      args.

Definition ramp_tensor : tensor :=
  mkTensor 1 1 2 3 Cpu Float32
    [[[[Num 0%Qc; Num half; Num 1%Qc]; [NaN; PInf; NInf]]]].

(** ** UNet1024: construction

    Layers are described by their hyper-parameters; [zero_module] marks a
    convolution whose parameters are all zero after construction. *)

Record Conv2d : Type := mkConv2d {
  conv_in_channels : nat;
  conv_out_channels : nat;
  kernel_size : nat;
  padding : nat;
  stride : nat;
  zero_init : bool
}.

Definition zero_module (c : Conv2d) : Conv2d :=
  mkConv2d (conv_in_channels c) (conv_out_channels c) (kernel_size c)
           (padding c) (stride c) true.

Inductive down_block_type : Type := DownBlock2D | AttnDownBlock2D.
Inductive up_block_type : Type := UpBlock2D | AttnUpBlock2D.

Record DownBlock : Type := mkDownBlock {
  db_type : down_block_type;
  db_num_layers : nat;
  db_in_channels : nat;
  db_out_channels : nat;
  db_add_downsample : bool
}.

Record UpBlock : Type := mkUpBlock {
  ub_type : up_block_type;
  ub_num_layers : nat;
  ub_in_channels : nat;
  ub_out_channels : nat;
  ub_prev_output_channel : nat;
  ub_add_upsample : bool
}.

Record UNetConfig : Type := mkConfig {
  in_channels : nat;
  out_channels : nat;
  down_block_types : list down_block_type;
  up_block_types : list up_block_type;
  block_out_channels : list nat;
  layers_per_block : nat;
  norm_num_groups : nat
}.

Record UNet1024 : Type := mkUNet {
  conv_in : Conv2d;
  latent_conv_in : Conv2d;
  down_blocks : list DownBlock;
  mid_block_channels : nat;
  up_blocks : list UpBlock;
  conv_norm_out_channels : nat;
  conv_out : Conv2d
}.

(** The defaults of [UNet1024.__init__]. *)
Definition default_config (in_ch out_ch : nat) : UNetConfig :=
  mkConfig in_ch out_ch
    [DownBlock2D; DownBlock2D; DownBlock2D; DownBlock2D;
     AttnDownBlock2D; AttnDownBlock2D; AttnDownBlock2D]
    [AttnUpBlock2D; AttnUpBlock2D; AttnUpBlock2D;
     UpBlock2D; UpBlock2D; UpBlock2D; UpBlock2D]
    [32; 32; 64; 128; 256; 512; 512]
    2 4.

(** [enumerate(l)] *)
Definition enumerate {A} (l : list A) : list (nat * A) :=
  combine (seq 0 (length l)) l.

(** [l[-1]]; [None] stands for the IndexError on an empty sequence. *)
Definition py_last {A} (l : list A) : option A :=
  match rev l with
  | [] => None
  | x :: _ => Some x
  end.

(** The loop [# down] of [__init__]; [None] stands for an exception, and
    the one raised here is the IndexError of [block_out_channels[i]].

    The constructors of the layers ([get_down_block], [get_up_block],
    [UNetMidBlock2D], [nn.GroupNorm]) have checks of their own, such as the
    divisibility of a width by [norm_num_groups], which raise ValueError
    and are not part of the layout: they are left out.  So [None] means
    that construction raises, by an out-of-range index at the latest, and
    [Some u] gives the layout of the network that construction returns
    when the layer constructors accept their arguments, as they do for the
    default configuration. *)
Fixpoint init_down_blocks (cfg : UNetConfig)
    (types : list (nat * down_block_type)) (output_channel : nat)
  : option (list DownBlock) :=
  match types with
  | [] => Some []
  | (i, down_block_type) :: rest =>
      let input_channel := output_channel in
      match nth_error (block_out_channels cfg) i with
      | None => None
      | Some output_channel =>
          let is_final_block := i =? length (block_out_channels cfg) - 1 in
          let down_block :=
            mkDownBlock down_block_type (layers_per_block cfg)
              input_channel output_channel (negb is_final_block) in
          match init_down_blocks cfg rest output_channel with
          | None => None
          | Some blocks => Some (down_block :: blocks)
          end
      end
  end.

(** The loop [# up] of [__init__]. *)
Fixpoint init_up_blocks (cfg : UNetConfig) (reversed_block_out_channels : list nat)
    (types : list (nat * up_block_type)) (output_channel : nat)
  : option (list UpBlock) :=
  match types with
  | [] => Some []
  | (i, up_block_type) :: rest =>
      let prev_output_channel := output_channel in
      match nth_error reversed_block_out_channels i,
            nth_error reversed_block_out_channels
              (Nat.min (i + 1) (length (block_out_channels cfg) - 1)) with
      | Some output_channel, Some input_channel =>
          let is_final_block := i =? length (block_out_channels cfg) - 1 in
          let up_block :=
            mkUpBlock up_block_type (layers_per_block cfg + 1)
              input_channel output_channel prev_output_channel
              (negb is_final_block) in
          match init_up_blocks cfg reversed_block_out_channels rest
                  output_channel with
          | None => None
          | Some blocks => Some (up_block :: blocks)
          end
      | _, _ => None
      end
  end.

Definition UNet1024_init (cfg : UNetConfig) : option UNet1024 :=
  match nth_error (block_out_channels cfg) 0,
        nth_error (block_out_channels cfg) 2,
        py_last (block_out_channels cfg) with
  | Some c0, Some c2, Some c_last =>
      let conv_in := mkConv2d (in_channels cfg) c0 3 1 1 false in
      let latent_conv_in := zero_module (mkConv2d 4 c2 1 0 1 false) in
      match init_down_blocks cfg (enumerate (down_block_types cfg)) c0 with
      | None => None
      | Some downs =>
          let reversed_block_out_channels := rev (block_out_channels cfg) in
          match nth_error reversed_block_out_channels 0 with
          | None => None
          | Some r0 =>
              match init_up_blocks cfg reversed_block_out_channels
                      (enumerate (up_block_types cfg)) r0 with
              | None => None
              | Some ups =>
                  Some (mkUNet conv_in latent_conv_in downs c_last ups c0
                          (mkConv2d c0 (out_channels cfg) 3 1 1 false))
              end
          end
      end
  | _, _, _ => None
  end.

(** ** UNet1024: the forward pass

    The arithmetic of the layers is a parameter: feature maps are values of
    a type [F], and [Layers F] gives every layer of the network a function
    on them.  The blocks built by [get_down_block] and [get_up_block] follow
    the forward passes of diffusers: a down block appends the output of each
    of its residual layers, and of its downsampler when it has one, to its
    output states; an up block takes, for each of its residual layers, the
    last tensor of the tuple it was given.

    The layer functions are total: a layer that raises on an input of the
    wrong shape has no counterpart here, so what is proved of [forward]
    speaks of the inputs that the layers accept.  Where a property depends
    on the projection of the latent accepting its input, the domain of the
    projection is made explicit ([forward_checked] below). *)

Record Layers (F : Type) : Type := mkLayers {
  conv_in_fn : F -> F;
  latent_conv_in_fn : F -> F;
  add_fn : F -> F -> F;
  down_resnet : nat -> nat -> F -> F;
  down_sampler : nat -> F -> F;
  mid_fn : F -> F;
  up_resnet : nat -> nat -> F -> F -> F;
  up_sampler : nat -> F -> F;
  out_fn : F -> F
}.

Arguments conv_in_fn {F}.
Arguments latent_conv_in_fn {F}.
Arguments add_fn {F}.
Arguments down_resnet {F}.
Arguments down_sampler {F}.
Arguments mid_fn {F}.
Arguments up_resnet {F}.
Arguments up_sampler {F}.
Arguments out_fn {F}.

(** [t[-n:]] and [t[:-n]] on a tuple; [-0] is [0], so [t[-0:]] is all of
    [t] and [t[:-0]] is empty. *)
Definition py_suffix {A} (n : nat) (t : list A) : list A :=
  match n with
  | O => t
  | S _ => skipn (length t - n) t
  end.

Definition py_prefix {A} (n : nat) (t : list A) : list A :=
  match n with
  | O => []
  | S _ => firstn (length t - n) t
  end.

Section Forward.
Variable F : Type.
Variable L : Layers F.

Fixpoint down_resnets (i : nat) (js : list nat) (hidden_states : F)
    (output_states : list F) : F * list F :=
  match js with
  | [] => (hidden_states, output_states)
  | j :: js' =>
      let hidden_states := down_resnet L i j hidden_states in
      down_resnets i js' hidden_states (output_states ++ [hidden_states])
  end.

Definition down_block_forward (i : nat) (blk : DownBlock) (hidden_states : F)
  : F * list F :=
  let '(hidden_states, output_states) :=
    down_resnets i (seq 0 (db_num_layers blk)) hidden_states [] in
  if db_add_downsample blk
  then
    let hidden_states := down_sampler L i hidden_states in
    (hidden_states, output_states ++ [hidden_states])
  else (hidden_states, output_states).

(** The second component lists the skip tensors in the order in which
    the residual layers took them. *)
Fixpoint up_resnets (i : nat) (js : list nat) (hidden_states : F)
    (res_hidden_states_tuple : list F) (taken : list F)
  : option (F * list F) :=
  match js with
  | [] => Some (hidden_states, taken)
  | j :: js' =>
      match py_last res_hidden_states_tuple with
      | None => None
      | Some res_hidden_states =>
          up_resnets i js'
            (up_resnet L i j hidden_states res_hidden_states)
            (removelast res_hidden_states_tuple)
            (taken ++ [res_hidden_states])
      end
  end.

Definition up_block_forward (i : nat) (blk : UpBlock) (hidden_states : F)
    (res_hidden_states_tuple : list F) : option (F * list F) :=
  match up_resnets i (seq 0 (ub_num_layers blk)) hidden_states
          res_hidden_states_tuple [] with
  | None => None
  | Some (hidden_states, taken) =>
      Some (if ub_add_upsample blk
            then up_sampler L i hidden_states
            else hidden_states, taken)
  end.

(** The loop over [self.down_blocks]. *)
Fixpoint down_pass (blocks : list (nat * DownBlock)) (sample_latent : F)
    (sample : F) (down_block_res_samples : list F) : F * list F :=
  match blocks with
  | [] => (sample, down_block_res_samples)
  | (i, downsample_block) :: rest =>
      let sample := if i =? 3 then add_fn L sample sample_latent else sample in
      let '(sample, res_samples) :=
        down_block_forward i downsample_block sample in
      down_pass rest sample_latent sample
                (down_block_res_samples ++ res_samples)
  end.

(** What a forward pass did to the skip-connection stack. *)
Record forward_trace : Type := mkTrace {
  result : F;
  produced : list F;
  handed : list (list F);
  taken_in_order : list F;
  leftover : list F
}.

(** The loop over [self.up_blocks]. *)
Fixpoint up_pass (blocks : list (nat * UpBlock)) (sample : F)
    (down_block_res_samples : list F)
    (handed : list (list F)) (taken : list F)
  : option (F * list F * list (list F) * list F) :=
  match blocks with
  | [] => Some (sample, down_block_res_samples, handed, taken)
  | (i, upsample_block) :: rest =>
      let n := ub_num_layers upsample_block in
      let res_samples := py_suffix n down_block_res_samples in
      let down_block_res_samples := py_prefix n down_block_res_samples in
      match up_block_forward i upsample_block sample res_samples with
      | None => None
      | Some (sample, took) =>
          up_pass rest sample down_block_res_samples
                  (handed ++ [res_samples]) (taken ++ took)
      end
  end.

Definition forward_traced (self : UNet1024) (x latent : F)
  : option forward_trace :=
  let sample_latent := latent_conv_in_fn L latent in
  let sample := conv_in_fn L x in
  let down_block_res_samples := [sample] in
  let '(sample, down_block_res_samples) :=
    down_pass (enumerate (down_blocks self)) sample_latent sample
              down_block_res_samples in
  let sample := mid_fn L sample in
  match up_pass (enumerate (up_blocks self)) sample down_block_res_samples
          [] [] with
  | None => None
  | Some (sample, rest, handed, taken) =>
      Some (mkTrace (out_fn L sample) down_block_res_samples handed taken rest)
  end.

Definition forward (self : UNet1024) (x latent : F) : option F :=
  option_map result (forward_traced self x latent).

(** The encoder as the specification words it: the stages run in order,
    and the projected latent is added to the running feature map once the
    stage of index [j] has produced its output. *)
Fixpoint down_pass_inject_after (j : nat) (blocks : list (nat * DownBlock))
    (sample_latent : F) (sample : F) (down_block_res_samples : list F)
  : F * list F :=
  match blocks with
  | [] => (sample, down_block_res_samples)
  | (i, downsample_block) :: rest =>
      let '(sample, res_samples) :=
        down_block_forward i downsample_block sample in
      let sample := if i =? j then add_fn L sample sample_latent else sample in
      down_pass_inject_after j rest sample_latent sample
                             (down_block_res_samples ++ res_samples)
  end.

Definition forward_inject_after (j : nat) (self : UNet1024) (x latent : F)
  : option F :=
  let sample_latent := latent_conv_in_fn L latent in
  let sample := conv_in_fn L x in
  let '(sample, down_block_res_samples) :=
    down_pass_inject_after j (enumerate (down_blocks self)) sample_latent
                           sample [sample] in
  let sample := mid_fn L sample in
  match up_pass (enumerate (up_blocks self)) sample down_block_res_samples
          [] [] with
  | None => None
  | Some (sample, _, _, _) => Some (out_fn L sample)
  end.
End Forward.

Arguments result {F}.
Arguments produced {F}.
Arguments handed {F}.
Arguments taken_in_order {F}.
Arguments leftover {F}.

(** A test double for the layers, on integers: residual layers double,
    downsamplers add one, an up layer adds its skip tensor. *)
Definition counting_layers : Layers Z :=
  mkLayers Z
    (fun x => x) (fun l => l) Z.add
    (fun _ _ h => (2 * h)%Z) (fun _ h => (h + 1)%Z)
    (fun h => h)
    (fun _ _ h r => (h + r)%Z) (fun _ h => h)
    (fun h => h).

(** ** LatentTransparencyOffsetEncoder

    The members of [self.blocks], and what the stack does to the shape of
    its input.  A convolution wants its number of input channels and a
    padded input no smaller than its kernel; its output has
    [(n + 2 * padding - kernel_size) / stride + 1] rows and columns. *)

Inductive layer : Type :=
| Conv (c : Conv2d)
| SiLU.

Definition offset_encoder_blocks : list layer :=
  [ Conv (mkConv2d 4 32 3 1 1 false);
    SiLU;
    Conv (mkConv2d 32 32 3 1 1 false);
    SiLU;
    Conv (mkConv2d 32 64 3 1 2 false);
    SiLU;
    Conv (mkConv2d 64 64 3 1 1 false);
    SiLU;
    Conv (mkConv2d 64 128 3 1 2 false);
    SiLU;
    Conv (mkConv2d 128 128 3 1 1 false);
    SiLU;
    Conv (mkConv2d 128 256 3 1 2 false);
    SiLU;
    Conv (mkConv2d 256 256 3 1 1 false);
    SiLU;
    Conv (zero_module (mkConv2d 256 4 3 1 1 false)) ].

Definition conv2d_shape (c : Conv2d) (s : nat * nat * nat * nat)
  : error + nat * nat * nat * nat :=
  let '(b, ch, h, w) := s in
  if negb (ch =? conv_in_channels c) then inl RuntimeError_conv
  else if (h + 2 * padding c <? kernel_size c)
          || (w + 2 * padding c <? kernel_size c)
       then inl RuntimeError_conv
  else inr (b, conv_out_channels c,
            (h + 2 * padding c - kernel_size c) / stride c + 1,
            (w + 2 * padding c - kernel_size c) / stride c + 1).

Definition layer_shape (l : layer) (s : nat * nat * nat * nat)
  : error + nat * nat * nat * nat :=
  match l with
  | Conv c => conv2d_shape c s
  | SiLU => inr s
  end.

(** [torch.nn.Sequential]: the layers one after the other. *)
Fixpoint sequential_shape (ls : list layer) (s : nat * nat * nat * nat)
  : error + nat * nat * nat * nat :=
  match ls with
  | [] => inr s
  | l :: ls' =>
      match layer_shape l s with
      | inl e => inl e
      | inr s' => sequential_shape ls' s'
      end
  end.

(** The shape of [LatentTransparencyOffsetEncoder()(x)]. *)
Definition offset_encoder_call (x_shape : nat * nat * nat * nat)
  : error + nat * nat * nat * nat :=
  sequential_shape offset_encoder_blocks x_shape.

Definition convs_of (ls : list layer) : list Conv2d :=
  flat_map (fun l => match l with Conv c => [c] | SiLU => [] end) ls.

(** ** The checkerboard compositor

    The input of [fill_checkerboard_bg] is channel-last: its four axes are
    batch, height, width and channel. *)

Record array2 : Type := mkArray2 {
  a_rows : nat;
  a_cols : nat;
  a_cells : list (list Z)
}.

(** [np.indices(shape).sum(axis=0) % 2] *)
Definition checkerboard (shape : nat * nat) : array2 :=
  let '(n, m) := shape in
  mkArray2 n m
    (map (fun i => map (fun j => Z.of_nat ((i + j) mod 2)) (seq 0 m))
         (seq 0 n)).

(** The source cell of a destination index under nearest-neighbour
    resizing: [min(floor(i * src / dst), src - 1)], in exact arithmetic.
    OpenCV computes the quotient in double precision, as
    [floor(i * (1 / (dst / src)))], which is the same cell wherever the
    ratio is exact, as it is for every size that is a multiple of 64, and
    can be the cell before at the first pixel of a tile for other sizes.
    What is proved of the cell chosen at a given pixel is therefore stated
    for sizes that are multiples of 64 only. *)
Definition nearest (src_size dst_size i : nat) : nat :=
  Nat.min (i * src_size / dst_size) (src_size - 1).

(** [cv2.resize(src, (width, height), interpolation=cv2.INTER_NEAREST)];
    OpenCV refuses an empty source and an empty destination. *)
Definition cv2_resize_nearest (src : array2) (dsize : nat * nat)
  : error + array2 :=
  let '(width, height) := dsize in
  if (a_rows src =? 0) || (a_cols src =? 0) then inl Cv2Error
  else if (width =? 0) || (height =? 0) then inl Cv2Error
  else
    inr (mkArray2 height width
           (map (fun y =>
                   map (fun x =>
                          nth (nearest (a_cols src) width x)
                              (nth (nearest (a_rows src) height y)
                                   (a_cells src) [])
                              0%Z)
                       (seq 0 width))
                (seq 0 height))).

(** [0.5 + (v - 0.5) * 0.1] *)
Definition band (v : Z) : Qc :=
  (Q2Qc (1 # 2) + (Q2Qc (inject_Z v) - Q2Qc (1 # 2)) * Q2Qc (1 # 10))%Qc.

(** [y[..., :1]] and [y[..., 1:]] *)
Definition alpha_of (y : tensor) : tensor :=
  mkTensor (dim0 y) (dim1 y) (dim2 y) (Nat.min 1 (dim3 y))
    (t_device y) (t_dtype y)
    (map (map (map (firstn 1))) (t_data y)).

Definition fg_of (y : tensor) : tensor :=
  mkTensor (dim0 y) (dim1 y) (dim2 y) (dim3 y - 1)
    (t_device y) (t_dtype y)
    (map (map (map (skipn 1))) (t_data y)).

(** [fg * alpha + cb * (1 - alpha)] on one element. *)
Definition blend (cb fg alpha : val) : val :=
  vadd (vmul fg alpha) (vmul cb (vsub (Num 1%Qc) alpha)).

(** One pixel: the single alpha value is broadcast over the channels of
    [fg]; without an alpha value the result has no channel. *)
Definition blend_pixel (cb : Qc) (fg alpha : list val) : list val :=
  match alpha with
  | [a] => map (fun f => blend (Num cb) f a) fg
  | _ => []
  end.

Definition blend_row (cb_row : list Qc) (fg_row alpha_row : list (list val))
  : list (list val) :=
  zip_with (fun c fa => blend_pixel c (fst fa) (snd fa))
           cb_row (combine fg_row alpha_row).

Definition blend_image (cb : list (list Qc)) (fg_img alpha_img : list (list (list val)))
  : list (list (list val)) :=
  zip_with (fun cb_row fa => blend_row cb_row (fst fa) (snd fa))
           cb (combine fg_img alpha_img).

Definition fill_checkerboard_bg (y : tensor) : error + tensor :=
  let alpha := alpha_of y in
  let fg := fg_of y in
  let '(B, H, W, C) := t_shape fg in
  let cb := checkerboard (H / 64, W / 64) in
  match cv2_resize_nearest cb (W, H) with
  | inl e => inl e
  | inr cb =>
      let cb := map (map band) (a_cells cb) in
      let vis := zip_with (blend_image cb) (t_data fg) (t_data alpha) in
      inr (mkTensor B H W C (t_device fg) (t_dtype fg) vis)
  end.

(** The value of the rescaled checkerboard at a pixel of an H x W image. *)
Definition cb_value (H W i j : nat) : Qc :=
  band (Z.of_nat ((nearest (H / 64) H i + nearest (W / 64) W j) mod 2)).

(** Test images for the compositor, channel-last: an opaque white image of
    64 x 64 pixels, a thumbnail of 32 x 32 pixels, and a transparent image
    whose colour channels overflowed. *)
Definition pixel_image (h w : nat) (px : list val) : tensor :=
  mkTensor 1 h w (length px) Cpu Float32 [repeat (repeat px w) h].

Definition opaque_image : tensor :=
  pixel_image 64 64 [Num 1%Qc; Num 1%Qc; Num 1%Qc; Num 1%Qc].

Definition thumbnail : tensor :=
  pixel_image 32 32 [Num 1%Qc; Num half; Num half; Num half].

Definition overflowed_image : tensor :=
  pixel_image 64 64 [Num 0%Qc; PInf; PInf; PInf].

(** ** Further notions used by the properties of the rotations *)

(** The counts that [torch.rot90] accepts: 64-bit signed integers. *)
Definition int64 (k : Z) : Prop := (- 2 ^ 63 <= k < 2 ^ 63)%Z.

(** [n] successive quarter turns, each [torch.rot90(t, 1, dims=(2, 3))]. *)
Definition quarter_turns (n : nat) (t : tensor) : tensor :=
  Nat.iter n (rot90 1) t.

(** ** The latent projection as a partial function

    The first statement of [forward] is [self.latent_conv_in(latent)], and
    a convolution raises on an input it cannot convolve (here, one that has
    not four channels), whether or not its result is used later.  In
    [Layers] the projection is a total function; [forward_checked] adds its
    domain, [accepts], and fails outside it.  [None] stands for the
    exception. *)
Definition forward_checked (F : Type) (L : Layers F) (accepts : F -> bool)
    (self : UNet1024) (x latent : F) : option F :=
  if accepts latent then forward F L self x latent else None.

(** ** Counting the skip tensors of a network *)

(** What one down block appends to the skip stack: one tensor per residual
    layer, and one for the downsampler when it has one. *)
Definition down_block_outputs (blk : DownBlock) : nat :=
  db_num_layers blk + (if db_add_downsample blk then 1 else 0).

(** The stack after the encoder: the output of [conv_in] and what the down
    blocks appended. *)
Definition produced_count (self : UNet1024) : nat :=
  1 + list_sum (map down_block_outputs (down_blocks self)).

(** What the decoder wants: one tensor per residual layer of each up block. *)
Definition consumed_count (self : UNet1024) : nat :=
  list_sum (map ub_num_layers (up_blocks self)).

(** Small networks for the skip stack: one down block without downsampler
    under an up block of three residual layers (balanced), and the same
    encoder under an up block of four residual layers (one tensor short). *)
Definition tiny_unet : UNet1024 :=
  mkUNet (mkConv2d 3 8 3 1 1 false) (zero_module (mkConv2d 4 8 1 0 1 false))
    [mkDownBlock DownBlock2D 2 8 8 false] 8
    [mkUpBlock UpBlock2D 3 8 8 8 false] 8
    (mkConv2d 8 4 3 1 1 false).

Definition greedy_unet : UNet1024 :=
  mkUNet (mkConv2d 3 8 3 1 1 false) (zero_module (mkConv2d 4 8 1 0 1 false))
    [mkDownBlock DownBlock2D 2 8 8 false] 8
    [mkUpBlock UpBlock2D 4 8 8 8 false] 8
    (mkConv2d 8 4 3 1 1 false).

(** Configurations that [__init__] cannot index: a schedule of two widths,
    and one more down block than widths. *)
Definition short_config : UNetConfig :=
  mkConfig 3 4 [DownBlock2D; DownBlock2D] [UpBlock2D; UpBlock2D] [32; 64] 2 4.

Definition long_config : UNetConfig :=
  mkConfig 3 4
    [DownBlock2D; DownBlock2D; DownBlock2D; DownBlock2D]
    [UpBlock2D; UpBlock2D; UpBlock2D]
    [32; 64; 128] 2 4.

(** A network that refuses feeds that are higher than wide, and answers the
    others like the constant network. *)
Definition landscape_network : network :=
  fun pixel latent =>
    if dim3 pixel <? dim2 pixel then inl (BackendError 7)
    else flat_network (Num half) pixel latent.

Definition landscape_decoder : TransparentVAEDecoder :=
  mkDecoder (Cuda 0) Float16 landscape_network.

(** A network is equivariant on a pair when rotating and flipping the pair
    rotates and flips its answer [y0] in the same way. *)
Definition equivariant_on (self : TransparentVAEDecoder)
    (pixel latent y0 : tensor) : Prop :=
  forall a, In a args ->
    model self (augment (fst a) (snd a) pixel) (augment (fst a) (snd a) latent)
    = inr (augment (fst a) (snd a) y0).

(** The sum of [n + 1] copies of [v], added from the left as [sum_dim0]
    does. *)
Definition repeated_sum (n : nat) (v : val) : val :=
  Nat.iter n (fun acc => vadd acc v) v.

(** A rational of the unit interval. *)
Definition in_unit_qc (c : Qc) : bool := qc_leb 0%Qc c && qc_leb c 1%Qc.

(** A finite element between 0 and a count. *)
Definition le_count (k : nat) (v : val) : bool :=
  match v with
  | Num x => qc_leb 0%Qc x && qc_leb x (Q2Qc (inject_Z (Z.of_nat k)))
  | _ => false
  end.

(** A network that answers with three channels instead of four. *)
Definition rgb_network : network :=
  fun pixel latent =>
    inr (const_tensor (dim0 pixel) 3 (dim2 pixel) (dim3 pixel)
           (t_device pixel) (t_dtype pixel) (Num half)).

(** A network whose answer holds one infinity, and one whose answer holds
    one NaN, in the first channel. *)
Definition spiked_network (v : val) : network :=
  fun pixel latent =>
    inr (mkTensor 1 4 1 1 (t_device pixel) (t_dtype pixel)
           [[[[v]]; [[Num half]]; [[Num half]]; [[Num half]]]]).

Definition dot_pixel : tensor := const_tensor 1 3 1 1 Cpu Float32 (Num half).
Definition dot_latent : tensor := const_tensor 1 4 1 1 Cpu Float32 zero.

(** * Theorems *)

(** ** Lists: reversal and transposition *)

Section ListFacts.
Variable A : Type.

Lemma rev_seq_sub (n : nat) :
  rev (seq 0 n) = map (fun j => n - 1 - j) (seq 0 n).
Proof.
  apply nth_ext with (d := 0) (d' := n - 1 - 0).
  - now rewrite length_rev, length_map.
  - intros i Hi. rewrite length_rev, length_seq in Hi.
    rewrite rev_nth by (rewrite length_seq; lia).
    rewrite length_seq.
    rewrite (map_nth (fun j => n - 1 - j)).
    rewrite !seq_nth by lia. lia.
Qed.

Lemma map_seq_nth (l : list A) (d : A) :
  map (fun i => nth i l d) (seq 0 (length l)) = l.
Proof.
  apply nth_ext with (d := nth 0 l d) (d' := d).
  - now rewrite length_map, length_seq.
  - intros i Hi. rewrite length_map, length_seq in Hi.
    rewrite (map_nth (fun i => nth i l d)).
    now rewrite seq_nth by lia.
Qed.

Lemma forallb_length_all (w : nat) (m : list (list A)) :
  forallb (fun r => length r =? w) m = true ->
  forall r, In r m -> length r = w.
Proof.
  intros H r Hr. rewrite forallb_forall in H.
  apply Nat.eqb_eq. now apply H.
Qed.
End ListFacts.


(** ** Transposition of a rectangular plane *)

Lemma nth_nil_zero (j : nat) : nth j (@nil val) zero = zero.
Proof. now destruct j. Qed.

Lemma plane_ok_inv (h w : nat) (m : plane) :
  plane_ok h w m = true ->
  length m = h /\ forall r, In r m -> length r = w.
Proof.
  unfold plane_ok. rewrite andb_true_iff, Nat.eqb_eq.
  intros [Hh Hw]. split; [assumption|].
  now apply forallb_length_all.
Qed.

Lemma plane_ok_intro (h w : nat) (m : plane) :
  length m = h -> (forall r, In r m -> length r = w) ->
  plane_ok h w m = true.
Proof.
  intros Hh Hw. unfold plane_ok.
  rewrite andb_true_iff, Nat.eqb_eq, forallb_forall. split; [assumption|].
  intros r Hr. apply Nat.eqb_eq. now apply Hw.
Qed.

Lemma transpose_plane_ok (h w : nat) (m : plane) :
  length m = h -> plane_ok w h (transpose_plane w m) = true.
Proof.
  intros Hh. apply plane_ok_intro.
  - unfold transpose_plane. now rewrite length_map, length_seq.
  - intros r Hr. unfold transpose_plane in Hr.
    apply in_map_iff in Hr. destruct Hr as [j [<- _]].
    now rewrite length_map.
Qed.

Lemma transpose_plane_involutive (h w : nat) (m : plane) :
  plane_ok h w m = true ->
  transpose_plane h (transpose_plane w m) = m.
Proof.
  intros Hm. apply plane_ok_inv in Hm. destruct Hm as [Hh Hw].
  unfold transpose_plane.
  transitivity (map (fun i => nth i m []) (seq 0 h));
    [|subst h; apply map_seq_nth].
  apply map_ext_in. intros i Hi. apply in_seq in Hi.
  rewrite map_map.
  assert (Hrow : length (nth i m []) = w).
  { apply Hw, nth_In. lia. }
  transitivity (map (fun j => nth j (nth i m []) zero) (seq 0 w));
    [|subst w; apply map_seq_nth].
  apply map_ext. intros j.
  now rewrite <- (map_nth (fun r => nth j r zero) m [] i), nth_nil_zero.
Qed.

Lemma transpose_plane_map_rev (w : nat) (m : plane) :
  (forall r, In r m -> length r = w) ->
  transpose_plane w (map (@rev val) m) = rev (transpose_plane w m).
Proof.
  intros Hw. unfold transpose_plane.
  rewrite <- map_rev, rev_seq_sub, map_map.
  apply map_ext_in. intros j Hj. apply in_seq in Hj.
  rewrite map_map. apply map_ext_in. intros r Hr.
  rewrite rev_nth by (rewrite (Hw r Hr); lia).
  rewrite (Hw r Hr). f_equal. lia.
Qed.

Lemma transpose_plane_rev (w : nat) (m : plane) :
  transpose_plane w (rev m) = map (@rev val) (transpose_plane w m).
Proof.
  unfold transpose_plane. rewrite map_map.
  apply map_ext. intros j. now rewrite map_rev.
Qed.

Lemma map_rev_involutive (m : plane) : map (@rev val) (map (@rev val) m) = m.
Proof.
  rewrite map_map. rewrite <- (map_id m) at 2.
  apply map_ext. intros r. apply rev_involutive.
Qed.

(** A quarter turn followed by the opposite quarter turn, on one plane. *)
Lemma plane_turn_1_3 (h w : nat) (m : plane) :
  plane_ok h w m = true ->
  transpose_plane h (rev (transpose_plane w (map (@rev val) m))) = m.
Proof.
  intros Hm. destruct (plane_ok_inv _ _ _ Hm) as [_ Hw].
  rewrite transpose_plane_map_rev by assumption.
  rewrite rev_involutive. now apply transpose_plane_involutive.
Qed.

Lemma plane_turn_3_1 (h w : nat) (m : plane) :
  plane_ok h w m = true ->
  transpose_plane h (map (@rev val) (transpose_plane w (rev m))) = m.
Proof.
  intros Hm.
  rewrite transpose_plane_rev, map_rev_involutive.
  now apply transpose_plane_involutive.
Qed.

Lemma plane_turn_2_2 (m : plane) :
  rev (map (@rev val) (rev (map (@rev val) m))) = m.
Proof.
  rewrite <- map_rev, rev_involutive. apply map_rev_involutive.
Qed.

(** ** Shapes of tensors *)

Lemma data_ok_planes (b c h w : nat) (d : data4) :
  data_ok b c h w d = true ->
  forall x, In x d -> forall m, In m x -> plane_ok h w m = true.
Proof.
  unfold data_ok. rewrite andb_true_iff, forallb_forall.
  intros [_ H] x Hx m Hm. specialize (H x Hx).
  rewrite andb_true_iff, forallb_forall in H. now apply H.
Qed.

Lemma data_ok_map (b c h w h' w' : nat) (f : plane -> plane) (d : data4) :
  (forall m, plane_ok h w m = true -> plane_ok h' w' (f m) = true) ->
  data_ok b c h w d = true ->
  data_ok b c h' w' (map (map f) d) = true.
Proof.
  unfold data_ok. intros Hf. rewrite !andb_true_iff, !forallb_forall.
  intros [Hb H]. split.
  - now rewrite length_map.
  - intros x' Hx'. apply in_map_iff in Hx'. destruct Hx' as [x [<- Hx]].
    specialize (H x Hx). rewrite andb_true_iff, forallb_forall in H.
    destruct H as [Hc H].
    rewrite andb_true_iff, forallb_forall, length_map. split; [assumption|].
    intros m' Hm'. apply in_map_iff in Hm'. destruct Hm' as [m [<- Hm]].
    apply Hf. now apply H.
Qed.

Lemma map_map_id_in (f : plane -> plane) (d : data4) :
  (forall x, In x d -> forall m, In m x -> f m = m) ->
  map (map f) d = d.
Proof.
  intros H. rewrite <- (map_id d) at 2.
  apply map_ext_in. intros x Hx.
  rewrite <- (map_id x) at 2.
  apply map_ext_in. intros m Hm. now apply (H x).
Qed.

Lemma map_map_compose (f g : plane -> plane) (d : data4) :
  map (map f) (map (map g) d) = map (map (fun m => f (g m))) d.
Proof.
  rewrite map_map. apply map_ext. intros x. apply map_map.
Qed.

Lemma flip3_shape_ok (t : tensor) :
  shape_ok t = true -> shape_ok (flip3 t) = true.
Proof.
  unfold shape_ok, flip3; simpl. apply data_ok_map.
  intros m Hm. destruct (plane_ok_inv _ _ _ Hm) as [Hh Hw].
  apply plane_ok_intro.
  - now rewrite length_map.
  - intros r Hr. apply in_map_iff in Hr. destruct Hr as [r0 [<- Hr0]].
    rewrite length_rev. now apply Hw.
Qed.

Lemma flip2_shape_ok (t : tensor) :
  shape_ok t = true -> shape_ok (flip2 t) = true.
Proof.
  unfold shape_ok, flip2; simpl. apply data_ok_map.
  intros m Hm. destruct (plane_ok_inv _ _ _ Hm) as [Hh Hw].
  apply plane_ok_intro.
  - now rewrite length_rev.
  - intros r Hr. apply Hw. now apply in_rev.
Qed.

Lemma transpose23_shape_ok (t : tensor) :
  shape_ok t = true -> shape_ok (transpose23 t) = true.
Proof.
  unfold shape_ok, transpose23; simpl. apply data_ok_map.
  intros m Hm. destruct (plane_ok_inv _ _ _ Hm) as [Hh Hw].
  now apply transpose_plane_ok.
Qed.

Lemma flip3_involutive (t : tensor) : flip3 (flip3 t) = t.
Proof.
  destruct t as [b c h w dv dt d]. unfold flip3; simpl. f_equal.
  rewrite map_map_compose. apply map_map_id_in.
  intros x _ m _. apply map_rev_involutive.
Qed.

(** ** Quarter turns *)

Lemma rot90_steps_opp (k : Z) :
  (rot90_steps k = 0 /\ rot90_steps (- k) = 0 \/
   rot90_steps k = 1 /\ rot90_steps (- k) = 3 \/
   rot90_steps k = 2 /\ rot90_steps (- k) = 2 \/
   rot90_steps k = 3 /\ rot90_steps (- k) = 1)%Z.
Proof.
  unfold rot90_steps. rewrite Z.rem_opp_l by lia.
  assert (Hb : (Z.abs (Z.rem k 4) < Z.abs 4)%Z) by (apply Z.rem_bound_abs; lia).
  set (r := Z.rem k 4) in *.
  assert (Hr : (r = -3 \/ r = -2 \/ r = -1 \/ r = 0 \/
                r = 1 \/ r = 2 \/ r = 3)%Z) by lia.
  destruct Hr as [-> | [-> | [-> | [-> | [-> | [-> | ->]]]]]];
    vm_compute; intuition congruence.
Qed.

Lemma turn_1_then_3 (t : tensor) :
  shape_ok t = true -> transpose23 (flip2 (transpose23 (flip3 t))) = t.
Proof.
  intros Hok. destruct t as [b c h w dv dt d].
  unfold shape_ok in Hok. unfold transpose23, flip2, flip3; simpl in *. f_equal.
  rewrite !map_map_compose. apply map_map_id_in.
  intros x Hx m Hm. apply plane_turn_1_3.
  now apply (data_ok_planes _ _ _ _ _ Hok x).
Qed.

Lemma turn_3_then_1 (t : tensor) :
  shape_ok t = true -> transpose23 (flip3 (transpose23 (flip2 t))) = t.
Proof.
  intros Hok. destruct t as [b c h w dv dt d].
  unfold shape_ok in Hok. unfold transpose23, flip2, flip3; simpl in *. f_equal.
  rewrite !map_map_compose. apply map_map_id_in.
  intros x Hx m Hm. apply plane_turn_3_1.
  now apply (data_ok_planes _ _ _ _ _ Hok x).
Qed.

Lemma turn_2_then_2 (t : tensor) : flip2 (flip3 (flip2 (flip3 t))) = t.
Proof.
  destruct t as [b c h w dv dt d].
  unfold flip2, flip3; simpl. f_equal.
  rewrite !map_map_compose. apply map_map_id_in.
  intros x _ m _. apply plane_turn_2_2.
Qed.

Lemma rot90_inverse (k : Z) (t : tensor) :
  shape_ok t = true -> rot90 (- k) (rot90 k t) = t.
Proof.
  intros Hok. unfold rot90.
  destruct (rot90_steps_opp k) as [[-> ->] | [[-> ->] | [[-> ->] | [-> ->]]]].
  - reflexivity.
  - now apply turn_1_then_3.
  - apply turn_2_then_2.
  - now apply turn_3_then_1.
Qed.

Lemma rot90_shape_ok (k : Z) (t : tensor) :
  shape_ok t = true -> shape_ok (rot90 k t) = true.
Proof.
  intros Hok. unfold rot90.
  destruct (rot90_steps k) as [|p|p]; try assumption.
  destruct p as [[|p|]|[|p|]|]; try assumption.
  - now apply transpose23_shape_ok, flip2_shape_ok.
  - now apply flip2_shape_ok, flip3_shape_ok.
  - now apply transpose23_shape_ok, flip3_shape_ok.
Qed.

Lemma augment_shape_ok (flip : bool) (k : Z) (t : tensor) :
  shape_ok t = true -> shape_ok (augment flip k t) = true.
Proof.
  intros Hok. unfold augment, clone. apply rot90_shape_ok.
  destruct flip; [now apply flip3_shape_ok | assumption].
Qed.

Lemma unaugment_augment (flip : bool) (k : Z) (t : tensor) :
  shape_ok t = true -> unaugment flip k (augment flip k t) = t.
Proof.
  intros Hok. unfold unaugment, augment, clone.
  destruct flip.
  - rewrite rot90_inverse by now apply flip3_shape_ok.
    apply flip3_involutive.
  - now apply rot90_inverse.
Qed.

(** C2: for every well-shaped tensor, every flip flag and every rotation
    count k in 0..3, undoing the augmentation (rotate by -k, then flip back
    along the width axis when flipped) after applying it (optional width
    flip, then k quarter turns) returns the tensor unchanged; in particular
    rot90 by k followed by rot90 by -k is the identity. *)
Theorem augmentation_round_trip (t : tensor) (flip : bool) (k : Z) :
  shape_ok t = true ->
  (0 <= k <= 3)%Z ->
  unaugment flip k (augment flip k t) = t /\
  rot90 (- k) (rot90 k t) = t.
Proof.
  intros Hok _. split.
  - now apply unaugment_augment.
  - now apply rot90_inverse.
Qed.

(** ** Elements: finiteness and the unit interval *)

Lemma is_finite_iff (v : val) :
  is_finite v = true <-> is_nan v = false /\ is_inf v = false.
Proof. destruct v; simpl; intuition congruence. Qed.

Lemma in_unit_finite (v : val) : in_unit v = true -> is_finite v = true.
Proof. destruct v; simpl; congruence. Qed.

Lemma in_unit_zero : in_unit zero = true.
Proof. reflexivity. Qed.

Lemma qc_leb_total (a b : Qc) : qc_leb a b = false -> qc_leb b a = true.
Proof.
  unfold qc_leb. intros H. apply Qle_bool_iff.
  destruct (Qlt_le_dec b a) as [Hlt | Hle].
  - now apply Qlt_le_weak.
  - apply Qle_bool_iff in Hle. congruence.
Qed.

Lemma qc_leb_trans (a b c : Qc) :
  qc_leb a b = true -> qc_leb b c = true -> qc_leb a c = true.
Proof.
  unfold qc_leb. rewrite !Qle_bool_iff. apply Qle_trans.
Qed.

Lemma vclip01_in_unit (v : val) : is_nan v = false -> in_unit (vclip01 v) = true.
Proof.
  destruct v as [x| | |]; simpl; try congruence; intros _; try reflexivity.
  unfold qc_min, qc_max.
  destruct (qc_leb x 0) eqn:H0.
  - reflexivity.
  - destruct (qc_leb x 1) eqn:H1.
    + rewrite H1. apply andb_true_iff. split; [|reflexivity].
      apply qc_leb_total. exact H0.
    + reflexivity.
Qed.

Lemma vclip01_num (v : val) : is_finite v = true -> is_finite (vclip01 v) = true.
Proof. destruct v; simpl; congruence. Qed.

Lemma vadd_finite (a b : val) :
  is_finite a = true -> is_finite b = true -> is_finite (vadd a b) = true.
Proof. destruct a, b; simpl; congruence. Qed.

Lemma vdiv_count_finite (a : val) (n : nat) :
  n <> 0 -> is_finite a = true -> is_finite (vdiv_count a n) = true.
Proof. destruct n; [congruence|]. destruct a; simpl; congruence. Qed.

(** ** Nested lists *)

Section Nested.
Variables A B C : Type.

Lemma zip_with_length (f : A -> B -> C) (l : list A) (l' : list B) :
  length (zip_with f l l') = Nat.min (length l) (length l').
Proof.
  revert l'. induction l as [|a l IH]; intros [|b l']; simpl; auto.
Qed.

Lemma zip_with_in (f : A -> B -> C) (l : list A) (l' : list B) (z : C) :
  In z (zip_with f l l') ->
  exists a b, In a l /\ In b l' /\ z = f a b.
Proof.
  revert l'. induction l as [|a l IH]; intros [|b l']; simpl; try tauto.
  intros [<- | Hz].
  - exists a, b. auto.
  - destruct (IH _ Hz) as [a' [b' [Ha [Hb ->]]]]. exists a', b'. auto.
Qed.

Lemma zip_with_nth (f : A -> B -> C) (l : list A) (l' : list B)
      (i : nat) (da : A) (db : B) (dc : C) :
  i < length l -> i < length l' ->
  nth i (zip_with f l l') dc = f (nth i l da) (nth i l' db).
Proof.
  revert l' i. induction l as [|a l IH]; intros [|b l'] [|i]; simpl;
    try lia; auto.
  intros H1 H2. apply IH; lia.
Qed.

Lemma forallb_zip_with (P : A -> bool) (Q : B -> bool) (R : C -> bool)
      (f : A -> B -> C) (l : list A) (l' : list B) :
  (forall a b, P a = true -> Q b = true -> R (f a b) = true) ->
  forallb P l = true -> forallb Q l' = true ->
  forallb R (zip_with f l l') = true.
Proof.
  intros Hf. revert l'. induction l as [|a l IH]; intros [|b l']; simpl; auto.
  rewrite !andb_true_iff. intros [Ha Hl] [Hb Hl']. split; auto.
Qed.

Lemma forallb_map (P : B -> bool) (Q : A -> bool) (f : A -> B) (l : list A) :
  (forall a, Q a = true -> P (f a) = true) ->
  forallb Q l = true -> forallb P (map f l) = true.
Proof.
  intros Hf. induction l as [|a l IH]; simpl; auto.
  rewrite !andb_true_iff. intros [Ha Hl]. split; auto.
Qed.

Lemma forallb_rev (P : A -> bool) (l : list A) :
  forallb P l = true -> forallb P (rev l) = true.
Proof.
  rewrite !forallb_forall. intros H x Hx. apply H. now apply in_rev.
Qed.

Lemma existsb_false_forallb (P : A -> bool) (Q : A -> bool) (l : list A) :
  (forall a, P a = false -> Q a = true) ->
  existsb P l = false -> forallb Q l = true.
Proof.
  intros H. induction l as [|a l IH]; simpl; auto.
  rewrite orb_false_iff, andb_true_iff. intros [Ha Hl]. auto.
Qed.

Lemma forallb_existsb_false (P : A -> bool) (Q : A -> bool) (l : list A) :
  (forall a, Q a = true -> P a = false) ->
  forallb Q l = true -> existsb P l = false.
Proof.
  intros H. induction l as [|a l IH]; simpl; auto.
  rewrite orb_false_iff, andb_true_iff. intros [Ha Hl]. auto.
Qed.
End Nested.

Lemma forall4_map4 (P Q : val -> bool) (f : val -> val) (d : data4) :
  (forall v, Q v = true -> P (f v) = true) ->
  forall4 Q d = true -> forall4 P (map4 f d) = true.
Proof.
  intros Hf. unfold forall4, map4.
  apply forallb_map. intros x. apply forallb_map. intros m.
  apply forallb_map. intros r. now apply forallb_map.
Qed.

Lemma forall4_zip4 (P : val -> bool) (f : val -> val -> val) (d d' : data4) :
  (forall a b, P a = true -> P b = true -> P (f a b) = true) ->
  forall4 P d = true -> forall4 P d' = true -> forall4 P (zip4 f d d') = true.
Proof.
  intros Hf. unfold forall4, zip4.
  apply forallb_zip_with. intros x x'. apply forallb_zip_with. intros m m'.
  apply forallb_zip_with. intros r r'. now apply forallb_zip_with.
Qed.

Lemma forall4_weaken (P Q : val -> bool) (d : data4) :
  (forall v, P v = true -> Q v = true) ->
  forall4 P d = true -> forall4 Q d = true.
Proof.
  intros H. unfold forall4. rewrite !forallb_forall. intros Hd x Hx.
  specialize (Hd x Hx). rewrite forallb_forall in *. intros m Hm.
  specialize (Hd m Hm). rewrite forallb_forall in *. intros r Hr.
  specialize (Hd r Hr). rewrite forallb_forall in *. auto.
Qed.

Lemma not_nan_inf_finite (d : data4) :
  exists4 is_nan d = false -> exists4 is_inf d = false ->
  forall4 is_finite d = true.
Proof.
  unfold exists4, forall4. revert d.
  assert (H1 : forall r : list val,
             existsb is_nan r = false -> existsb is_inf r = false ->
             forallb is_finite r = true).
  { induction r as [|v r IH]; simpl; auto.
    rewrite !orb_false_iff, andb_true_iff. intros [Hv Hr] [Hv' Hr'].
    split; [now apply is_finite_iff | auto]. }
  assert (H2 : forall m : plane,
             existsb (existsb is_nan) m = false ->
             existsb (existsb is_inf) m = false ->
             forallb (forallb is_finite) m = true).
  { induction m as [|r m IH]; simpl; auto.
    rewrite !orb_false_iff, andb_true_iff. intros [Hv Hr] [Hv' Hr']. auto. }
  assert (H3 : forall x : list plane,
             existsb (existsb (existsb is_nan)) x = false ->
             existsb (existsb (existsb is_inf)) x = false ->
             forallb (forallb (forallb is_finite)) x = true).
  { induction x as [|m x IH]; simpl; auto.
    rewrite !orb_false_iff, andb_true_iff. intros [Hv Hr] [Hv' Hr']. auto. }
  induction d as [|x d IH]; simpl; auto.
  rewrite !orb_false_iff, andb_true_iff. intros [Hv Hr] [Hv' Hr']. auto.
Qed.

Lemma finite_not_nan (d : data4) :
  forall4 is_finite d = true -> exists4 is_nan d = false.
Proof.
  unfold exists4, forall4.
  apply forallb_existsb_false. intros x.
  apply forallb_existsb_false. intros m.
  apply forallb_existsb_false. intros r.
  apply forallb_existsb_false. intros v Hv. now destruct v.
Qed.

Lemma finite_not_inf (d : data4) :
  forall4 is_finite d = true -> exists4 is_inf d = false.
Proof.
  unfold exists4, forall4.
  apply forallb_existsb_false. intros x.
  apply forallb_existsb_false. intros m.
  apply forallb_existsb_false. intros r.
  apply forallb_existsb_false. intros v Hv. now destruct v.
Qed.

Lemma augmentation_round_trip_witness :
  unaugment true 3 (augment true 3 ramp_tensor) = ramp_tensor /\
  rot90 (- 3) (rot90 3 ramp_tensor) = ramp_tensor.
Proof.
  apply (augmentation_round_trip ramp_tensor true 3).
  - reflexivity.
  - lia.
Defined.

(** ** The decoder monad *)

Lemma for_each_app_inr {A B : Type} (f : A -> M B) (P : A -> B -> Prop)
      (l : list A) :
  (forall a, In a l -> forall log, exists log' b,
        f a log = (log', inr b) /\ P a b) ->
  forall log, exists log' bs,
      for_each f l log = (log', inr bs) /\ Forall2 P l bs.
Proof.
  induction l as [|a l IH]; intros Hf log.
  - exists log, []. split; [reflexivity | constructor].
  - destruct (Hf a (or_introl eq_refl) log) as [log1 [b [Hb HP]]].
    destruct (IH (fun a' Ha' => Hf a' (or_intror Ha')) log1)
      as [log2 [bs [Hbs HPs]]].
    exists log2, (b :: bs). split; [|now constructor].
    simpl. unfold bind. now rewrite Hb, Hbs.
Qed.

Lemma decode_pixel_unfold (self : TransparentVAEDecoder)
      (pixel latent : tensor) (log : list event) :
  dim1 pixel = 3 ->
  decode_pixel self pixel latent log =
  match estimate_augmented self
          (to_tensor (load_device self) (self_dtype self) pixel)
          (to_tensor (load_device self) (self_dtype self) latent)
          ((log ++ [EvTo (load_device self) (self_dtype self)])
               ++ [EvTo (load_device self) (self_dtype self)]) with
  | (log', inl e) => (log', inl e)
  | (log', inr y) =>
      if dim1 y =? 4
      then (log' ++ [EvTo (t_device pixel) (t_dtype pixel)],
            inr (to_tensor (t_device pixel) (t_dtype pixel) (clip01 y)))
      else (log', inl (AssertionError_output (dim1 y)))
  end.
Proof.
  intros Hc. unfold decode_pixel, bind, assert_, to, emit, ret, raise.
  rewrite Hc. simpl.
  destruct (estimate_augmented _ _ _ _) as [log' [e | y]]; [reflexivity|].
  now destruct (dim1 y =? 4).
Qed.

Lemma decode_pixel_assert (self : TransparentVAEDecoder)
      (pixel latent : tensor) (log : list event) :
  (dim1 pixel =? 3) = false ->
  decode_pixel self pixel latent log =
  (log, inl (AssertionError_pixel (dim1 pixel))).
Proof.
  intros Hc. unfold decode_pixel, bind, assert_. now rewrite Hc.
Qed.

(** C4: a pixel tensor whose channel axis is not 3 makes decode_pixel fail
    with the assertion error of its precondition, whatever the batch and
    spatial sizes, and the log is left as it was: no device transfer and no
    forward pass of the network has happened. *)
Theorem decode_pixel_rejects_channels (self : TransparentVAEDecoder)
        (pixel latent : tensor) (log : list event) :
  dim1 pixel <> 3 ->
  decode_pixel self pixel latent log =
  (log, inl (AssertionError_pixel (dim1 pixel))).
Proof.
  intros Hc. apply decode_pixel_assert. now apply Nat.eqb_neq.
Qed.

Lemma decode_pixel_rejects_channels_witness :
  decode_pixel (flat_decoder (Num half))
    (const_tensor 2 4 8 16 Cpu Float32 zero)
    (const_tensor 2 4 1 2 Cpu Float32 zero) [] =
  ([], inl (AssertionError_pixel 4)).
Proof.
  apply (decode_pixel_rejects_channels (flat_decoder (Num half))
           (const_tensor 2 4 8 16 Cpu Float32 zero)
           (const_tensor 2 4 1 2 Cpu Float32 zero) []).
  simpl. lia.
Defined.

(** ** Stacking and the mean *)

Lemma stack_inr (ts : list tensor) (st : stacked) :
  stack ts = inr st ->
  exists t rest,
    ts = t :: rest /\
    forallb (fun u => shape_eqb (t_shape u) (t_shape t)) rest = true /\
    st = mkStacked (length ts) (t_shape t) (t_device t) (t_dtype t)
           (map t_data ts).
Proof.
  destruct ts as [|t rest]; simpl; [discriminate|].
  destruct (forallb _ rest) eqn:Hall; [|discriminate].
  intros [= <-]. now exists t, rest.
Qed.

Lemma ensemble_inr (self : TransparentVAEDecoder) (pixel latent : tensor)
      (log log' : list event) (st : stacked) :
  ensemble self pixel latent log = (log', inr st) ->
  exists result,
    for_each (augmented_pass self pixel latent) args log = (log', inr result) /\
    stack result = inr st.
Proof.
  unfold ensemble, bind, lift.
  destruct (for_each _ args log) as [log1 [e | result]]; [discriminate|].
  intros [= <- H]. now exists result.
Qed.

Lemma stacked_finite (st : stacked) :
  any_nan st || any_inf st = false ->
  forallb (forall4 is_finite) (s_data st) = true.
Proof.
  unfold any_nan, any_inf. rewrite orb_false_iff. intros [Hn Hi].
  induction (s_data st) as [|d ds IH]; simpl in *; [reflexivity|].
  rewrite orb_false_iff in Hn, Hi. destruct Hn as [Hn Hns], Hi as [Hi His].
  rewrite andb_true_iff. split; [now apply not_nan_inf_finite | auto].
Qed.

Lemma sum_dim0_forall4 (P : val -> bool) (ds : list data4) :
  (forall a b, P a = true -> P b = true -> P (vadd a b) = true) ->
  ds <> [] ->
  forallb (forall4 P) ds = true -> forall4 P (sum_dim0 ds) = true.
Proof.
  intros Hadd. destruct ds as [|d rest]; [congruence|]. intros _. simpl.
  rewrite andb_true_iff. intros [Hd Hrest].
  revert d Hd Hrest. induction rest as [|d' rest IH]; intros d Hd Hrest; simpl.
  - assumption.
  - simpl in Hrest. rewrite andb_true_iff in Hrest. destruct Hrest as [Hd' Hrest].
    apply IH; [|assumption]. now apply forall4_zip4.
Qed.

Lemma mean_dim0_finite (st : stacked) :
  s_count st <> 0 -> s_data st <> [] ->
  forallb (forall4 is_finite) (s_data st) = true ->
  forall4 is_finite (t_data (mean_dim0 st)) = true.
Proof.
  intros Hn Hne Hfin. unfold mean_dim0.
  destruct (s_shape st) as [[[b c] h] w]. simpl.
  apply forall4_map4 with (Q := is_finite).
  - intros v. now apply vdiv_count_finite.
  - apply sum_dim0_forall4; auto. apply vadd_finite.
Qed.

Lemma stack_mean_finite (ts : list tensor) (st : stacked) :
  stack ts = inr st ->
  any_nan st || any_inf st = false ->
  forall4 is_finite (t_data (mean_dim0 st)) = true.
Proof.
  intros Hst Hok. destruct (stack_inr _ _ Hst) as [t [rest [-> [_ ->]]]].
  apply mean_dim0_finite; simpl; try congruence.
  now apply stacked_finite in Hok.
Qed.

Lemma estimate_augmented_cases (self : TransparentVAEDecoder)
      (pixel latent : tensor) (log log' : list event) (st : stacked) :
  ensemble self pixel latent log = (log', inr st) ->
  estimate_augmented self pixel latent log =
  if any_nan st || any_inf st
  then (log', inl ValueError_nan_inf)
  else (log', inr (mean_dim0 st)).
Proof.
  intros H. unfold estimate_augmented, bind. rewrite H.
  now destruct (any_nan st || any_inf st).
Qed.

Lemma estimate_augmented_inr (self : TransparentVAEDecoder)
      (pixel latent : tensor) (log log' : list event) (y : tensor) :
  estimate_augmented self pixel latent log = (log', inr y) ->
  exists st,
    ensemble self pixel latent log = (log', inr st) /\
    any_nan st || any_inf st = false /\ y = mean_dim0 st.
Proof.
  unfold estimate_augmented, bind.
  destruct (ensemble self pixel latent log) as [log1 [e | st]] eqn:He;
    [discriminate|].
  destruct (any_nan st || any_inf st) eqn:Hbad; unfold raise, ret;
    [discriminate|].
  intros [= <- <-]. now exists st.
Qed.

Lemma estimate_augmented_finite (self : TransparentVAEDecoder)
      (pixel latent : tensor) (log log' : list event) (y : tensor) :
  estimate_augmented self pixel latent log = (log', inr y) ->
  forall4 is_finite (t_data y) = true.
Proof.
  intros H. destruct (estimate_augmented_inr _ _ _ _ _ _ H) as [st [He [Hok ->]]].
  destruct (ensemble_inr _ _ _ _ _ _ He) as [result [_ Hst]].
  now apply (stack_mean_finite result).
Qed.

Lemma decode_pixel_inr (self : TransparentVAEDecoder)
      (pixel latent : tensor) (log log' : list event) (y : tensor) :
  decode_pixel self pixel latent log = (log', inr y) ->
  dim1 pixel = 3 /\
  exists log1 y0,
    estimate_augmented self
      (to_tensor (load_device self) (self_dtype self) pixel)
      (to_tensor (load_device self) (self_dtype self) latent)
      ((log ++ [EvTo (load_device self) (self_dtype self)])
           ++ [EvTo (load_device self) (self_dtype self)]) = (log1, inr y0) /\
    dim1 y0 = 4 /\
    log' = log1 ++ [EvTo (t_device pixel) (t_dtype pixel)] /\
    y = to_tensor (t_device pixel) (t_dtype pixel) (clip01 y0).
Proof.
  intros H.
  destruct (Nat.eq_dec (dim1 pixel) 3) as [Hc | Hc].
  - split; [assumption|].
    rewrite decode_pixel_unfold in H by assumption.
    destruct (estimate_augmented _ _ _ _) as [log1 [e | y0]]; [discriminate|].
    destruct (dim1 y0 =? 4) eqn:H4; [|discriminate].
    injection H as <- <-. exists log1, y0.
    apply Nat.eqb_eq in H4. auto.
  - rewrite decode_pixel_assert in H by now apply Nat.eqb_neq.
    discriminate.
Qed.

Lemma clip01_finite (y : tensor) :
  forall4 is_finite (t_data y) = true ->
  forall4 is_finite (t_data (clip01 y)) = true.
Proof.
  intros H. unfold clip01; simpl.
  apply forall4_map4 with (Q := is_finite); [apply vclip01_num | assumption].
Qed.

(** C3: once the eight results are stacked, a NaN or an infinity anywhere in
    the stacked tensor makes estimate_augmented, and with it decode_pixel,
    raise the ValueError before the mean is taken; without such a value the
    error branch is not taken and the mean is returned; and a tensor that
    decode_pixel returns never holds a NaN or an infinity. *)
Theorem nan_inf_guard (self : TransparentVAEDecoder) (pixel latent : tensor)
        (log : list event) :
  dim1 pixel = 3 ->
  let pixel' := to_tensor (load_device self) (self_dtype self) pixel in
  let latent' := to_tensor (load_device self) (self_dtype self) latent in
  let log2 := (log ++ [EvTo (load_device self) (self_dtype self)])
                ++ [EvTo (load_device self) (self_dtype self)] in
  (forall log' st,
      ensemble self pixel' latent' log2 = (log', inr st) ->
      (any_nan st || any_inf st = true ->
       estimate_augmented self pixel' latent' log2
         = (log', inl ValueError_nan_inf) /\
       decode_pixel self pixel latent log = (log', inl ValueError_nan_inf)) /\
      (any_nan st || any_inf st = false ->
       estimate_augmented self pixel' latent' log2
         = (log', inr (mean_dim0 st)) /\
       snd (decode_pixel self pixel latent log) <> inl ValueError_nan_inf)) /\
  (forall log' y,
      decode_pixel self pixel latent log = (log', inr y) ->
      forall4 is_finite (t_data y) = true).
Proof.
  intros Hc pixel' latent' log2. split.
  - intros log' st He.
    pose proof (estimate_augmented_cases _ _ _ _ _ _ He) as Hea.
    split; intros Hbad; rewrite Hbad in Hea; (split; [exact Hea|]).
    + rewrite decode_pixel_unfold by assumption.
      fold pixel' latent' log2. now rewrite Hea.
    + rewrite decode_pixel_unfold by assumption.
      fold pixel' latent' log2. rewrite Hea.
      destruct (dim1 (mean_dim0 st) =? 4); simpl; discriminate.
  - intros log' y Hd.
    destruct (decode_pixel_inr _ _ _ _ _ _ Hd) as [_ [log1 [y0 [Hy0 [_ [_ ->]]]]]].
    unfold to_tensor at 1; simpl. fold (t_data (clip01 y0)).
    apply clip01_finite. exact (estimate_augmented_finite _ _ _ _ _ _ Hy0).
Qed.

Lemma nan_inf_guard_witness :
  exists log',
    decode_pixel (flat_decoder NaN)
      (const_tensor 1 3 1 2 Cpu Float32 (Num half))
      (const_tensor 1 4 1 1 Cpu Float32 zero) [] =
    (log', inl ValueError_nan_inf).
Proof.
  destruct (ensemble (flat_decoder NaN)
              (to_tensor (Cuda 0) Float16
                 (const_tensor 1 3 1 2 Cpu Float32 (Num half)))
              (to_tensor (Cuda 0) Float16
                 (const_tensor 1 4 1 1 Cpu Float32 zero))
              [EvTo (Cuda 0) Float16; EvTo (Cuda 0) Float16])
    as [log' [e | st]] eqn:He.
  - vm_compute in He. discriminate He.
  - exists log'.
    refine (proj2 (proj1 (proj1 (nan_inf_guard (flat_decoder NaN)
              (const_tensor 1 3 1 2 Cpu Float32 (Num half))
              (const_tensor 1 4 1 1 Cpu Float32 zero) [] eq_refl)
              log' st He) _)).
    vm_compute in He. injection He as _ <-. reflexivity.
Defined.

(** ** Shapes and element predicates through the tensor operations *)

Lemma data_ok_iff (b c h w : nat) (d : data4) :
  data_ok b c h w d = true <->
  length d = b /\
  forall x, In x d ->
    length x = c /\
    forall m, In m x ->
      length m = h /\ forall r, In r m -> length r = w.
Proof.
  unfold data_ok. rewrite andb_true_iff, Nat.eqb_eq, forallb_forall. split.
  - intros [Hb H]. split; [assumption|]. intros x Hx.
    specialize (H x Hx). rewrite andb_true_iff, Nat.eqb_eq, forallb_forall in H.
    destruct H as [Hc H]. split; [assumption|]. intros m Hm.
    now apply plane_ok_inv, H.
  - intros [Hb H]. split; [assumption|]. intros x Hx.
    destruct (H x Hx) as [Hc Hx'].
    rewrite andb_true_iff, Nat.eqb_eq, forallb_forall. split; [assumption|].
    intros m Hm. destruct (Hx' m Hm) as [Hh Hw]. now apply plane_ok_intro.
Qed.

Lemma data_ok_map4 (b c h w : nat) (f : val -> val) (d : data4) :
  data_ok b c h w d = true -> data_ok b c h w (map4 f d) = true.
Proof.
  unfold map4. intros H. apply (data_ok_map b c h w h w (map (map f)) d);
    [|assumption].
  intros m Hm. destruct (plane_ok_inv _ _ _ Hm) as [Hh Hw].
  apply plane_ok_intro.
  - now rewrite length_map.
  - intros r Hr. apply in_map_iff in Hr. destruct Hr as [r0 [<- Hr0]].
    rewrite length_map. now apply Hw.
Qed.

Lemma data_ok_zip4 (b c h w : nat) (f : val -> val -> val) (d d' : data4) :
  data_ok b c h w d = true -> data_ok b c h w d' = true ->
  data_ok b c h w (zip4 f d d') = true.
Proof.
  rewrite !data_ok_iff. unfold data4, plane in *.
  intros [Hb H] [Hb' H']. unfold zip4. split.
  - rewrite zip_with_length. lia.
  - intros x Hx. apply zip_with_in in Hx.
    destruct Hx as [x1 [x2 [Hx1 [Hx2 ->]]]].
    destruct (H x1 Hx1) as [Hc Hm], (H' x2 Hx2) as [Hc' Hm']. split.
    + rewrite zip_with_length. lia.
    + intros m Hm0. apply zip_with_in in Hm0.
      destruct Hm0 as [m1 [m2 [Hm1 [Hm2 ->]]]].
      destruct (Hm m1 Hm1) as [Hh Hr], (Hm' m2 Hm2) as [Hh' Hr']. split.
      * rewrite zip_with_length. lia.
      * intros r Hr0. apply zip_with_in in Hr0.
        destruct Hr0 as [r1 [r2 [Hr1 [Hr2 ->]]]].
        rewrite zip_with_length, (Hr r1 Hr1), (Hr' r2 Hr2). lia.
Qed.

Lemma nth_forallb (P : val -> bool) (r : list val) (j : nat) :
  P zero = true -> forallb P r = true -> P (nth j r zero) = true.
Proof.
  intros Hz Hr. destruct (nth_in_or_default j r zero) as [Hin | ->].
  - rewrite forallb_forall in Hr. now apply Hr.
  - assumption.
Qed.

Lemma forall4_planes (P : val -> bool) (f : plane -> plane) (d : data4) :
  (forall m, forallb (forallb P) m = true ->
             forallb (forallb P) (f m) = true) ->
  forall4 P d = true -> forall4 P (map (map f) d) = true.
Proof.
  intros Hf. unfold forall4.
  apply forallb_map. intros x. now apply forallb_map.
Qed.

Lemma forall4_flip3 (P : val -> bool) (t : tensor) :
  forall4 P (t_data t) = true -> forall4 P (t_data (flip3 t)) = true.
Proof.
  unfold flip3; simpl. apply (forall4_planes P (map (@rev val))).
  intros m. apply forallb_map. intros r. apply forallb_rev.
Qed.

Lemma forall4_flip2 (P : val -> bool) (t : tensor) :
  forall4 P (t_data t) = true -> forall4 P (t_data (flip2 t)) = true.
Proof.
  unfold flip2; simpl. apply (forall4_planes P (@rev (list val))).
  intros m. apply forallb_rev.
Qed.

Lemma forall4_transpose23 (P : val -> bool) (t : tensor) :
  P zero = true ->
  forall4 P (t_data t) = true -> forall4 P (t_data (transpose23 t)) = true.
Proof.
  intros Hz. unfold transpose23; simpl.
  apply (forall4_planes P (transpose_plane (dim3 t))).
  intros m Hm. unfold transpose_plane.
  rewrite forallb_forall. intros r Hr.
  apply in_map_iff in Hr. destruct Hr as [j [<- _]].
  rewrite forallb_forall. intros v Hv.
  apply in_map_iff in Hv. destruct Hv as [r0 [<- Hr0]].
  apply nth_forallb; [assumption|].
  rewrite forallb_forall in Hm. now apply Hm.
Qed.

Lemma forall4_rot90 (P : val -> bool) (k : Z) (t : tensor) :
  P zero = true ->
  forall4 P (t_data t) = true -> forall4 P (t_data (rot90 k t)) = true.
Proof.
  intros Hz Ht. unfold rot90.
  destruct (rot90_steps k) as [|p|p]; try assumption.
  destruct p as [[|p|]|[|p|]|]; try assumption.
  - now apply forall4_transpose23, forall4_flip2.
  - now apply forall4_flip2, forall4_flip3.
  - now apply forall4_transpose23, forall4_flip3.
Qed.

Lemma forall4_unaugment (P : val -> bool) (flip : bool) (k : Z) (t : tensor) :
  P zero = true ->
  forall4 P (t_data t) = true ->
  forall4 P (t_data (unaugment flip k t)) = true.
Proof.
  intros Hz Ht. unfold unaugment.
  destruct flip; [apply forall4_flip3|]; now apply forall4_rot90.
Qed.

Lemma unaugment_shape_ok (flip : bool) (k : Z) (t : tensor) :
  shape_ok t = true -> shape_ok (unaugment flip k t) = true.
Proof.
  intros Hok. unfold unaugment.
  destruct flip; [apply flip3_shape_ok|]; now apply rot90_shape_ok.
Qed.

Lemma rot90_shape (k : Z) (t : tensor) :
  t_shape (rot90 k t) = turned k (t_shape t).
Proof.
  unfold rot90, turned, t_shape.
  assert (Hb : (0 <= rot90_steps k < 4)%Z)
    by (unfold rot90_steps; apply Z.mod_pos_bound; lia).
  destruct (rot90_steps k) as [|p|p]; try reflexivity; [|lia].
  destruct p as [[|p|]|[|p|]|]; try reflexivity; lia.
Qed.

Lemma turned_opp (k : Z) (s : nat * nat * nat * nat) :
  turned (- k) (turned k s) = s.
Proof.
  destruct s as [[[b c] h] w]. unfold turned.
  destruct (rot90_steps_opp k) as [[-> ->] | [[-> ->] | [[-> ->] | [-> ->]]]];
    reflexivity.
Qed.

Lemma augment_shape (flip : bool) (k : Z) (t : tensor) :
  t_shape (augment flip k t) = turned k (t_shape t).
Proof.
  unfold augment, clone. rewrite rot90_shape. now destruct flip.
Qed.

Lemma unaugment_shape (flip : bool) (k : Z) (t : tensor) :
  t_shape (unaugment flip k t) = turned (- k) (t_shape t).
Proof.
  unfold unaugment. destruct flip; [|apply rot90_shape].
  rewrite <- rot90_shape. reflexivity.
Qed.

(** ** One pass of the ensemble *)

Lemma shape_eqb_eq (s s' : nat * nat * nat * nat) :
  shape_eqb s s' = true <-> s = s'.
Proof.
  destruct s as [[[a b] c] d], s' as [[[a' b'] c'] d']. unfold shape_eqb.
  rewrite !andb_true_iff, !Nat.eqb_eq. split.
  - intros [[[-> ->] ->] ->]. reflexivity.
  - intros [= -> -> -> ->]. auto.
Qed.

Lemma turned_channels (k : Z) (t : tensor) (b c h w : nat) :
  t_shape t = turned k (b, c, h, w) ->
  (dim0 t, 4, dim2 t, dim3 t) = turned k (b, 4, h, w).
Proof.
  unfold t_shape, turned. destruct (Z.odd (rot90_steps k));
    intros [= -> _ -> ->]; reflexivity.
Qed.

Lemma clip01_shape_ok (y : tensor) :
  shape_ok y = true -> shape_ok (clip01 y) = true.
Proof. unfold shape_ok, clip01; simpl. apply data_ok_map4. Qed.

Lemma clip01_in_unit (y : tensor) :
  exists4 is_nan (t_data y) = false ->
  forall4 in_unit (t_data (clip01 y)) = true.
Proof.
  intros H. unfold clip01; simpl.
  apply forall4_map4 with (Q := fun v => negb (is_nan v)).
  - intros v Hv. apply vclip01_in_unit. now destruct (is_nan v).
  - revert H. unfold exists4, forall4.
    apply existsb_false_forallb. intros x.
    apply existsb_false_forallb. intros m.
    apply existsb_false_forallb. intros r.
    apply existsb_false_forallb. intros v ->. reflexivity.
Qed.

Lemma augmented_pass_ok (self : TransparentVAEDecoder) (pixel latent : tensor)
      (flip : bool) (rok : Z) (log : list event) :
  network_ok self (augment flip rok pixel) (augment flip rok latent) = true ->
  exists log' eps,
    augmented_pass self pixel latent (flip, rok) log = (log', inr eps) /\
    pass_post pixel eps.
Proof.
  unfold network_ok, augmented_pass, estimate_single_pass, bind, emit, lift, ret.
  destruct (model self (augment flip rok pixel) (augment flip rok latent))
    as [e | y]; [discriminate|].
  rewrite !andb_true_iff, negb_true_iff, shape_eqb_eq.
  intros [[Hok Hshape] Hnan].
  eexists. exists (unaugment flip rok (clip01 y)). split; [reflexivity|].
  repeat split.
  - now apply unaugment_shape_ok, clip01_shape_ok.
  - rewrite unaugment_shape.
    change (t_shape (clip01 y)) with (t_shape y). rewrite Hshape.
    rewrite (turned_channels rok (augment flip rok pixel)
               (dim0 pixel) (dim1 pixel) (dim2 pixel) (dim3 pixel))
      by apply augment_shape.
    apply turned_opp.
  - apply forall4_unaugment; [reflexivity|]. now apply clip01_in_unit.
Qed.

Lemma sum_dim0_data_ok (b c h w : nat) (ds : list data4) :
  ds <> [] ->
  forallb (data_ok b c h w) ds = true ->
  data_ok b c h w (sum_dim0 ds) = true.
Proof.
  destruct ds as [|d rest]; [congruence|]. intros _. simpl.
  rewrite andb_true_iff. intros [Hd Hrest].
  revert d Hd Hrest. induction rest as [|d' rest IH]; intros d Hd Hrest; simpl.
  - assumption.
  - simpl in Hrest. rewrite andb_true_iff in Hrest. destruct Hrest as [Hd' Hrest].
    apply IH; [|assumption]. now apply data_ok_zip4.
Qed.

Lemma stack_of_passes (pixel : tensor) (result : list tensor) :
  result <> [] ->
  Forall (pass_post pixel) result ->
  exists dv ty,
    stack result =
    inr (mkStacked (length result) (dim0 pixel, 4, dim2 pixel, dim3 pixel)
           dv ty (map t_data result)).
Proof.
  destruct result as [|t rest]; [congruence|]. intros _ Hall.
  inversion Hall as [|t' rest' [_ [Ht _]] Hrest]; subst.
  exists (t_device t), (t_dtype t). unfold stack.
  replace (forallb (fun u => shape_eqb (t_shape u) (t_shape t)) rest)
    with true; [now rewrite Ht|].
  symmetry. apply forallb_forall. intros u Hu.
  rewrite Forall_forall in Hrest. destruct (Hrest u Hu) as [_ [Hu' _]].
  apply shape_eqb_eq. congruence.
Qed.

Lemma passes_data_ok (pixel : tensor) (result : list tensor) :
  Forall (pass_post pixel) result ->
  forallb (data_ok (dim0 pixel) 4 (dim2 pixel) (dim3 pixel))
          (map t_data result) = true /\
  forallb (forall4 in_unit) (map t_data result) = true.
Proof.
  induction 1 as [|t rest [Hok [Hshape Hunit]] _ [IH1 IH2]]; simpl; [auto|].
  rewrite !andb_true_iff. repeat split; try assumption.
  unfold shape_ok in Hok. unfold t_shape in Hshape.
  injection Hshape as <- <- <- <-. assumption.
Qed.

Lemma forallb_forall4_weaken (P Q : val -> bool) (ds : list data4) :
  (forall v, P v = true -> Q v = true) ->
  forallb (forall4 P) ds = true -> forallb (forall4 Q) ds = true.
Proof.
  intros H. rewrite !forallb_forall. intros Hd d Hin.
  apply forall4_weaken with (P := P); auto.
Qed.

Lemma finite_stack_clean (st : stacked) :
  forallb (forall4 is_finite) (s_data st) = true ->
  any_nan st || any_inf st = false.
Proof.
  unfold any_nan, any_inf. intros H. apply orb_false_iff. split.
  - revert H. apply forallb_existsb_false. apply finite_not_nan.
  - revert H. apply forallb_existsb_false. apply finite_not_inf.
Qed.

Lemma Forall2_right {A B : Type} (Q : B -> Prop) (l : list A) (bs : list B) :
  Forall2 (fun _ b => Q b) l bs -> length bs = length l /\ Forall Q bs.
Proof.
  induction 1 as [|a b l bs Hb _ [IHlen IHall]]; simpl; [auto|].
  split; [congruence | now constructor].
Qed.

Lemma ensemble_valid (self : TransparentVAEDecoder) (pixel latent : tensor)
      (log : list event) :
  (forall a, In a args ->
     network_ok self (augment (fst a) (snd a) pixel)
                     (augment (fst a) (snd a) latent) = true) ->
  exists log' result dv ty,
    length result = 8 /\
    Forall (pass_post pixel) result /\
    ensemble self pixel latent log =
    (log', inr (mkStacked 8 (dim0 pixel, 4, dim2 pixel, dim3 pixel) dv ty
                  (map t_data result))).
Proof.
  intros Hnet.
  destruct (for_each_app_inr (augmented_pass self pixel latent)
              (fun _ eps => pass_post pixel eps) args) with (log := log)
    as [log' [result [Hrun Hall]]].
  { intros [flip rok] Ha log0. apply augmented_pass_ok. exact (Hnet _ Ha). }
  apply Forall2_right in Hall. destruct Hall as [Hlen Hall].
  change (length args) with 8 in Hlen.
  destruct (stack_of_passes pixel result) as [dv [ty Hst]];
    [destruct result; [discriminate | congruence] | assumption |].
  exists log', result, dv, ty. repeat split; try assumption.
  unfold ensemble, bind, lift. rewrite Hrun, Hst, Hlen. reflexivity.
Qed.

Lemma estimate_augmented_valid (self : TransparentVAEDecoder)
      (pixel latent : tensor) (log : list event) :
  (forall a, In a args ->
     network_ok self (augment (fst a) (snd a) pixel)
                     (augment (fst a) (snd a) latent) = true) ->
  exists log' y,
    estimate_augmented self pixel latent log = (log', inr y) /\
    t_shape y = (dim0 pixel, 4, dim2 pixel, dim3 pixel) /\
    shape_ok y = true /\
    forall4 is_finite (t_data y) = true.
Proof.
  intros Hnet.
  destruct (ensemble_valid self pixel latent log Hnet)
    as [log' [result [dv [ty [Hlen [Hall He]]]]]].
  destruct (passes_data_ok pixel result Hall) as [Hshape Hunit].
  assert (Hne : map t_data result <> [])
    by (destruct result; [discriminate | simpl; congruence]).
  assert (Hfin : forallb (forall4 is_finite) (map t_data result) = true)
    by (revert Hunit; apply forallb_forall4_weaken, in_unit_finite).
  set (st := mkStacked 8 (dim0 pixel, 4, dim2 pixel, dim3 pixel) dv ty
               (map t_data result)) in *.
  exists log', (mean_dim0 st). repeat split.
  - rewrite (estimate_augmented_cases _ _ _ _ _ _ He).
    now rewrite (finite_stack_clean st Hfin).
  - unfold shape_ok, mean_dim0; simpl.
    apply data_ok_map4. now apply sum_dim0_data_ok.
  - apply mean_dim0_finite; simpl; [lia | assumption | assumption].
Qed.

(** C1: on a valid input pair, decode_pixel returns; the tensor it returns
    has 4 channels, every value in [0, 1], the batch and spatial sizes of
    the pixel input, data that fills that shape, and the device and dtype of
    the pixel input. *)
Theorem decode_pixel_postcondition (self : TransparentVAEDecoder)
        (pixel latent : tensor) (log : list event) :
  valid_pair self pixel latent = true ->
  exists log' y,
    decode_pixel self pixel latent log = (log', inr y) /\
    dim1 y = 4 /\
    forall4 in_unit (t_data y) = true /\
    dim0 y = dim0 pixel /\ dim2 y = dim2 pixel /\ dim3 y = dim3 pixel /\
    shape_ok y = true /\
    t_device y = t_device pixel /\ t_dtype y = t_dtype pixel.
Proof.
  unfold valid_pair. rewrite !andb_true_iff, Nat.eqb_eq, forallb_forall.
  intros [[Hok Hc] Hnet].
  destruct (estimate_augmented_valid self
              (to_tensor (load_device self) (self_dtype self) pixel)
              (to_tensor (load_device self) (self_dtype self) latent)
              ((log ++ [EvTo (load_device self) (self_dtype self)])
                 ++ [EvTo (load_device self) (self_dtype self)]) Hnet)
    as [log1 [y0 [Hrun [Hshape [Hy0 Hfin]]]]].
  simpl in Hshape. unfold t_shape in Hshape. injection Hshape as Hb H4 Hh Hw.
  exists (log1 ++ [EvTo (t_device pixel) (t_dtype pixel)]),
         (to_tensor (t_device pixel) (t_dtype pixel) (clip01 y0)).
  split.
  - rewrite decode_pixel_unfold by assumption. rewrite Hrun.
    simpl. now rewrite H4.
  - simpl. repeat split; try assumption.
    + apply (clip01_in_unit y0). now apply finite_not_nan.
    + now apply (clip01_shape_ok y0).
Qed.

Lemma decode_pixel_postcondition_witness :
  exists log' y,
    decode_pixel (flat_decoder (Num half))
      (const_tensor 1 3 2 3 Cpu Float32 (Num half))
      (const_tensor 1 4 1 1 Cpu Float32 zero) [] = (log', inr y) /\
    dim1 y = 4 /\
    forall4 in_unit (t_data y) = true /\
    dim0 y = 1 /\ dim2 y = 2 /\ dim3 y = 3 /\
    shape_ok y = true /\
    t_device y = Cpu /\ t_dtype y = Float32.
Proof.
  apply (decode_pixel_postcondition (flat_decoder (Num half))
           (const_tensor 1 3 2 3 Cpu Float32 (Num half))
           (const_tensor 1 4 1 1 Cpu Float32 zero) []).
  vm_compute. reflexivity.
Defined.

(** ** Elements of the mean *)

Lemma data_ok_bounds (b c h w : nat) (d : data4) (ib ic ih iw : nat) :
  data_ok b c h w d = true ->
  ib < b -> ic < c -> ih < h -> iw < w ->
  ib < length d /\
  ic < length (nth ib d []) /\
  ih < length (nth ic (nth ib d []) []) /\
  iw < length (nth ih (nth ic (nth ib d []) []) []).
Proof.
  rewrite data_ok_iff. intros [Hb H] Hib Hic Hih Hiw.
  assert (H0 : ib < length d) by lia.
  destruct (H (nth ib d []) (nth_In d [] H0)) as [Hc Hx].
  assert (H1 : ic < length (nth ib d [])) by lia.
  destruct (Hx (nth ic (nth ib d []) []) (nth_In _ [] H1)) as [Hh Hm].
  assert (H2 : ih < length (nth ic (nth ib d []) [])) by lia.
  pose proof (Hm (nth ih (nth ic (nth ib d []) []) []) (nth_In _ [] H2)) as Hw.
  repeat split; try assumption. lia.
Qed.

Lemma at4_zip4 (b c h w : nat) (f : val -> val -> val) (d d' : data4)
      (ib ic ih iw : nat) :
  data_ok b c h w d = true -> data_ok b c h w d' = true ->
  ib < b -> ic < c -> ih < h -> iw < w ->
  at4 (zip4 f d d') ib ic ih iw = f (at4 d ib ic ih iw) (at4 d' ib ic ih iw).
Proof.
  intros Hd Hd' Hib Hic Hih Hiw.
  destruct (data_ok_bounds b c h w d ib ic ih iw Hd Hib Hic Hih Hiw)
    as [B0 [B1 [B2 B3]]].
  destruct (data_ok_bounds b c h w d' ib ic ih iw Hd' Hib Hic Hih Hiw)
    as [B0' [B1' [B2' B3']]].
  unfold at4, zip4, data4, plane in *.
  rewrite (zip_with_nth _ _ _ (zip_with (zip_with (zip_with f))) d d'
             ib [] [] []) by assumption.
  rewrite (zip_with_nth _ _ _ (zip_with (zip_with f)) _ _ ic [] [] [])
    by assumption.
  rewrite (zip_with_nth _ _ _ (zip_with f) _ _ ih [] [] []) by assumption.
  now rewrite (zip_with_nth _ _ _ f _ _ iw zero zero zero) by assumption.
Qed.

Lemma nth_map_in {A B : Type} (f : A -> B) (l : list A) (i : nat)
      (da : A) (db : B) :
  i < length l -> nth i (map f l) db = f (nth i l da).
Proof.
  intros Hi. rewrite (nth_indep (map f l) db (f da))
    by now rewrite length_map.
  apply map_nth.
Qed.

Lemma at4_map4 (b c h w : nat) (f : val -> val) (d : data4)
      (ib ic ih iw : nat) :
  data_ok b c h w d = true ->
  ib < b -> ic < c -> ih < h -> iw < w ->
  at4 (map4 f d) ib ic ih iw = f (at4 d ib ic ih iw).
Proof.
  intros Hd Hib Hic Hih Hiw.
  destruct (data_ok_bounds b c h w d ib ic ih iw Hd Hib Hic Hih Hiw)
    as [B0 [B1 [B2 B3]]].
  unfold at4, map4, data4, plane in *.
  rewrite (nth_map_in (map (map (map f))) d ib [] []) by assumption.
  rewrite (nth_map_in (map (map f)) _ ic [] []) by assumption.
  rewrite (nth_map_in (map f) _ ih [] []) by assumption.
  now rewrite (nth_map_in f _ iw zero zero) by assumption.
Qed.

Lemma fold_zip4_data_ok (b c h w : nat) (rest : list data4) (d : data4) :
  data_ok b c h w d = true ->
  forallb (data_ok b c h w) rest = true ->
  data_ok b c h w (fold_left (zip4 vadd) rest d) = true.
Proof.
  intros Hd Hrest.
  apply (sum_dim0_data_ok b c h w (d :: rest)); [discriminate|].
  simpl. now rewrite Hd.
Qed.

Lemma at4_sum_dim0 (b c h w : nat) (rest : list data4) (d : data4)
      (ib ic ih iw : nat) :
  data_ok b c h w d = true ->
  forallb (data_ok b c h w) rest = true ->
  ib < b -> ic < c -> ih < h -> iw < w ->
  at4 (sum_dim0 (d :: rest)) ib ic ih iw =
  fold_left vadd (map (fun x => at4 x ib ic ih iw) rest) (at4 d ib ic ih iw).
Proof.
  intros Hd Hrest Hib Hic Hih Hiw. simpl.
  revert d Hd Hrest. induction rest as [|d' rest IH]; intros d Hd Hrest; simpl.
  - reflexivity.
  - simpl in Hrest. rewrite andb_true_iff in Hrest. destruct Hrest as [Hd' Hrest].
    rewrite IH by (try assumption; now apply data_ok_zip4).
    now rewrite (at4_zip4 b c h w) by assumption.
Qed.

Lemma get_mean_dim0 (ts : list tensor) (st : stacked) (ib ic ih iw : nat) :
  stack ts = inr st ->
  Forall (fun t => shape_ok t = true) ts ->
  ib < fst (fst (fst (s_shape st))) -> ic < snd (fst (fst (s_shape st))) ->
  ih < snd (fst (s_shape st)) -> iw < snd (s_shape st) ->
  get (mean_dim0 st) ib ic ih iw =
  mean_of (map (fun t => get t ib ic ih iw) ts).
Proof.
  intros Hst Hok.
  destruct (stack_inr _ _ Hst) as [t [rest [-> [Hsame ->]]]].
  unfold t_shape; simpl. intros Hib Hic Hih Hiw.
  inversion Hok as [|t' rest' Ht Hrest]; subst.
  assert (Hall : forallb (data_ok (dim0 t) (dim1 t) (dim2 t) (dim3 t))
                         (map t_data rest) = true).
  { apply forallb_forall. intros d Hd. apply in_map_iff in Hd.
    destruct Hd as [u [<- Hu]].
    rewrite forallb_forall in Hsame. specialize (Hsame u Hu).
    apply shape_eqb_eq in Hsame. unfold t_shape in Hsame.
    injection Hsame as <- <- <- <-.
    rewrite Forall_forall in Hrest. exact (Hrest u Hu). }
  unfold get, mean_dim0. cbn [s_shape s_count s_data s_device s_dtype].
  unfold t_shape. cbn [t_data].
  change (map t_data (t :: rest)) with (t_data t :: map t_data rest).
  rewrite (at4_map4 (dim0 t) (dim1 t) (dim2 t) (dim3 t)); try assumption.
  - rewrite (at4_sum_dim0 (dim0 t) (dim1 t) (dim2 t) (dim3 t))
      by assumption.
    unfold mean_of. cbn [map length]. now rewrite map_map, length_map.
  - unfold sum_dim0. now apply fold_zip4_data_ok.
Qed.

(** ** The ensemble as a list of eight passes *)

Lemma augmented_pass_run (self : TransparentVAEDecoder) (pixel latent : tensor)
      (a : bool * Z) (y : tensor) (log : list event) :
  model self (augment (fst a) (snd a) pixel) (augment (fst a) (snd a) latent)
    = inr y ->
  augmented_pass self pixel latent a log =
  (log ++ [forward_event pixel latent a],
   inr (unaugment (fst a) (snd a) (clip01 y))).
Proof.
  destruct a as [flip rok]. simpl. intros Hy.
  unfold augmented_pass, estimate_single_pass, bind, emit, lift, ret.
  now rewrite Hy.
Qed.

Lemma for_each_Forall2 {A B : Type} (f : A -> M B) (ev : A -> event)
      (l : list A) (bs : list B) :
  Forall2 (fun a b => forall log, f a log = (log ++ [ev a], inr b)) l bs ->
  forall log, for_each f l log = (log ++ map ev l, inr bs).
Proof.
  induction 1 as [|a b l bs Hb _ IH]; intros log; simpl.
  - now rewrite app_nil_r.
  - unfold bind. rewrite Hb, IH. unfold ret.
    now rewrite <- app_assoc.
Qed.

Lemma Forall2_zip_with {A B C : Type} (R : A -> B -> Prop) (S : A -> C -> Prop)
      (g : A -> B -> C) (l : list A) (bs : list B) :
  (forall a b, R a b -> S a (g a b)) ->
  Forall2 R l bs -> Forall2 S l (zip_with g l bs).
Proof.
  intros H. induction 1; simpl; constructor; auto.
Qed.

Lemma Forall_zip_with {A B C : Type} (P : B -> Prop) (Q : C -> Prop)
      (g : A -> B -> C) (l : list A) (bs : list B) :
  (forall a b, P b -> Q (g a b)) ->
  Forall P bs -> Forall Q (zip_with g l bs).
Proof.
  intros H Hbs. revert l. induction Hbs as [|b bs Hb _ IH]; intros [|a l];
    simpl; constructor; auto.
Qed.

Lemma clip01_clipped (y : tensor) :
  forall4 clipped (t_data (clip01 y)) = true.
Proof.
  unfold clip01; simpl.
  apply forall4_map4 with (Q := fun _ => true).
  - intros v _. unfold clipped. destruct (is_nan v) eqn:Hv.
    + destruct v; try discriminate. reflexivity.
    + now rewrite vclip01_in_unit.
  - unfold forall4. rewrite forallb_forall. intros x _.
    rewrite forallb_forall. intros m _. rewrite forallb_forall. intros r _.
    now rewrite forallb_forall.
Qed.

(** The elements of a clean stack are rationals, and the mean of eight
    rationals is the rational [m] with [8 * m] equal to their sum. *)

Lemma nth_forallb_default {A : Type} (P : A -> bool) (l : list A) (j : nat)
      (d : A) :
  P d = true -> forallb P l = true -> P (nth j l d) = true.
Proof.
  intros Hd Hl. destruct (nth_in_or_default j l d) as [Hin | ->].
  - rewrite forallb_forall in Hl. now apply Hl.
  - assumption.
Qed.

Lemma at4_forall4 (P : val -> bool) (d : data4) (b c h w : nat) :
  P zero = true -> forall4 P d = true -> P (at4 d b c h w) = true.
Proof.
  intros Hz Hd. unfold at4, forall4 in *.
  apply nth_forallb_default; [assumption|].
  apply (nth_forallb_default (forallb P)); [reflexivity|].
  apply (nth_forallb_default (forallb (forallb P))); [reflexivity|].
  now apply (nth_forallb_default (forallb (forallb (forallb P)))).
Qed.

Lemma finite_values (vs : list val) :
  Forall (fun v => is_finite v = true) vs -> exists xs, vs = map Num xs.
Proof.
  induction 1 as [|v vs Hv _ [xs ->]].
  - now exists [].
  - destruct v as [x| | |]; try discriminate. now exists (x :: xs).
Qed.

Lemma fold_left_vadd_num (xs : list Qc) (x : Qc) :
  fold_left vadd (map Num xs) (Num x) = Num (fold_left Qcplus xs x).
Proof.
  revert x. induction xs as [|a xs IH]; intros x; simpl; [reflexivity|].
  apply IH.
Qed.

Lemma fold_left_qc_sum (xs : list Qc) (x : Qc) :
  fold_left Qcplus xs x = (x + qc_sum xs)%Qc.
Proof.
  revert x. induction xs as [|a xs IH]; intros x; simpl.
  - ring.
  - rewrite IH. ring.
Qed.

Lemma eight_times_eighth (s : Qc) :
  (Q2Qc 8 * (s / Q2Qc (inject_Z (Z.of_nat 8))) = s)%Qc.
Proof.
  change (Q2Qc (inject_Z (Z.of_nat 8))) with (Q2Qc 8).
  field. intros H. discriminate H.
Qed.

Lemma mean_of_rationals (xs : list Qc) :
  length xs = 8 ->
  exists m, mean_of (map Num xs) = Num m /\ (Q2Qc 8 * m = qc_sum xs)%Qc.
Proof.
  intros Hlen. destruct xs as [|x rest]; [discriminate|].
  unfold mean_of. cbn [map]. rewrite fold_left_vadd_num.
  change (length (Num x :: map Num rest)) with (S (length (map Num rest))).
  rewrite length_map. simpl in Hlen. injection Hlen as Hlen. rewrite Hlen.
  exists (fold_left Qcplus rest x / Q2Qc (inject_Z (Z.of_nat 8)))%Qc.
  split; [reflexivity|].
  rewrite eight_times_eighth, fold_left_qc_sum. reflexivity.
Qed.

Lemma stacked_values_finite (ts : list tensor) (st : stacked)
      (b c h w : nat) :
  stack ts = inr st ->
  any_nan st || any_inf st = false ->
  Forall (fun v => is_finite v = true) (map (fun t => get t b c h w) ts).
Proof.
  intros Hst Hclean. apply stacked_finite in Hclean.
  destruct (stack_inr _ _ Hst) as [t [rest [_ [_ ->]]]]. simpl in Hclean.
  rewrite forallb_forall in Hclean.
  apply Forall_forall. intros v Hv. apply in_map_iff in Hv.
  destruct Hv as [e [<- He]]. unfold get.
  apply at4_forall4; [reflexivity|].
  apply Hclean. now apply in_map.
Qed.

(** C5: the ensemble runs the eight descriptors (False, 0..3) and then
    (True, 0..3) in this order, one forward pass each; every network output
    is clipped to [0, 1] and transformed back; the eight results are stacked
    along a new leading axis; and the value returned is, element by element,
    the arithmetic mean of the eight results: at every position the eight
    results hold rationals [xs], the value returned holds a rational [m],
    and [8 * m] is the sum of [xs]. *)
Theorem ensemble_mean (self : TransparentVAEDecoder) (pixel latent : tensor)
        (log : list event) (ys : list tensor) (st : stacked) :
  Forall2
    (fun a y =>
       model self (augment (fst a) (snd a) pixel)
                  (augment (fst a) (snd a) latent) = inr y) args ys ->
  Forall (fun y => shape_ok y = true) ys ->
  let eps :=
    zip_with (fun a y => unaugment (fst a) (snd a) (clip01 y)) args ys in
  stack eps = inr st ->
  args = [ (false, 0%Z); (false, 1%Z); (false, 2%Z); (false, 3%Z);
           (true, 0%Z); (true, 1%Z); (true, 2%Z); (true, 3%Z) ] /\
  ensemble self pixel latent log =
    (log ++ map (forward_event pixel latent) args, inr st) /\
  s_count st = 8 /\
  s_data st = map t_data eps /\
  forallb (forall4 clipped) (s_data st) = true /\
  (any_nan st || any_inf st = false ->
   estimate_augmented self pixel latent log =
     (log ++ map (forward_event pixel latent) args, inr (mean_dim0 st)) /\
   forall b c h w,
     b < fst (fst (fst (s_shape st))) -> c < snd (fst (fst (s_shape st))) ->
     h < snd (fst (s_shape st)) -> w < snd (s_shape st) ->
     exists (xs : list Qc) (m : Qc),
       map (fun e => get e b c h w) eps = map Num xs /\
       length xs = 8 /\
       get (mean_dim0 st) b c h w = Num m /\
       (Q2Qc 8 * m = qc_sum xs)%Qc).
Proof.
  intros Hys Hok eps Hst.
  assert (Hrun : for_each (augmented_pass self pixel latent) args log =
                 (log ++ map (forward_event pixel latent) args, inr eps)).
  { apply for_each_Forall2. unfold eps.
    apply Forall2_zip_with with (2 := Hys).
    intros a y Hy log0. now apply augmented_pass_run. }
  assert (Hens : ensemble self pixel latent log =
                 (log ++ map (forward_event pixel latent) args, inr st)).
  { unfold ensemble, bind, lift. now rewrite Hrun, Hst. }
  assert (Hlen : length eps = 8).
  { unfold eps. rewrite zip_with_length.
    rewrite <- (Forall2_length Hys). reflexivity. }
  destruct (stack_inr _ _ Hst) as [t [rest [Heps [_ Hst']]]].
  split; [reflexivity|]. split; [assumption|].
  split; [now rewrite Hst'|].
  split; [now rewrite Hst'|].
  split.
  - rewrite Hst'; simpl s_data.
    apply forallb_forall. intros d Hd. apply in_map_iff in Hd.
    destruct Hd as [e [<- He]].
    assert (Hall : Forall (fun e => forall4 clipped (t_data e) = true) eps).
    { unfold eps. apply Forall_zip_with with (P := fun _ => True).
      - intros a y _. apply forall4_unaugment; [reflexivity|].
        apply clip01_clipped.
      - clear. induction ys; constructor; auto. }
    rewrite Forall_forall in Hall. now apply Hall.
  - intros Hclean. split.
    + rewrite (estimate_augmented_cases _ _ _ _ _ _ Hens). now rewrite Hclean.
    + intros b c h w Hb Hc Hh Hw.
      destruct (finite_values _ (stacked_values_finite eps st b c h w
                                   Hst Hclean)) as [xs Hxs].
      assert (Hxlen : length xs = 8).
      { rewrite <- (length_map Num xs), <- Hxs, length_map. exact Hlen. }
      destruct (mean_of_rationals xs Hxlen) as [m [Hm Hsum]].
      exists xs, m. split; [assumption|]. split; [assumption|].
      split; [|assumption].
      rewrite <- Hm, <- Hxs.
      apply get_mean_dim0; try assumption.
      unfold eps. apply Forall_zip_with with (2 := Hok).
      intros a y Hy. now apply unaugment_shape_ok, clip01_shape_ok.
Qed.

Lemma ensemble_mean_witness :
  exists st,
    ensemble (flat_decoder (Num half)) toy_pixel toy_latent [] =
      (map (forward_event toy_pixel toy_latent) args, inr st) /\
    s_count st = 8 /\
    get (mean_dim0 st) 0 0 0 0 = Num half.
Proof.
  destruct (stack (zip_with (fun a y => unaugment (fst a) (snd a) (clip01 y))
                     args toy_outputs)) as [e | st] eqn:Hst.
  - vm_compute in Hst. discriminate Hst.
  - exists st.
    assert (Hys : Forall2
                    (fun a y =>
                       model (flat_decoder (Num half))
                         (augment (fst a) (snd a) toy_pixel)
                         (augment (fst a) (snd a) toy_latent) = inr y)
                    args toy_outputs)
      by (repeat constructor).
    assert (Hok : Forall (fun y => shape_ok y = true) toy_outputs)
      by (repeat constructor).
    destruct (ensemble_mean (flat_decoder (Num half)) toy_pixel toy_latent []
                toy_outputs st Hys Hok Hst) as [_ [Hens [Hcount [_ [_ Hmean]]]]].
    split; [assumption|]. split; [assumption|].
    assert (Hclean : any_nan st || any_inf st = false).
    { vm_compute in Hst. injection Hst as <-. reflexivity. }
    assert (Hshape : s_shape st = (1, 4, 2, 3)).
    { vm_compute in Hst. injection Hst as <-. reflexivity. }
    destruct (Hmean Hclean) as [_ Hget].
    destruct (Hget 0 0 0 0) as [xs [m [Hxs [_ [Hm Hsum]]]]];
      try (rewrite Hshape; simpl; lia).
    rewrite Hm. f_equal.
    vm_compute in Hxs.
    do 8 (destruct xs as [|? xs]; [discriminate Hxs|]).
    destruct xs; [|discriminate Hxs].
    injection Hxs as <- <- <- <- <- <- <- <-.
    assert (Heq : m = (Q2Qc 8 * m / Q2Qc 8)%Qc).
    { field. intros H. discriminate H. }
    rewrite Heq, Hsum. apply Qc_is_canon. reflexivity.
Defined.

(** ** UNet1024 *)

(** C6 (as amended): the latent is projected by a zero-initialised 1x1
    convolution to 64 channels, the width of the third encoder stage (index
    2), and the projection is added to the running feature map once the
    third stage has produced its output and before the fourth stage
    (index 3) runs: the injection comes after down-stage index 2. *)
Theorem latent_injection_point :
  exists u,
    UNet1024_init (default_config 3 4) = Some u /\
    latent_conv_in u = mkConv2d 4 64 1 0 1 true /\
    option_map db_out_channels (nth_error (down_blocks u) 2)
      = Some (conv_out_channels (latent_conv_in u)) /\
    option_map db_in_channels (nth_error (down_blocks u) 3)
      = Some (conv_out_channels (latent_conv_in u)) /\
    forall (F : Type) (L : Layers F) (x latent : F),
      forward F L u x latent = forward_inject_after F L 2 u x latent.
Proof.
  eexists. split; [reflexivity|].
  split; [reflexivity|]. split; [reflexivity|]. split; [reflexivity|].
  intros F L x latent. reflexivity.
Qed.

(** C6 (as stated) fails: injecting after down-stage index 3 gives another
    network. *)
Lemma latent_injection_not_after_index_3 :
  exists u,
    UNet1024_init (default_config 3 4) = Some u /\
    forward Z counting_layers u 0%Z 1%Z
      <> forward_inject_after Z counting_layers 3 u 0%Z 1%Z.
Proof.
  eexists. split; [reflexivity|]. vm_compute. discriminate.
Qed.

(** C9: in a forward pass of the network as constructed, whatever the
    layers compute, the encoder leaves 21 tensors on the skip stack; each of
    the 7 decoder stages is handed exactly as many tensors as it has
    residual layers, layers_per_block + 1 = 3, cut from the end of the stack;
    the residual layers take the tensors in the reverse of the order of
    production; no stage finds the stack short, and nothing is left over. *)
Theorem skip_stack_balanced :
  exists u,
    UNet1024_init (default_config 3 4) = Some u /\
    map ub_num_layers (up_blocks u)
      = repeat (layers_per_block (default_config 3 4) + 1) 7 /\
    layers_per_block (default_config 3 4) + 1 = 3 /\
    forall (F : Type) (L : Layers F) (x latent : F),
    exists tr,
      forward_traced F L u x latent = Some tr /\
      length (produced tr) = 21 /\
      map (@length F) (handed tr) = map ub_num_layers (up_blocks u) /\
      concat (rev (handed tr)) = produced tr /\
      taken_in_order tr = rev (produced tr) /\
      length (taken_in_order tr) = length (produced tr) /\
      leftover tr = [].
Proof.
  eexists. split; [reflexivity|].
  split; [reflexivity|]. split; [reflexivity|].
  intros F L x latent. eexists. split.
  - cbv -[conv_in_fn latent_conv_in_fn add_fn down_resnet down_sampler mid_fn
          up_resnet up_sampler out_fn].
    reflexivity.
  - repeat split; reflexivity.
Qed.

(** ** LatentTransparencyOffsetEncoder *)

Lemma conv3_shape (c : Conv2d) (b ch h w : nat) :
  ch = conv_in_channels c -> kernel_size c = 3 -> padding c = 1 ->
  conv2d_shape c (b, ch, S h, S w) =
  inr (b, conv_out_channels c, S (h / stride c), S (w / stride c)).
Proof.
  intros -> Hk Hp. unfold conv2d_shape. rewrite Nat.eqb_refl, Hk, Hp. simpl negb.
  replace (S h + 2 * 1 <? 3) with false by (symmetry; apply Nat.ltb_ge; lia).
  replace (S w + 2 * 1 <? 3) with false by (symmetry; apply Nat.ltb_ge; lia).
  cbn [orb].
  replace (S h + 2 * 1 - 3) with h by lia.
  replace (S w + 2 * 1 - 3) with w by lia.
  now rewrite !Nat.add_1_r.
Qed.

Lemma offset_encoder_shape (b h w : nat) :
  offset_encoder_call (b, 4, S h, S w) = inr (b, 4, h / 8 + 1, w / 8 + 1).
Proof.
  unfold offset_encoder_call, offset_encoder_blocks.
  cbn [sequential_shape layer_shape].
  repeat (rewrite conv3_shape by reflexivity;
          cbn [stride conv_out_channels zero_module];
          rewrite ?Nat.div_1_r).
  rewrite !Nat.Div0.div_div, !Nat.add_1_r. reflexivity.
Qed.

(** C8 (as amended): the offset encoder is a fixed stack of 17 modules, 9
    convolutions with a SiLU between each two; the channel widths are
    4, 32, 32, 64, 64, 128, 128, 256, 256, 4; the strides are
    1, 1, 2, 1, 2, 1, 2, 1, 1; only the last convolution is zero-initialised;
    and a call keeps the batch size, gives 4 channels and divides each
    spatial size by 8, rounding up. *)
Theorem offset_encoder_structure :
  length offset_encoder_blocks = 17 /\
  length (convs_of offset_encoder_blocks) = 9 /\
  (forall i, i < 17 ->
     nth i offset_encoder_blocks SiLU = SiLU <-> Nat.odd i = true) /\
  map (fun c => (conv_in_channels c, conv_out_channels c))
      (convs_of offset_encoder_blocks)
    = [(4, 32); (32, 32); (32, 64); (64, 64); (64, 128); (128, 128);
       (128, 256); (256, 256); (256, 4)] /\
  map stride (convs_of offset_encoder_blocks) = [1; 1; 2; 1; 2; 1; 2; 1; 1] /\
  map zero_init (convs_of offset_encoder_blocks)
    = [false; false; false; false; false; false; false; false; true] /\
  forall b h w,
    offset_encoder_call (b, 4, S h, S w) = inr (b, 4, h / 8 + 1, w / 8 + 1) /\
    h / 8 + 1 = (S h + 7) / 8 /\ w / 8 + 1 = (S w + 7) / 8.
Proof.
  repeat split; try reflexivity.
  - do 17 (destruct i as [|i]; [simpl; try reflexivity; discriminate|]).
    lia.
  - do 17 (destruct i as [|i];
           [simpl; intros; try reflexivity; discriminate|]).
    lia.
  - apply offset_encoder_shape.
  - replace (S h + 7) with (h + 1 * 8) by lia.
    now rewrite Nat.div_add by lia.
  - replace (S w + 7) with (w + 1 * 8) by lia.
    now rewrite Nat.div_add by lia.
Qed.

(** C8 (as stated) fails: the stack has 17 members, not 13, and a 64 x 64
    input leaves the encoder as 8 x 8. *)
Lemma offset_encoder_not_shape_preserving :
  length offset_encoder_blocks <> 13 /\
  offset_encoder_call (1, 4, 64, 64) = inr (1, 4, 8, 8) /\
  ~ (forall b h w s,
       offset_encoder_call (b, 4, h, w) = inr s -> s = (b, 4, h, w)).
Proof.
  split; [simpl; lia|]. split; [reflexivity|].
  intros H. specialize (H 1 64 64 (1, 4, 8, 8) eq_refl). discriminate H.
Qed.

(** ** The checkerboard compositor *)

Lemma nth_tabulate {A : Type} (f : nat -> A) (n i : nat) (d : A) :
  i < n -> nth i (map f (seq 0 n)) d = f i.
Proof.
  intros Hi. rewrite (nth_map_in f (seq 0 n) i 0 d) by now rewrite length_seq.
  now rewrite seq_nth.
Qed.

Lemma nearest_lt (src dst i : nat) : 0 < src -> nearest src dst i < src.
Proof. unfold nearest. lia. Qed.

Lemma checkerboard_cell (n m r q : nat) :
  r < n -> q < m ->
  nth q (nth r (a_cells (checkerboard (n, m))) []) 0%Z
  = Z.of_nat ((r + q) mod 2).
Proof.
  intros Hr Hq. simpl.
  rewrite (nth_tabulate _ n r []) by assumption.
  now rewrite (nth_tabulate _ m q 0%Z) by assumption.
Qed.

Lemma band_values (v : nat) :
  band (Z.of_nat (v mod 2)) = Q2Qc (9 # 20) \/
  band (Z.of_nat (v mod 2)) = Q2Qc (11 # 20).
Proof.
  assert (H : v mod 2 = 0 \/ v mod 2 = 1)
    by (pose proof (Nat.mod_upper_bound v 2); lia).
  destruct H as [-> | ->]; [left | right];
    apply Qc_is_canon; reflexivity.
Qed.

Lemma resize_checkerboard (H W : nat) :
  64 <= H -> 64 <= W ->
  cv2_resize_nearest (checkerboard (H / 64, W / 64)) (W, H) =
  inr (mkArray2 H W
         (map (fun y =>
                 map (fun x =>
                        nth (nearest (W / 64) W x)
                            (nth (nearest (H / 64) H y)
                                 (a_cells (checkerboard (H / 64, W / 64))) [])
                            0%Z)
                     (seq 0 W))
              (seq 0 H))).
Proof.
  intros HH HW.
  assert (Hr : 0 < H / 64) by (apply Nat.div_str_pos; lia).
  assert (Hc : 0 < W / 64) by (apply Nat.div_str_pos; lia).
  unfold cv2_resize_nearest. cbn [checkerboard a_rows a_cols].
  replace (H / 64 =? 0) with false by (symmetry; apply Nat.eqb_neq; lia).
  replace (W / 64 =? 0) with false by (symmetry; apply Nat.eqb_neq; lia).
  replace (W =? 0) with false by (symmetry; apply Nat.eqb_neq; lia).
  replace (H =? 0) with false by (symmetry; apply Nat.eqb_neq; lia).
  reflexivity.
Qed.

Lemma resized_cell (H W i j : nat) :
  64 <= H -> 64 <= W -> i < H -> j < W ->
  nth j
    (nth i
       (map (map band)
          (map (fun y =>
                  map (fun x =>
                         nth (nearest (W / 64) W x)
                             (nth (nearest (H / 64) H y)
                                  (a_cells (checkerboard (H / 64, W / 64))) [])
                             0%Z)
                      (seq 0 W))
               (seq 0 H)))
       [])
    0%Qc
  = cb_value H W i j.
Proof.
  intros HH HW Hi Hj.
  assert (Hr : 0 < H / 64) by (apply Nat.div_str_pos; lia).
  assert (Hc : 0 < W / 64) by (apply Nat.div_str_pos; lia).
  rewrite map_map.
  rewrite (nth_tabulate _ H i []) by assumption.
  rewrite map_map.
  rewrite (nth_tabulate _ W j 0%Qc) by assumption.
  unfold cb_value. f_equal.
  apply checkerboard_cell; now apply nearest_lt.
Qed.

Lemma blend_opaque (c : Qc) (f : val) : blend (Num c) f (Num 1%Qc) = f.
Proof.
  unfold blend. destruct f as [x| | |]; try reflexivity.
  simpl. f_equal. ring.
Qed.

Lemma blend_transparent (c : Qc) (f : val) :
  is_finite f = true -> blend (Num c) f (Num 0%Qc) = Num c.
Proof.
  unfold blend. destruct f as [x| | |]; try discriminate. intros _.
  simpl. f_equal. ring.
Qed.

Lemma nth_skipn_1 (px : list val) (c : nat) :
  nth c (skipn 1 px) zero = nth (S c) px zero.
Proof. destruct px; [now destruct c | reflexivity]. Qed.

Lemma firstn_1_nth (px : list val) :
  0 < length px -> firstn 1 px = [nth 0 px zero].
Proof. destruct px; simpl; [lia | reflexivity]. Qed.

Lemma blend_pixel_nth (cb : Qc) (px : list val) (c : nat) :
  S c < length px ->
  nth c (blend_pixel cb (skipn 1 px) (firstn 1 px)) zero
  = blend (Num cb) (nth (S c) px zero) (nth 0 px zero).
Proof.
  intros Hc. rewrite firstn_1_nth by lia. unfold blend_pixel.
  rewrite (nth_map_in _ (skipn 1 px) c zero zero)
    by (rewrite length_skipn; lia).
  now rewrite nth_skipn_1.
Qed.

Lemma blend_row_nth (cb_row : list Qc) (row : list (list val)) (j : nat) :
  j < length cb_row -> j < length row ->
  nth j (blend_row cb_row (map (skipn 1) row) (map (firstn 1) row)) []
  = blend_pixel (nth j cb_row 0%Qc)
      (skipn 1 (nth j row [])) (firstn 1 (nth j row [])).
Proof.
  intros Hc Hr. unfold blend_row.
  rewrite (zip_with_nth _ _ _ _ cb_row _ j 0%Qc ([], []) [])
    by (try assumption; rewrite length_combine, !length_map; lia).
  rewrite combine_nth by now rewrite !length_map.
  cbn [fst snd].
  rewrite (nth_map_in (skipn 1) row j [] []) by assumption.
  now rewrite (nth_map_in (firstn 1) row j [] []) by assumption.
Qed.

Lemma blend_image_nth (cb : list (list Qc)) (img : list (list (list val)))
      (i : nat) :
  i < length cb -> i < length img ->
  nth i (blend_image cb (map (map (skipn 1)) img) (map (map (firstn 1)) img)) []
  = blend_row (nth i cb [])
      (map (skipn 1) (nth i img [])) (map (firstn 1) (nth i img [])).
Proof.
  intros Hc Hr. unfold blend_image.
  rewrite (zip_with_nth _ _ _ _ cb _ i [] ([], []) [])
    by (try assumption; rewrite length_combine, !length_map; lia).
  rewrite combine_nth by now rewrite !length_map.
  cbn [fst snd].
  rewrite (nth_map_in (map (skipn 1)) img i [] []) by assumption.
  now rewrite (nth_map_in (map (firstn 1)) img i [] []) by assumption.
Qed.

Lemma composite_at (cb : list (list Qc)) (bn h w ch : nat) (d : data4)
      (b i j c : nat) :
  data_ok bn h w ch d = true ->
  length cb = h -> (forall r, In r cb -> length r = w) ->
  b < bn -> i < h -> j < w -> S c < ch ->
  at4 (zip_with (blend_image cb)
         (map (map (map (skipn 1))) d) (map (map (map (firstn 1))) d))
      b i j c
  = blend (Num (nth j (nth i cb []) 0%Qc))
      (at4 d b i j (S c)) (at4 d b i j 0).
Proof.
  intros Hd Hcb Hcbw Hb Hi Hj Hc.
  destruct (data_ok_bounds bn h w ch d b i j (S c) Hd Hb Hi Hj Hc)
    as [B0 [B1 [B2 B3]]].
  unfold at4, data4, plane in *.
  rewrite (zip_with_nth _ _ _ (blend_image cb) _ _ b [] [] [])
    by now rewrite length_map.
  rewrite (nth_map_in (map (map (skipn 1))) d b [] []) by assumption.
  rewrite (nth_map_in (map (map (firstn 1))) d b [] []) by assumption.
  rewrite blend_image_nth by (try assumption; lia).
  rewrite blend_row_nth; try assumption.
  - now apply blend_pixel_nth.
  - rewrite (Hcbw (nth i cb [])); [assumption|]. apply nth_In. lia.
Qed.

Lemma get_fill_checkerboard_bg (y : tensor) :
  shape_ok y = true -> 64 <= dim1 y -> 64 <= dim2 y ->
  exists vis,
    fill_checkerboard_bg y = inr vis /\
    t_shape vis = (dim0 y, dim1 y, dim2 y, dim3 y - 1) /\
    t_device vis = t_device y /\ t_dtype vis = t_dtype y /\
    forall b i j c,
      b < dim0 y -> i < dim1 y -> j < dim2 y -> c < dim3 y - 1 ->
      get vis b i j c
      = blend (Num (cb_value (dim1 y) (dim2 y) i j))
          (get y b i j (S c)) (get y b i j 0).
Proof.
  intros Hok HH HW. unfold fill_checkerboard_bg.
  unfold t_shape. cbn [fg_of alpha_of dim0 dim1 dim2 dim3 t_data t_device t_dtype].
  rewrite resize_checkerboard by assumption. cbn [a_cells].
  eexists. split; [reflexivity|]. cbn [dim0 dim1 dim2 dim3 t_device t_dtype].
  repeat split.
  intros b i j c Hb Hi Hj Hc. unfold get. cbn [t_data].
  rewrite (composite_at _ (dim0 y) (dim1 y) (dim2 y) (dim3 y) (t_data y));
    try assumption; try lia.
  - now rewrite resized_cell by assumption.
  - now rewrite !length_map, length_seq.
  - intros r Hr. apply in_map_iff in Hr. destruct Hr as [r0 [<- Hr0]].
    apply in_map_iff in Hr0. destruct Hr0 as [i0 [<- _]].
    now rewrite !length_map, length_seq.
Qed.

(** C7 (as amended): on a well-shaped RGBA input at least 64 pixels high
    and wide the compositor returns rgb * alpha + checkerboard * (1 - alpha),
    element by element, where the checkerboard is a background that gives
    every pixel one of the two values 0.45 and 0.55, the same for every
    batch entry and every channel; where alpha is 1 the result is the RGB
    value, unchanged, and where alpha is 0 and the RGB value is finite the
    result is the checkerboard value, the same in every channel.  Which of
    the two values a pixel gets is left open here. *)
Theorem checkerboard_composite (y : tensor) :
  shape_ok y = true -> 64 <= dim1 y -> 64 <= dim2 y ->
  exists (vis : tensor) (cb : nat -> nat -> Qc),
    fill_checkerboard_bg y = inr vis /\
    t_shape vis = (dim0 y, dim1 y, dim2 y, dim3 y - 1) /\
    forall b i j c,
      b < dim0 y -> i < dim1 y -> j < dim2 y -> c < dim3 y - 1 ->
      (cb i j = Q2Qc (9 # 20) \/ cb i j = Q2Qc (11 # 20)) /\
      get vis b i j c
      = vadd (vmul (get y b i j (S c)) (get y b i j 0))
             (vmul (Num (cb i j)) (vsub (Num 1%Qc) (get y b i j 0))) /\
      (get y b i j 0 = Num 1%Qc -> get vis b i j c = get y b i j (S c)) /\
      (get y b i j 0 = Num 0%Qc -> is_finite (get y b i j (S c)) = true ->
       get vis b i j c = Num (cb i j)).
Proof.
  intros Hok HH HW.
  destruct (get_fill_checkerboard_bg y Hok HH HW)
    as [vis [Hrun [Hshape [_ [_ Hget]]]]].
  exists vis, (cb_value (dim1 y) (dim2 y)).
  split; [assumption|]. split; [assumption|].
  intros b i j c Hb Hi Hj Hc. specialize (Hget b i j c Hb Hi Hj Hc).
  split; [apply band_values|]. split; [exact Hget|]. split.
  - intros Ha. rewrite Hget, Ha. apply blend_opaque.
  - intros Ha Hf. rewrite Hget, Ha. now apply blend_transparent.
Qed.

(** C10: an input less than 64 pixels high or wide gives a checkerboard
    with no row or no column, the resize refuses it, and the compositor
    raises; so whenever the compositor returns, height and width are both
    at least 64. *)
Theorem compositor_needs_64 (y : tensor) :
  (dim1 y < 64 \/ dim2 y < 64 ->
   (a_rows (checkerboard (dim1 y / 64, dim2 y / 64)) = 0 \/
    a_cols (checkerboard (dim1 y / 64, dim2 y / 64)) = 0) /\
   fill_checkerboard_bg y = inl Cv2Error) /\
  (forall vis, fill_checkerboard_bg y = inr vis ->
               64 <= dim1 y /\ 64 <= dim2 y).
Proof.
  assert (Hsmall : dim1 y < 64 \/ dim2 y < 64 ->
                   (dim1 y / 64 = 0 \/ dim2 y / 64 = 0) /\
                   fill_checkerboard_bg y = inl Cv2Error).
  { intros Hs.
    assert (Hz : dim1 y / 64 = 0 \/ dim2 y / 64 = 0)
      by (destruct Hs; [left | right]; now apply Nat.div_small).
    split; [assumption|].
    unfold fill_checkerboard_bg, t_shape, cv2_resize_nearest.
    cbn [fg_of dim0 dim1 dim2 dim3 checkerboard a_rows a_cols].
    destruct Hz as [-> | ->]; simpl; [reflexivity|].
    now rewrite orb_true_r. }
  split.
  - intros Hs. destruct (Hsmall Hs) as [Hz Hf]. split; assumption.
  - intros vis Hvis.
    destruct (Nat.lt_ge_cases (dim1 y) 64) as [H1 | H1];
      [destruct (Hsmall (or_introl H1)) as [_ Hf]; congruence|].
    destruct (Nat.lt_ge_cases (dim2 y) 64) as [H2 | H2];
      [destruct (Hsmall (or_intror H2)) as [_ Hf]; congruence|].
    split; assumption.
Qed.

Lemma checkerboard_composite_witness :
  exists vis,
    fill_checkerboard_bg opaque_image = inr vis /\
    t_shape vis = (1, 64, 64, 3) /\
    get vis 0 10 20 2 = Num 1%Qc.
Proof.
  destruct (checkerboard_composite opaque_image)
    as [vis [cb [Hrun [Hshape Hget]]]].
  - vm_compute. reflexivity.
  - simpl. lia.
  - simpl. lia.
  - exists vis. split; [exact Hrun|]. split; [exact Hshape|].
    destruct (Hget 0 10 20 2) as [_ [_ [Hopaque _]]]; try (simpl; lia).
    rewrite Hopaque; reflexivity.
Defined.

(** C7 (as stated) fails: the compositor raises on a 32 x 32 image whose
    alpha is 1 everywhere, and on a 64 x 64 image whose alpha is 0
    everywhere and whose colour is infinite it returns NaN, not the
    checkerboard. *)
Lemma checkerboard_composite_not_total :
  shape_ok thumbnail = true /\
  fill_checkerboard_bg thumbnail = inl Cv2Error /\
  shape_ok overflowed_image = true /\
  exists vis,
    fill_checkerboard_bg overflowed_image = inr vis /\
    get overflowed_image 0 0 0 0 = Num 0%Qc /\
    get vis 0 0 0 0 = NaN.
Proof.
  split; [vm_compute; reflexivity|]. split; [vm_compute; reflexivity|].
  split; [vm_compute; reflexivity|].
  destruct (fill_checkerboard_bg overflowed_image) as [e | vis] eqn:Hrun.
  - vm_compute in Hrun. discriminate Hrun.
  - exists vis. split; [reflexivity|]. split; [reflexivity|].
    vm_compute in Hrun. injection Hrun as <-. reflexivity.
Qed.

Lemma compositor_needs_64_witness :
  fill_checkerboard_bg thumbnail = inl Cv2Error.
Proof.
  apply (proj1 (compositor_needs_64 thumbnail)).
  left. simpl. lia.
Defined.

(** * Further properties of the code *)

(** ** The group of the quarter turns and the flip *)

Lemma rot90_steps_is_mod (k : Z) : rot90_steps k = (k mod 4)%Z.
Proof.
  unfold rot90_steps. Z.to_euclidean_division_equations. lia.
Qed.

Lemma rot90_congr (k k' : Z) (t : tensor) :
  (k mod 4 = k' mod 4)%Z -> rot90 k t = rot90 k' t.
Proof.
  intros H. unfold rot90. now rewrite !rot90_steps_is_mod, H.
Qed.

(** X1: the two-step normalisation of [rot90], written with the truncating
    remainder, is the mathematical modulus, for negative k too: for 64-bit
    counts the turn done depends only on k mod 4, and adding a multiple of
    4 to k, with a sum that is still a 64-bit count, changes nothing. *)
Theorem rot90_periodic (k j : Z) (t : tensor) :
  int64 k -> int64 (k + 4 * j) ->
  rot90_steps k = (k mod 4)%Z /\ rot90 (k + 4 * j) t = rot90 k t.
Proof.
  intros _ _. split; [apply rot90_steps_is_mod|].
  apply rot90_congr. rewrite (Z.mul_comm 4 j). apply Z.mod_add. lia.
Qed.

Lemma rot90_periodic_witness :
  rot90_steps (- 1) = ((- 1) mod 4)%Z /\
  rot90 (- 1 + 4 * 1) ramp_tensor = rot90 (- 1) ramp_tensor.
Proof.
  apply (rot90_periodic (- 1) 1 ramp_tensor); unfold int64; lia.
Defined.

Lemma plane_turn_1_1 (h w : nat) (m : plane) :
  plane_ok h w m = true ->
  transpose_plane h (map (@rev val) (transpose_plane w (map (@rev val) m)))
  = rev (map (@rev val) m).
Proof.
  intros Hm. destruct (plane_ok_inv _ _ _ Hm) as [Hh Hw].
  rewrite (transpose_plane_map_rev w m) by assumption.
  rewrite map_rev, transpose_plane_rev.
  rewrite (transpose_plane_map_rev h).
  - rewrite transpose_plane_involutive by assumption.
    now rewrite map_rev.
  - intros r Hr. unfold transpose_plane in Hr.
    apply in_map_iff in Hr. destruct Hr as [j [<- _]].
    now rewrite length_map.
Qed.

Lemma turn_1_then_1 (t : tensor) :
  shape_ok t = true ->
  transpose23 (flip3 (transpose23 (flip3 t))) = flip2 (flip3 t).
Proof.
  intros Hok. destruct t as [b c h w dv dt d].
  unfold shape_ok in Hok. unfold transpose23, flip2, flip3; simpl in *. f_equal.
  rewrite !map_map_compose. apply map_ext_in. intros x Hx.
  apply map_ext_in. intros m Hm. apply plane_turn_1_1.
  now apply (data_ok_planes _ _ _ _ _ Hok x).
Qed.

Lemma flip3_flip2_flip3 (t : tensor) : flip3 (flip2 (flip3 t)) = flip2 t.
Proof.
  destruct t as [b c h w dv dt d].
  unfold flip2, flip3; simpl. f_equal.
  rewrite !map_map_compose. apply map_ext. intros x.
  apply map_ext. intros m.
  now rewrite map_rev, map_rev_involutive.
Qed.

Lemma rot90_one (t : tensor) : rot90 1 t = transpose23 (flip3 t).
Proof. reflexivity. Qed.

Lemma quarter_turns_shape_ok (n : nat) (t : tensor) :
  shape_ok t = true -> shape_ok (quarter_turns n t) = true.
Proof.
  intros Hok. unfold quarter_turns. induction n as [|n IH]; simpl.
  - assumption.
  - now apply rot90_shape_ok.
Qed.

Lemma rot90_quarter_turns (k : Z) (t : tensor) :
  shape_ok t = true ->
  rot90 k t = quarter_turns (Z.to_nat (k mod 4)) t.
Proof.
  intros Hok. unfold rot90. rewrite rot90_steps_is_mod.
  assert (Hb : (0 <= k mod 4 < 4)%Z) by (apply Z.mod_pos_bound; lia).
  assert (Hc : (k mod 4 = 0 \/ k mod 4 = 1 \/ k mod 4 = 2 \/ k mod 4 = 3)%Z)
    by lia.
  destruct Hc as [-> | [-> | [-> | ->]]].
  - reflexivity.
  - reflexivity.
  - change (quarter_turns (Z.to_nat 2) t) with (rot90 1 (rot90 1 t)).
    rewrite !rot90_one. now rewrite turn_1_then_1.
  - change (quarter_turns (Z.to_nat 3) t)
      with (rot90 1 (rot90 1 (rot90 1 t))).
    rewrite !rot90_one. rewrite (turn_1_then_1 t Hok).
    now rewrite flip3_flip2_flip3.
Qed.

Lemma four_quarter_turns (t : tensor) :
  shape_ok t = true -> quarter_turns 4 t = t.
Proof.
  intros Hok.
  change (quarter_turns 4 t) with (rot90 1 (quarter_turns 3 t)).
  assert (H3 : quarter_turns 3 t = rot90 3 t)
    by (symmetry; exact (rot90_quarter_turns 3 t Hok)).
  rewrite H3. change (rot90 3 t) with (transpose23 (flip2 t)).
  rewrite rot90_one. now apply turn_3_then_1.
Qed.

(** X2: quarter turns compose by adding their counts: on a well-shaped
    tensor rot90 by a after rot90 by b is rot90 by a + b, for all 64-bit
    counts a and b whose sum is a 64-bit count; four quarter turns give the
    tensor back. *)
Theorem rot90_compose (a b : Z) (t : tensor) :
  shape_ok t = true ->
  int64 a -> int64 b -> int64 (a + b) ->
  rot90 a (rot90 b t) = rot90 (a + b) t /\ rot90 4 t = t /\
  quarter_turns 4 t = t.
Proof.
  intros Hok _ _ _. split; [|split; [reflexivity | now apply four_quarter_turns]].
  rewrite (rot90_quarter_turns b t Hok).
  rewrite (rot90_quarter_turns a) by now apply quarter_turns_shape_ok.
  rewrite (rot90_quarter_turns (a + b) t Hok).
  unfold quarter_turns. rewrite <- Nat.iter_add.
  assert (Ha : (0 <= a mod 4 < 4)%Z) by (apply Z.mod_pos_bound; lia).
  assert (Hb : (0 <= b mod 4 < 4)%Z) by (apply Z.mod_pos_bound; lia).
  assert (Hs : ((a + b) mod 4 = a mod 4 + b mod 4 \/
                (a + b) mod 4 = a mod 4 + b mod 4 - 4)%Z)
    by (Z.to_euclidean_division_equations; lia).
  destruct Hs as [Hs | Hs].
  - f_equal. lia.
  - replace (Z.to_nat (a mod 4) + Z.to_nat (b mod 4))
      with (Z.to_nat ((a + b) mod 4) + 4)
      by (pose proof (Z.mod_pos_bound (a + b) 4); lia).
    rewrite Nat.iter_add. f_equal. now apply four_quarter_turns.
Qed.

Lemma rot90_compose_witness :
  rot90 3 (rot90 (- 2) ramp_tensor) = rot90 (3 + - 2) ramp_tensor /\
  rot90 4 ramp_tensor = ramp_tensor /\
  quarter_turns 4 ramp_tensor = ramp_tensor.
Proof.
  apply (rot90_compose 3 (- 2) ramp_tensor);
    [reflexivity | unfold int64; lia ..].
Defined.

Lemma transpose23_flip3 (t : tensor) :
  flip3 (transpose23 (flip3 t)) = transpose23 (flip2 (flip3 t)).
Proof.
  destruct t as [b c h w dv dt d].
  unfold transpose23, flip2, flip3; simpl. f_equal.
  rewrite !map_map_compose. apply map_ext. intros x.
  apply map_ext. intros m. now rewrite transpose_plane_rev.
Qed.

Lemma transpose23_flip2 (t : tensor) :
  flip3 (transpose23 (flip2 t)) = transpose23 t.
Proof.
  destruct t as [b c h w dv dt d].
  unfold transpose23, flip2, flip3; simpl. f_equal.
  rewrite !map_map_compose. apply map_ext. intros x.
  apply map_ext. intros m.
  now rewrite transpose_plane_rev, map_rev_involutive.
Qed.

(** X3: the flip along the width axis turns a rotation into the opposite
    rotation: flipping the result of rot90 by k is the same as rotating the
    flipped tensor by -k, for every 64-bit count k whose opposite is a
    64-bit count.  This is why undoing an augmentation has to rotate back
    before it flips back. *)
Theorem flip_rot90 (k : Z) (t : tensor) :
  int64 k -> int64 (- k) ->
  flip3 (rot90 k t) = rot90 (- k) (flip3 t).
Proof.
  intros _ _. unfold rot90.
  destruct (rot90_steps_opp k) as [[-> ->] | [[-> ->] | [[-> ->] | [-> ->]]]].
  - reflexivity.
  - apply transpose23_flip3.
  - now rewrite flip3_flip2_flip3, flip3_involutive.
  - now rewrite transpose23_flip2, flip3_involutive.
Qed.

Lemma flip_rot90_witness :
  flip3 (rot90 1 ramp_tensor) = rot90 (- 1) (flip3 ramp_tensor).
Proof.
  apply (flip_rot90 1 ramp_tensor); unfold int64; lia.
Defined.

Lemma odd_mod_4 (k : Z) : Z.odd (k mod 4) = Z.odd k.
Proof.
  rewrite (Z.div_mod k 4) at 2 by lia.
  replace (4 * (k / 4) + k mod 4)%Z with (k mod 4 + 2 * (2 * (k / 4)))%Z
    by lia.
  now rewrite Z.odd_add_mul_2.
Qed.

(** X4: rot90 by a 64-bit count k exchanges height and width exactly when
    k is odd; it keeps the batch and channel sizes, the device and the
    dtype, and a well-shaped tensor stays well-shaped. *)
Theorem rot90_geometry (k : Z) (t : tensor) :
  int64 k ->
  t_shape (rot90 k t) =
    (if Z.odd k
     then (dim0 t, dim1 t, dim3 t, dim2 t)
     else (dim0 t, dim1 t, dim2 t, dim3 t)) /\
  t_device (rot90 k t) = t_device t /\
  t_dtype (rot90 k t) = t_dtype t /\
  (shape_ok t = true -> shape_ok (rot90 k t) = true).
Proof.
  intros _. split; [|split; [|split]].
  - rewrite rot90_shape. unfold turned, t_shape.
    now rewrite rot90_steps_is_mod, odd_mod_4.
  - unfold rot90. destruct (rot90_steps k) as [|p|p]; try reflexivity.
    destruct p as [[|p|]|[|p|]|]; reflexivity.
  - unfold rot90. destruct (rot90_steps k) as [|p|p]; try reflexivity.
    destruct p as [[|p|]|[|p|]|]; reflexivity.
  - apply rot90_shape_ok.
Qed.

Lemma rot90_geometry_witness :
  t_shape (rot90 (- 3) ramp_tensor)
  = (dim0 ramp_tensor, dim1 ramp_tensor, dim3 ramp_tensor, dim2 ramp_tensor) /\
  shape_ok (rot90 (- 3) ramp_tensor) = true.
Proof.
  destruct (rot90_geometry (- 3) ramp_tensor) as [Hs [_ [_ Hok]]];
    [unfold int64; lia|].
  split; [exact Hs | apply Hok; reflexivity].
Defined.

(** ** Tuple slices *)

(** X5: the two slices [t[:-n]] and [t[-n:]] that forward takes of the skip
    stack always split it without loss or repetition; for n > 0 the second
    holds the last min(n, len t) tensors, and for n = 0 it holds all of them
    while the first is empty. *)
Theorem py_slices_partition (A : Type) (n : nat) (t : list A) :
  py_prefix n t ++ py_suffix n t = t /\
  length (py_suffix n t) = (if n =? 0 then length t else Nat.min n (length t)) /\
  length (py_prefix n t) = (if n =? 0 then 0 else length t - n).
Proof.
  destruct n as [|n]; cbn [py_prefix py_suffix Nat.eqb app].
  - auto.
  - split; [apply firstn_skipn|]. split.
    + rewrite length_skipn. lia.
    + rewrite length_firstn. lia.
Qed.

Lemma py_slices_pos (A : Type) (n : nat) (t : list A) :
  0 < n -> py_suffix n t = skipn (length t - n) t.
Proof. destruct n; [lia | reflexivity]. Qed.

Lemma py_prefix_pos (A : Type) (n : nat) (t : list A) :
  0 < n -> py_prefix n t = firstn (length t - n) t.
Proof. destruct n; [lia | reflexivity]. Qed.

(** ** The skip stack of an arbitrary network *)

Section Balance.
Variable F : Type.
Variable L : Layers F.

Lemma down_resnets_outputs (i : nat) (js : list nat) (h : F) (out : list F) :
  exists new,
    snd (down_resnets F L i js h out) = out ++ new /\ length new = length js.
Proof.
  revert h out. induction js as [|j js IH]; intros h out; simpl.
  - exists []. now rewrite app_nil_r.
  - destruct (IH (down_resnet L i j h) (out ++ [down_resnet L i j h]))
      as [new [Hnew Hlen]].
    exists (down_resnet L i j h :: new). rewrite Hnew, <- app_assoc.
    simpl. auto.
Qed.

Lemma down_block_forward_outputs (i : nat) (blk : DownBlock) (h : F) :
  length (snd (down_block_forward F L i blk h)) = down_block_outputs blk.
Proof.
  unfold down_block_forward, down_block_outputs.
  destruct (down_resnets_outputs i (seq 0 (db_num_layers blk)) h [])
    as [new [Hnew Hlen]].
  destruct (down_resnets F L i (seq 0 (db_num_layers blk)) h [])
    as [h' outs]. simpl in Hnew. subst outs.
  rewrite length_seq in Hlen.
  destruct (db_add_downsample blk); simpl.
  - rewrite length_app. simpl. lia.
  - lia.
Qed.

Lemma down_pass_outputs (blocks : list (nat * DownBlock)) (sl s : F)
      (stack : list F) :
  exists new,
    snd (down_pass F L blocks sl s stack) = stack ++ new /\
    length new = list_sum (map (fun b => down_block_outputs (snd b)) blocks).
Proof.
  revert s stack. induction blocks as [|[i blk] blocks IH]; intros s stack.
  - exists []. simpl. now rewrite app_nil_r.
  - simpl.
    pose proof (down_block_forward_outputs i blk
                  (if i =? 3 then add_fn L s sl else s)) as Hlen.
    destruct (down_block_forward F L i blk
                (if i =? 3 then add_fn L s sl else s)) as [s' res].
    simpl in Hlen.
    destruct (IH s' (stack ++ res)) as [new [Hnew Hnewlen]].
    exists (res ++ new). rewrite Hnew, <- app_assoc.
    split; [reflexivity|]. rewrite length_app. lia.
Qed.

Lemma py_last_snoc (pre : list F) (r : F) : py_last (pre ++ [r]) = Some r.
Proof. unfold py_last. now rewrite rev_app_distr. Qed.

(** The residual layers of an up block take the end of their tuple, last
    tensor first. *)
Lemma up_resnets_takes (i : nat) (js : list nat) (h : F)
      (pre chunk taken : list F) :
  length chunk = length js ->
  exists h',
    up_resnets F L i js h (pre ++ rev chunk) taken = Some (h', taken ++ chunk).
Proof.
  revert h chunk taken.
  induction js as [|j js IH]; intros h chunk taken Hlen.
  - destruct chunk; [|discriminate]. exists h. simpl. now rewrite app_nil_r.
  - destruct chunk as [|r chunk]; [discriminate|].
    simpl rev. simpl up_resnets.
    rewrite app_assoc, py_last_snoc, removelast_last.
    destruct (IH (up_resnet L i j h r) chunk (taken ++ [r])) as [h' Hh'];
      [simpl in Hlen; lia|].
    exists h'. rewrite Hh', <- app_assoc. reflexivity.
Qed.

Lemma up_block_forward_takes (i : nat) (blk : UpBlock) (h : F)
      (res : list F) :
  length res = ub_num_layers blk ->
  exists h', up_block_forward F L i blk h res = Some (h', rev res).
Proof.
  intros Hlen. unfold up_block_forward.
  destruct (up_resnets_takes i (seq 0 (ub_num_layers blk)) h [] (rev res) [])
    as [h' Hh'].
  - now rewrite length_rev, length_seq.
  - rewrite rev_involutive in Hh'. simpl in Hh'. rewrite Hh'.
    eexists. reflexivity.
Qed.

Lemma up_pass_balanced (blocks : list (nat * UpBlock)) (sample : F)
      (stack : list F) (handed : list (list F)) (taken : list F) :
  (forall b, In b blocks -> 0 < ub_num_layers (snd b)) ->
  length stack = list_sum (map (fun b => ub_num_layers (snd b)) blocks) ->
  exists sample' hs,
    up_pass F L blocks sample stack handed taken
      = Some (sample', [], handed ++ hs, taken ++ rev stack) /\
    map (@length F) hs = map (fun b => ub_num_layers (snd b)) blocks /\
    concat (rev hs) = stack.
Proof.
  revert sample stack handed taken.
  induction blocks as [|[i blk] blocks IH];
    intros sample stack handed taken Hpos Hlen.
  - destruct stack; [|discriminate]. exists sample, [].
    simpl. now rewrite !app_nil_r.
  - simpl in Hlen.
    assert (Hn : 0 < ub_num_layers blk) by (apply (Hpos (i, blk)); now left).
    cbn [up_pass].
    rewrite (py_slices_pos F (ub_num_layers blk) stack Hn).
    rewrite (py_prefix_pos F (ub_num_layers blk) stack Hn).
    set (cut := length stack - ub_num_layers blk).
    assert (Hc : length (skipn cut stack) = ub_num_layers blk)
      by (rewrite length_skipn; unfold cut; lia).
    destruct (up_block_forward_takes i blk sample (skipn cut stack) Hc)
      as [s1 Hs1].
    rewrite Hs1.
    destruct (IH s1 (firstn cut stack) (handed ++ [skipn cut stack])
                (taken ++ rev (skipn cut stack)))
      as [sample' [hs [Hrun [Hlens Hcat]]]].
    + intros b Hb. apply Hpos. now right.
    + rewrite length_firstn. unfold cut. lia.
    + exists sample', (skipn cut stack :: hs). repeat split.
      * rewrite Hrun. rewrite <- !app_assoc. simpl.
        rewrite <- rev_app_distr, firstn_skipn. reflexivity.
      * simpl. rewrite Hlens. f_equal. exact Hc.
      * simpl. rewrite concat_app, Hcat. simpl.
        rewrite app_nil_r. apply firstn_skipn.
Qed.
End Balance.

Lemma enumerate_snd (A : Type) (l : list A) : map snd (enumerate l) = l.
Proof.
  unfold enumerate. generalize 0.
  induction l as [|a l IH]; intros s; simpl; [reflexivity|].
  now rewrite IH.
Qed.

Lemma enumerate_in_snd (A : Type) (l : list A) (b : nat * A) :
  In b (enumerate l) -> In (snd b) l.
Proof.
  intros Hb. rewrite <- (enumerate_snd A l). now apply in_map.
Qed.

Lemma forward_traced_balanced (F : Type) (L : Layers F) (self : UNet1024)
        (x latent : F) :
  (forall blk, In blk (up_blocks self) -> 0 < ub_num_layers blk) ->
  produced_count self = consumed_count self ->
  exists tr,
    forward_traced F L self x latent = Some tr /\
    length (produced tr) = produced_count self /\
    map (@length F) (handed tr) = map ub_num_layers (up_blocks self) /\
    concat (rev (handed tr)) = produced tr /\
    taken_in_order tr = rev (produced tr) /\
    leftover tr = [].
Proof.
  intros Hpos Hbal. unfold forward_traced.
  destruct (down_pass_outputs F L (enumerate (down_blocks self))
              (latent_conv_in_fn L latent) (conv_in_fn L x) [conv_in_fn L x])
    as [new [Hnew Hlen]].
  destruct (down_pass F L (enumerate (down_blocks self))
              (latent_conv_in_fn L latent) (conv_in_fn L x) [conv_in_fn L x])
    as [sample stack].
  simpl in Hnew. subst stack.
  assert (Hcount : length (conv_in_fn L x :: new) = produced_count self).
  { simpl. unfold produced_count. rewrite Hlen.
    rewrite <- (enumerate_snd _ (down_blocks self)) at 2.
    now rewrite map_map. }
  destruct (up_pass_balanced F L (enumerate (up_blocks self))
              (mid_fn L sample) (conv_in_fn L x :: new) [] [])
    as [sample' [hs [Hrun [Hlens Hcat]]]].
  - intros b Hb. apply Hpos. now apply enumerate_in_snd.
  - rewrite Hcount, Hbal. unfold consumed_count.
    rewrite <- (enumerate_snd _ (up_blocks self)) at 1.
    now rewrite map_map.
  - change ([conv_in_fn L x] ++ new) with (conv_in_fn L x :: new).
    rewrite Hrun. eexists. split; [reflexivity|].
    cbn [produced handed taken_in_order leftover app].
    repeat split; try assumption.
    rewrite Hlens. rewrite <- (enumerate_snd _ (up_blocks self)) at 2.
    now rewrite map_map.
Qed.

(** X6: for every network, whatever its layers compute: when every up block
    has at least one residual layer and the encoder produces as many skip
    tensors as the decoder wants, forward returns; each up block is handed
    exactly as many tensors as it has residual layers, the tensors are taken
    in the reverse of the order of production, and the stack ends empty. *)
Theorem forward_balanced (F : Type) (L : Layers F) (self : UNet1024)
        (x latent : F) :
  (forall blk, In blk (up_blocks self) -> 0 < ub_num_layers blk) ->
  produced_count self = consumed_count self ->
  exists tr,
    forward_traced F L self x latent = Some tr /\
    length (produced tr) = produced_count self /\
    map (@length F) (handed tr) = map ub_num_layers (up_blocks self) /\
    concat (rev (handed tr)) = produced tr /\
    taken_in_order tr = rev (produced tr) /\
    leftover tr = [].
Proof. exact (forward_traced_balanced F L self x latent). Qed.

Lemma forward_balanced_witness :
  exists tr,
    forward_traced Z counting_layers tiny_unet 1%Z 0%Z = Some tr /\
    length (produced tr) = 3 /\
    leftover tr = [].
Proof.
  destruct (forward_balanced Z counting_layers tiny_unet 1%Z 0%Z)
    as [tr [Hrun [Hlen [_ [_ [_ Hleft]]]]]].
  - intros blk [<- | []]. simpl. lia.
  - reflexivity.
  - exists tr. repeat split; assumption.
Defined.

Section Underflow.
Variable F : Type.
Variable L : Layers F.

Lemma up_resnets_short (i : nat) (js : list nat) (h : F)
      (tuple taken : list F) :
  length tuple < length js -> up_resnets F L i js h tuple taken = None.
Proof.
  revert h tuple taken.
  induction js as [|j js IH]; intros h tuple taken Hlen; simpl in *; [lia|].
  destruct tuple as [|a tuple'] eqn:Et.
  - reflexivity.
  - rewrite <- Et in *.
    assert (Hne : tuple <> []) by (rewrite Et; discriminate).
    destruct (exists_last Hne) as [pre [r Hpre]].
    rewrite Hpre, py_last_snoc, removelast_last.
    apply IH. rewrite Hpre, length_app in Hlen. simpl in Hlen. lia.
Qed.

Lemma up_pass_underflow (blocks : list (nat * UpBlock)) (sample : F)
      (stack : list F) (handed : list (list F)) (taken : list F) :
  (forall b, In b blocks -> 0 < ub_num_layers (snd b)) ->
  length stack < list_sum (map (fun b => ub_num_layers (snd b)) blocks) ->
  up_pass F L blocks sample stack handed taken = None.
Proof.
  revert sample stack handed taken.
  induction blocks as [|[i blk] blocks IH];
    intros sample stack handed taken Hpos Hlen; simpl in Hlen; [lia|].
  assert (Hn : 0 < ub_num_layers blk) by (apply (Hpos (i, blk)); now left).
  cbn [up_pass].
  rewrite (py_slices_pos F (ub_num_layers blk) stack Hn).
  rewrite (py_prefix_pos F (ub_num_layers blk) stack Hn).
  destruct (Nat.lt_ge_cases (length stack) (ub_num_layers blk)) as [Hs | Hs].
  - unfold up_block_forward.
    rewrite up_resnets_short; [reflexivity|].
    rewrite length_skipn, length_seq. lia.
  - destruct (up_block_forward_takes F L i blk sample
                (skipn (length stack - ub_num_layers blk) stack))
      as [s1 Hs1]; [rewrite length_skipn; lia|].
    rewrite Hs1. apply IH.
    + intros b Hb. apply Hpos. now right.
    + rewrite length_firstn. lia.
Qed.
End Underflow.

(** X7: when the decoder wants more skip tensors than the encoder produced
    (every up block having at least one residual layer), some up block finds
    its tuple empty and forward raises the IndexError instead of
    returning. *)
Theorem forward_underflow (F : Type) (L : Layers F) (self : UNet1024)
        (x latent : F) :
  (forall blk, In blk (up_blocks self) -> 0 < ub_num_layers blk) ->
  produced_count self < consumed_count self ->
  forward_traced F L self x latent = None /\
  forward F L self x latent = None.
Proof.
  intros Hpos Hlt.
  assert (Ht : forward_traced F L self x latent = None).
  { unfold forward_traced.
    destruct (down_pass_outputs F L (enumerate (down_blocks self))
                (latent_conv_in_fn L latent) (conv_in_fn L x) [conv_in_fn L x])
      as [new [Hnew Hlen]].
    destruct (down_pass F L (enumerate (down_blocks self))
                (latent_conv_in_fn L latent) (conv_in_fn L x) [conv_in_fn L x])
      as [sample stack].
    simpl in Hnew. subst stack.
    rewrite up_pass_underflow; [reflexivity | |].
    - intros b Hb. apply Hpos. now apply enumerate_in_snd.
    - simpl. unfold produced_count, consumed_count in Hlt.
      rewrite <- (enumerate_snd _ (down_blocks self)) in Hlt at 1.
      rewrite <- (enumerate_snd _ (up_blocks self)) in Hlt at 1.
      rewrite !map_map in Hlt. rewrite Hlen. exact Hlt. }
  split; [assumption|]. unfold forward. now rewrite Ht.
Qed.

Lemma forward_underflow_witness :
  forward_traced Z counting_layers greedy_unet 1%Z 0%Z = None /\
  forward Z counting_layers greedy_unet 1%Z 0%Z = None.
Proof.
  apply (forward_underflow Z counting_layers greedy_unet 1%Z 0%Z).
  - intros blk [<- | []]. simpl. lia.
  - unfold produced_count, consumed_count. simpl. lia.
Defined.

(** ** The latent in shallow networks *)

Lemma enumerate_index (A : Type) (l : list A) (i : nat) (a : A) :
  In (i, a) (enumerate l) -> i < length l.
Proof.
  unfold enumerate. intros H. apply in_combine_l in H.
  apply in_seq in H. lia.
Qed.

Lemma down_pass_without_stage_3 (F : Type) (L : Layers F)
      (blocks : list (nat * DownBlock)) (sl sl' s : F) (stack : list F) :
  (forall b, In b blocks -> fst b <> 3) ->
  down_pass F L blocks sl s stack = down_pass F L blocks sl' s stack.
Proof.
  revert s stack. induction blocks as [|[i blk] blocks IH];
    intros s stack Hne; simpl; [reflexivity|].
  assert (Hi : i <> 3) by (apply (Hne (i, blk)); now left).
  apply Nat.eqb_neq in Hi. rewrite Hi.
  destruct (down_block_forward F L i blk s) as [s' res].
  apply IH. intros b Hb. apply Hne. now right.
Qed.

Lemma forward_without_stage_3 (F : Type) (L : Layers F) (self : UNet1024)
      (x latent latent' : F) :
  length (down_blocks self) <= 3 ->
  forward F L self x latent = forward F L self x latent'.
Proof.
  intros Hlen. unfold forward, forward_traced.
  rewrite (down_pass_without_stage_3 F L (enumerate (down_blocks self))
             (latent_conv_in_fn L latent) (latent_conv_in_fn L latent')).
  - reflexivity.
  - intros [i blk] Hb. apply enumerate_index in Hb. simpl. lia.
Qed.

(** X8: the latent is added only when the loop reaches the down block of
    index 3, so in a network with at most three down blocks the projected
    latent is computed and never added: for any two latents that the
    projection accepts the output is the same.  A latent that the projection
    refuses still makes forward raise, although its projection would not be
    used. *)
Theorem forward_ignores_latent (F : Type) (L : Layers F)
        (accepts : F -> bool) (self : UNet1024) (x latent latent' : F) :
  length (down_blocks self) <= 3 ->
  accepts latent = true -> accepts latent' = true ->
  forward_checked F L accepts self x latent
  = forward_checked F L accepts self x latent' /\
  forall refused, accepts refused = false ->
    forward_checked F L accepts self x refused = None.
Proof.
  intros Hlen Ha Ha'. unfold forward_checked. split.
  - rewrite Ha, Ha'. now apply forward_without_stage_3.
  - intros refused ->. reflexivity.
Qed.

Lemma forward_ignores_latent_witness :
  forward_checked Z counting_layers (Z.leb 0) tiny_unet 1%Z 5%Z
  = forward_checked Z counting_layers (Z.leb 0) tiny_unet 1%Z 7%Z /\
  forward_checked Z counting_layers (Z.leb 0) tiny_unet 1%Z (- 1)%Z = None.
Proof.
  destruct (forward_ignores_latent Z counting_layers (Z.leb 0) tiny_unet
              1%Z 5%Z 7%Z) as [Hsame Hrefused].
  - simpl. lia.
  - reflexivity.
  - reflexivity.
  - split; [exact Hsame | apply Hrefused; reflexivity].
Defined.

(** ** Construction from an arbitrary configuration *)

Lemma skipn_nth_error (A : Type) (l : list A) (s : nat) (x : A) :
  nth_error l s = Some x -> skipn s l = x :: skipn (S s) l.
Proof.
  revert l. induction s as [|s IH]; intros [|a l]; simpl; try discriminate.
  - now intros [= ->].
  - intros H. now apply IH.
Qed.

Lemma nth_error_lt (A : Type) (l : list A) (s : nat) :
  s < length l -> exists x, nth_error l s = Some x.
Proof.
  intros H. destruct (nth_error l s) eqn:E; [eauto|].
  apply nth_error_None in E. lia.
Qed.

Section Init.
Variable cfg : UNetConfig.

Lemma init_down_blocks_spec (types : list down_block_type) (s c : nat) :
  s + length types <= length (block_out_channels cfg) ->
  exists blocks,
    init_down_blocks cfg (combine (seq s (length types)) types) c
      = Some blocks /\
    map db_type blocks = types /\
    map db_out_channels blocks
      = firstn (length types) (skipn s (block_out_channels cfg)) /\
    map db_in_channels blocks
      = firstn (length types)
          (c :: firstn (length types) (skipn s (block_out_channels cfg))) /\
    Forall (fun b => db_num_layers b = layers_per_block cfg) blocks /\
    list_sum (map down_block_outputs blocks)
    + (if (s <=? length (block_out_channels cfg) - 1)
          && (length (block_out_channels cfg) - 1 <? s + length types)
       then 1 else 0)
    = length types * (layers_per_block cfg + 1).
Proof.
  revert s c. induction types as [|ty types IH]; intros s c Hlen.
  - exists []. simpl. repeat split; auto.
    destruct (s <=? _) eqn:Es; simpl; [|reflexivity].
    apply Nat.leb_le in Es.
    replace (_ <? s + 0) with false; [reflexivity|].
    symmetry. apply Nat.ltb_ge. lia.
  - simpl in Hlen. cbn [length seq combine init_down_blocks].
    destruct (nth_error_lt _ (block_out_channels cfg) s) as [x Hx]; [lia|].
    rewrite Hx.
    destruct (IH (S s) x) as [blocks [Hrun [Hty [Hout [Hin [Hn Hsum]]]]]];
      [lia|].
    rewrite Hrun. eexists. split; [reflexivity|].
    rewrite (skipn_nth_error _ _ _ _ Hx). cbn [map firstn].
    cbn [db_type db_out_channels db_in_channels db_num_layers].
    rewrite Hty, Hout, Hin. repeat split.
    + constructor; [reflexivity | assumption].
    + cbn [list_sum]. unfold down_block_outputs at 1.
      cbn [db_num_layers db_add_downsample].
      destruct (s =? length (block_out_channels cfg) - 1) eqn:Es.
      * apply Nat.eqb_eq in Es.
        replace (S s <=? length (block_out_channels cfg) - 1) with false
          in Hsum by (symmetry; apply Nat.leb_gt; lia).
        replace (s <=? length (block_out_channels cfg) - 1) with true
          by (symmetry; apply Nat.leb_le; lia).
        replace (length (block_out_channels cfg) - 1 <? s + S (length types))
          with true by (symmetry; apply Nat.ltb_lt; lia).
        simpl in *. lia.
      * apply Nat.eqb_neq in Es.
        replace (length (block_out_channels cfg) - 1 <? s + S (length types))
          with (length (block_out_channels cfg) - 1 <? S s + length types)
          by (f_equal; lia).
        destruct (S s <=? length (block_out_channels cfg) - 1) eqn:E1.
        -- apply Nat.leb_le in E1.
           replace (s <=? length (block_out_channels cfg) - 1) with true
             by (symmetry; apply Nat.leb_le; lia).
           simpl in *. lia.
        -- apply Nat.leb_gt in E1.
           replace (s <=? length (block_out_channels cfg) - 1) with false
             by (symmetry; apply Nat.leb_gt; lia).
           simpl in *. lia.
Qed.

Lemma init_up_blocks_spec (types : list up_block_type) (s c : nat) :
  s + length types <= length (block_out_channels cfg) ->
  exists blocks,
    init_up_blocks cfg (rev (block_out_channels cfg))
      (combine (seq s (length types)) types) c = Some blocks /\
    map ub_type blocks = types /\
    map ub_out_channels blocks
      = firstn (length types) (skipn s (rev (block_out_channels cfg))) /\
    Forall (fun b => ub_num_layers b = layers_per_block cfg + 1) blocks.
Proof.
  revert s c. induction types as [|ty types IH]; intros s c Hlen.
  - exists []. simpl. repeat split; auto.
  - simpl in Hlen. cbn [length seq combine init_up_blocks].
    destruct (nth_error_lt _ (rev (block_out_channels cfg)) s) as [x Hx];
      [rewrite length_rev; lia|].
    destruct (nth_error_lt _ (rev (block_out_channels cfg))
                (Nat.min (s + 1) (length (block_out_channels cfg) - 1)))
      as [x' Hx']; [rewrite length_rev; lia|].
    rewrite Hx, Hx'.
    destruct (IH (S s) x) as [blocks [Hrun [Hty [Hout Hn]]]]; [lia|].
    rewrite Hrun. eexists. split; [reflexivity|].
    rewrite (skipn_nth_error _ _ _ _ Hx). cbn [map firstn].
    cbn [ub_type ub_out_channels ub_num_layers].
    rewrite Hty, Hout. repeat split.
    constructor; [reflexivity | assumption].
Qed.

Lemma init_down_blocks_overflow (types : list down_block_type) (s c : nat) :
  s <= length (block_out_channels cfg) ->
  length (block_out_channels cfg) < s + length types ->
  init_down_blocks cfg (combine (seq s (length types)) types) c = None.
Proof.
  revert s c. induction types as [|ty types IH]; intros s c Hs Hlen;
    simpl in Hlen; [lia|].
  cbn [length seq combine init_down_blocks].
  destruct (nth_error (block_out_channels cfg) s) as [x|] eqn:Hx;
    [|reflexivity].
  assert (s < length (block_out_channels cfg))
    by (apply nth_error_Some; congruence).
  rewrite IH; [reflexivity | lia | lia].
Qed.
End Init.

Lemma list_sum_constant (A : Type) (f : A -> nat) (n : nat) (l : list A) :
  Forall (fun a => f a = n) l -> list_sum (map f l) = length l * n.
Proof.
  induction 1 as [|a l Ha _ IH]; simpl; [reflexivity|]. lia.
Qed.

Lemma init_up_blocks_overflow (cfg : UNetConfig) (types : list up_block_type)
      (s c : nat) :
  s <= length (block_out_channels cfg) ->
  length (block_out_channels cfg) < s + length types ->
  init_up_blocks cfg (rev (block_out_channels cfg))
    (combine (seq s (length types)) types) c = None.
Proof.
  revert s c. induction types as [|ty types IH]; intros s c Hs Hlen;
    simpl in Hlen; [lia|].
  cbn [length seq combine init_up_blocks].
  destruct (nth_error (rev (block_out_channels cfg)) s) as [x|] eqn:Hx;
    [|reflexivity].
  assert (s < length (rev (block_out_channels cfg)))
    by (apply nth_error_Some; congruence).
  rewrite length_rev in *.
  destruct (nth_error (rev (block_out_channels cfg))
              (Nat.min (s + 1) (length (block_out_channels cfg) - 1)))
    as [x'|]; [|reflexivity].
  rewrite IH; [reflexivity | lia | lia].
Qed.

Lemma py_last_some (A : Type) (l : list A) :
  l <> [] -> exists x, py_last l = Some x.
Proof.
  intros Hne. destruct (exists_last Hne) as [pre [r ->]].
  exists r. unfold py_last. now rewrite rev_app_distr.
Qed.

Lemma init_schedule (cfg : UNetConfig) :
  3 <= length (block_out_channels cfg) ->
  length (down_block_types cfg) = length (block_out_channels cfg) ->
  length (up_block_types cfg) = length (block_out_channels cfg) ->
  exists u,
    UNet1024_init cfg = Some u /\
    map db_type (down_blocks u) = down_block_types cfg /\
    map ub_type (up_blocks u) = up_block_types cfg /\
    map db_out_channels (down_blocks u) = block_out_channels cfg /\
    map db_in_channels (down_blocks u)
      = firstn (length (block_out_channels cfg))
          (nth 0 (block_out_channels cfg) 0 :: block_out_channels cfg) /\
    map ub_out_channels (up_blocks u) = rev (block_out_channels cfg) /\
    Forall (fun b => db_num_layers b = layers_per_block cfg) (down_blocks u) /\
    Forall (fun b => ub_num_layers b = layers_per_block cfg + 1)
           (up_blocks u) /\
    latent_conv_in u
      = mkConv2d 4 (nth 2 (block_out_channels cfg) 0) 1 0 1 true /\
    produced_count u
      = length (block_out_channels cfg) * (layers_per_block cfg + 1) /\
    consumed_count u
      = length (block_out_channels cfg) * (layers_per_block cfg + 1).
Proof.
  intros H3 Hd Hu. unfold UNet1024_init.
  destruct (nth_error_lt _ (block_out_channels cfg) 0) as [c0 Hc0]; [lia|].
  destruct (nth_error_lt _ (block_out_channels cfg) 2) as [c2 Hc2]; [lia|].
  destruct (py_last_some _ (block_out_channels cfg)) as [cl Hcl];
    [destruct (block_out_channels cfg); [simpl in H3; lia | discriminate]|].
  destruct (nth_error_lt _ (rev (block_out_channels cfg)) 0) as [r0 Hr0];
    [rewrite length_rev; lia|].
  rewrite Hc0, Hc2, Hcl, Hr0. unfold enumerate.
  destruct (init_down_blocks_spec cfg (down_block_types cfg) 0 c0)
    as [downs [Hdrun [Hdty [Hdout [Hdin [Hdn Hdsum]]]]]]; [lia|].
  destruct (init_up_blocks_spec cfg (up_block_types cfg) 0 r0)
    as [ups [Hurun [Huty [Huout Hun]]]]; [lia|].
  rewrite Hdrun, Hurun. eexists. split; [reflexivity|].
  cbn [down_blocks up_blocks latent_conv_in zero_module conv_in_channels
       conv_out_channels kernel_size padding stride].
  rewrite Hd in Hdout, Hdin, Hdsum. rewrite Hu in Huout.
  cbn [skipn] in Hdout, Hdin, Huout.
  rewrite firstn_all in Hdout, Hdin.
  rewrite <- (length_rev (block_out_channels cfg)) in Huout.
  rewrite firstn_all in Huout.
  replace ((0 <=? length (block_out_channels cfg) - 1)
           && (length (block_out_channels cfg) - 1
               <? 0 + length (block_out_channels cfg)))
    with true in Hdsum
    by (symmetry; apply andb_true_iff; split;
        [apply Nat.leb_le | apply Nat.ltb_lt]; lia).
  repeat split; try assumption.
  - rewrite Hdin. f_equal. f_equal.
    now rewrite (nth_error_nth _ _ _ Hc0).
  - now rewrite (nth_error_nth _ _ _ Hc2).
  - unfold produced_count. cbn [down_blocks]. lia.
  - unfold consumed_count. cbn [up_blocks].
    rewrite (list_sum_constant _ ub_num_layers (layers_per_block cfg + 1))
      by assumption.
    rewrite <- (length_map ub_type), Huty, Hu. reflexivity.
Qed.

Lemma init_some_three (cfg : UNetConfig) (u : UNet1024) :
  UNet1024_init cfg = Some u -> 3 <= length (block_out_channels cfg).
Proof.
  unfold UNet1024_init. intros H.
  destruct (nth_error (block_out_channels cfg) 0) as [c0|]; [|discriminate].
  destruct (nth_error (block_out_channels cfg) 2) as [c2|] eqn:Hc2;
    [|discriminate].
  assert (H2 : 2 < length (block_out_channels cfg))
    by (apply nth_error_Some; congruence).
  lia.
Qed.

(** X9: every network that __init__ returns from a configuration whose
    widths, down types and up types have one length L is laid out by the
    schedule: L is at least 3, the down blocks have the widths of the
    schedule, each fed by the width before it, the up blocks have the
    widths of the schedule read backwards, down blocks have
    layers_per_block residual layers and up blocks one more, the latent
    projection is a zero-initialised 1x1 convolution from 4 channels to
    the third width, and encoder and decoder both count
    L * (layers_per_block + 1) skip tensors. *)
Theorem UNet1024_init_schedule (cfg : UNetConfig) (u : UNet1024) :
  UNet1024_init cfg = Some u ->
  length (down_block_types cfg) = length (block_out_channels cfg) ->
  length (up_block_types cfg) = length (block_out_channels cfg) ->
    3 <= length (block_out_channels cfg) /\
    map db_type (down_blocks u) = down_block_types cfg /\
    map ub_type (up_blocks u) = up_block_types cfg /\
    map db_out_channels (down_blocks u) = block_out_channels cfg /\
    map db_in_channels (down_blocks u)
      = firstn (length (block_out_channels cfg))
          (nth 0 (block_out_channels cfg) 0 :: block_out_channels cfg) /\
    map ub_out_channels (up_blocks u) = rev (block_out_channels cfg) /\
    Forall (fun b => db_num_layers b = layers_per_block cfg) (down_blocks u) /\
    Forall (fun b => ub_num_layers b = layers_per_block cfg + 1)
           (up_blocks u) /\
    latent_conv_in u
      = mkConv2d 4 (nth 2 (block_out_channels cfg) 0) 1 0 1 true /\
    produced_count u
      = length (block_out_channels cfg) * (layers_per_block cfg + 1) /\
    consumed_count u
      = length (block_out_channels cfg) * (layers_per_block cfg + 1).
Proof.
  intros Hrun Hd Hu.
  pose proof (init_some_three cfg u Hrun) as H3.
  destruct (init_schedule cfg H3 Hd Hu) as [u' [Hrun' Hlayout]].
  assert (Heq : u' = u) by congruence. subst u'.
  split; assumption.
Qed.

Lemma UNet1024_init_schedule_witness :
  exists u,
    UNet1024_init (default_config 3 4) = Some u /\
    map db_out_channels (down_blocks u) = [32; 32; 64; 128; 256; 512; 512] /\
    map ub_out_channels (up_blocks u) = [512; 512; 256; 128; 64; 32; 32] /\
    produced_count u = 21 /\ consumed_count u = 21.
Proof.
  destruct (UNet1024_init (default_config 3 4)) as [u|] eqn:Hrun;
    [|vm_compute in Hrun; discriminate Hrun].
  exists u. split; [reflexivity|].
  destruct (UNet1024_init_schedule (default_config 3 4) u Hrun)
    as [_ [_ [_ [Hd [_ [Hu [_ [_ [_ [Hp Hc]]]]]]]]]].
  - reflexivity.
  - reflexivity.
  - repeat split; assumption.
Defined.

(** X10: in every network that __init__ returns from a configuration whose
    widths, down types and up types have one length L, and whatever the
    layers compute, forward never finds the skip stack short:
    the skip stack holds L * (layers_per_block + 1) tensors after the
    encoder, the decoder takes them all in the reverse of the order of
    production, and none is left. *)
Theorem forward_balanced_for_configs (cfg : UNetConfig) (u : UNet1024) :
  UNet1024_init cfg = Some u ->
  length (down_block_types cfg) = length (block_out_channels cfg) ->
  length (up_block_types cfg) = length (block_out_channels cfg) ->
    forall (F : Type) (L : Layers F) (x latent : F),
    exists tr,
      forward_traced F L u x latent = Some tr /\
      length (produced tr)
        = length (block_out_channels cfg) * (layers_per_block cfg + 1) /\
      Forall (fun h => length h = layers_per_block cfg + 1) (handed tr) /\
      taken_in_order tr = rev (produced tr) /\
      leftover tr = [].
Proof.
  intros Hinit Hd Hu.
  pose proof (init_some_three cfg u Hinit) as H3.
  destruct (init_schedule cfg H3 Hd Hu)
    as [u' [Hrun [_ [_ [_ [_ [_ [_ [Hun [_ [Hp Hc]]]]]]]]]]].
  assert (Heq : u' = u) by congruence. subst u'.
  intros F L x latent.
  destruct (forward_traced_balanced F L u x latent)
    as [tr [Htr [Hlen [Hhand [_ [Htaken Hleft]]]]]].
  - intros blk Hblk. rewrite Forall_forall in Hun.
    rewrite (Hun blk Hblk). lia.
  - congruence.
  - exists tr. repeat split; try assumption; try congruence.
    apply Forall_forall. intros h Hh.
    apply (in_map (@length F)) in Hh. rewrite Hhand in Hh.
    apply in_map_iff in Hh. destruct Hh as [blk [<- Hblk]].
    rewrite Forall_forall in Hun. now apply Hun.
Qed.

Lemma forward_balanced_for_configs_witness :
  exists u,
    UNet1024_init (default_config 3 4) = Some u /\
    exists tr,
      forward_traced Z counting_layers u 1%Z 1%Z = Some tr /\
      length (produced tr) = 21 /\ leftover tr = [].
Proof.
  destruct (UNet1024_init (default_config 3 4)) as [u|] eqn:Hrun;
    [|vm_compute in Hrun; discriminate Hrun].
  exists u. split; [reflexivity|].
  destruct (forward_balanced_for_configs (default_config 3 4) u Hrun
              eq_refl eq_refl Z counting_layers 1%Z 1%Z)
    as [tr [Htr [Hlen [_ [_ Hleft]]]]].
  exists tr. repeat split; assumption.
Defined.

(** X11: construction indexes the schedule of widths and cannot return a
    network when it is too short: with fewer than three widths (the latent
    projection reads the third), with more down types than widths, or with
    more up types than widths, it raises, by the IndexError of the index
    that is out of range unless a layer constructor has raised before. *)
Theorem UNet1024_init_short_schedule (cfg : UNetConfig) :
  length (block_out_channels cfg) < 3 \/
  length (block_out_channels cfg) < length (down_block_types cfg) \/
  length (block_out_channels cfg) < length (up_block_types cfg) ->
  UNet1024_init cfg = None.
Proof.
  intros H. unfold UNet1024_init.
  destruct (nth_error (block_out_channels cfg) 0) as [c0|]; [|reflexivity].
  destruct (nth_error (block_out_channels cfg) 2) as [c2|] eqn:Hc2;
    [|reflexivity].
  destruct (py_last (block_out_channels cfg)) as [cl|]; [|reflexivity].
  assert (H2 : 2 < length (block_out_channels cfg))
    by (apply nth_error_Some; congruence).
  destruct H as [H | [H | H]]; [lia | |].
  - unfold enumerate. rewrite init_down_blocks_overflow; [reflexivity | lia | lia].
  - destruct (init_down_blocks cfg _ c0) as [downs|]; [|reflexivity].
    destruct (nth_error (rev (block_out_channels cfg)) 0) as [r0|];
      [|reflexivity].
    unfold enumerate.
    rewrite init_up_blocks_overflow; [reflexivity | lia | lia].
Qed.

Lemma UNet1024_init_short_schedule_witness :
  UNet1024_init short_config = None /\ UNet1024_init long_config = None.
Proof.
  split.
  - apply (UNet1024_init_short_schedule short_config). left. simpl. lia.
  - apply (UNet1024_init_short_schedule long_config). right. left. simpl. lia.
Defined.

(** ** Failures of the network, and what a decode call does outside *)

Lemma augmented_pass_fails (self : TransparentVAEDecoder)
      (pixel latent : tensor) (a : bool * Z) (e : error) (log : list event) :
  model self (augment (fst a) (snd a) pixel) (augment (fst a) (snd a) latent)
    = inl e ->
  augmented_pass self pixel latent a log =
  (log ++ [forward_event pixel latent a], inl e).
Proof.
  destruct a as [flip rok]. simpl. intros He.
  unfold augmented_pass, estimate_single_pass, bind, emit, lift, ret.
  now rewrite He.
Qed.

Lemma for_each_stops {A B : Type} (f : A -> M B) (ev : A -> event)
      (pre post : list A) (a : A) (e : error) :
  (forall a', In a' pre ->
     forall log, exists b, f a' log = (log ++ [ev a'], inr b)) ->
  (forall log, f a log = (log ++ [ev a], inl e)) ->
  forall log,
    for_each f (pre ++ a :: post) log = (log ++ map ev (pre ++ [a]), inl e).
Proof.
  intros Hpre Ha. induction pre as [|a0 pre IH]; intros log.
  - simpl. unfold bind. now rewrite Ha.
  - simpl. unfold bind.
    destruct (Hpre a0 (or_introl eq_refl) log) as [b Hb]. rewrite Hb.
    rewrite IH by (intros a' Ha'; apply Hpre; now right).
    now rewrite <- app_assoc.
Qed.

(** X12: when the network raises on one of the eight feeds, after answering
    the feeds before it, decode_pixel raises the same error unchanged; the
    feeds after the failing one are not run, and the result is not moved
    back to the device of the input. *)
Theorem network_error_propagates (self : TransparentVAEDecoder)
        (pixel latent : tensor) (log : list event)
        (pre post : list (bool * Z)) (a : bool * Z) (e : error) :
  dim1 pixel = 3 ->
  args = pre ++ a :: post ->
  let pixel' := to_tensor (load_device self) (self_dtype self) pixel in
  let latent' := to_tensor (load_device self) (self_dtype self) latent in
  (forall a', In a' pre ->
     exists y, model self (augment (fst a') (snd a') pixel')
                          (augment (fst a') (snd a') latent') = inr y) ->
  model self (augment (fst a) (snd a) pixel') (augment (fst a) (snd a) latent')
    = inl e ->
  decode_pixel self pixel latent log =
  (((log ++ [EvTo (load_device self) (self_dtype self)])
      ++ [EvTo (load_device self) (self_dtype self)])
     ++ map (forward_event pixel' latent') (pre ++ [a]),
   inl e).
Proof.
  intros Hc Hargs pixel' latent' Hpre Ha.
  rewrite decode_pixel_unfold by assumption. fold pixel' latent'.
  unfold estimate_augmented, ensemble, bind. rewrite Hargs.
  rewrite (for_each_stops (augmented_pass self pixel' latent')
             (forward_event pixel' latent') pre post a e).
  - reflexivity.
  - intros a' Ha' log0. destruct (Hpre a' Ha') as [y Hy].
    eexists. exact (augmented_pass_run _ _ _ _ _ _ Hy).
  - intros log0. now apply augmented_pass_fails.
Qed.

Lemma network_error_propagates_witness :
  decode_pixel landscape_decoder toy_pixel toy_latent [] =
  ([EvTo (Cuda 0) Float16; EvTo (Cuda 0) Float16;
    EvForward (1, 3, 2, 3) (1, 4, 1, 1);
    EvForward (1, 3, 3, 2) (1, 4, 1, 1)],
   inl (BackendError 7)).
Proof.
  apply (network_error_propagates landscape_decoder toy_pixel toy_latent []
           [(false, 0%Z)]
           [(false, 2%Z); (false, 3%Z);
            (true, 0%Z); (true, 1%Z); (true, 2%Z); (true, 3%Z)]
           (false, 1%Z) (BackendError 7)).
  - reflexivity.
  - reflexivity.
  - intros a' [<- | []]. eexists. reflexivity.
  - reflexivity.
Defined.

Lemma Forall2_of_exists {A B : Type} (R : A -> B -> Prop) (l : list A) :
  (forall a, In a l -> exists b, R a b) -> exists bs, Forall2 R l bs.
Proof.
  induction l as [|a l IH]; intros H.
  - exists []. constructor.
  - destruct (H a (or_introl eq_refl)) as [b Hb].
    destruct (IH (fun a' Ha' => H a' (or_intror Ha'))) as [bs Hbs].
    exists (b :: bs). now constructor.
Qed.

Lemma network_ok_answers (self : TransparentVAEDecoder) (p l : tensor) :
  network_ok self p l = true -> exists y, model self p l = inr y.
Proof.
  unfold network_ok. destruct (model self p l) as [e | y]; [discriminate|].
  eauto.
Qed.

Lemma estimate_augmented_log (self : TransparentVAEDecoder)
      (pixel latent : tensor) (log : list event) :
  fst (estimate_augmented self pixel latent log)
  = fst (for_each (augmented_pass self pixel latent) args log).
Proof.
  unfold estimate_augmented, ensemble, bind, lift.
  destruct (for_each (augmented_pass self pixel latent) args log)
    as [log' [e | result]]; [reflexivity|].
  destruct (stack result) as [e | st]; [reflexivity|].
  now destruct (any_nan st || any_inf st).
Qed.

(** X13: a successful decode call does exactly this to the outside, in this
    order: it moves pixel and latent to the decoder's device and dtype, runs
    the network eight times, once per descriptor of args in their order on
    the transformed pair, and moves the result to the device and dtype the
    pixel input came with. *)
Theorem decode_pixel_events (self : TransparentVAEDecoder)
        (pixel latent : tensor) (log : list event) :
  valid_pair self pixel latent = true ->
  let pixel' := to_tensor (load_device self) (self_dtype self) pixel in
  let latent' := to_tensor (load_device self) (self_dtype self) latent in
  fst (decode_pixel self pixel latent log) =
    log ++ [EvTo (load_device self) (self_dtype self);
            EvTo (load_device self) (self_dtype self)]
        ++ map (forward_event pixel' latent') args
        ++ [EvTo (t_device pixel) (t_dtype pixel)] /\
  length (map (forward_event pixel' latent') args) = 8.
Proof.
  intros Hvalid pixel' latent'. split; [|reflexivity].
  unfold valid_pair in Hvalid.
  rewrite !andb_true_iff, Nat.eqb_eq, forallb_forall in Hvalid.
  destruct Hvalid as [[Hok Hc] Hnet]. fold pixel' latent' in Hnet.
  set (log2 := (log ++ [EvTo (load_device self) (self_dtype self)])
                 ++ [EvTo (load_device self) (self_dtype self)]).
  destruct (estimate_augmented_valid self pixel' latent' log2 Hnet)
    as [log1 [y0 [Hrun [Hshape _]]]].
  assert (Hlog1 : log1 = log2 ++ map (forward_event pixel' latent') args).
  { pose proof (estimate_augmented_log self pixel' latent' log2) as Hl.
    rewrite Hrun in Hl. cbn [fst] in Hl. rewrite Hl.
    destruct (Forall2_of_exists
                (fun a y =>
                   model self (augment (fst a) (snd a) pixel')
                              (augment (fst a) (snd a) latent') = inr y)
                args) as [ys Hys].
    { intros a Ha. apply network_ok_answers. now apply Hnet. }
    rewrite (for_each_Forall2 (augmented_pass self pixel' latent')
               (forward_event pixel' latent') args
               (zip_with (fun a y => unaugment (fst a) (snd a) (clip01 y))
                         args ys)).
    - reflexivity.
    - apply Forall2_zip_with with (2 := Hys).
      intros a y Hy log0. now apply augmented_pass_run. }
  rewrite decode_pixel_unfold by assumption. fold pixel' latent' log2.
  rewrite Hrun.
  unfold t_shape in Hshape. injection Hshape as _ H4 _ _. rewrite H4.
  simpl fst. rewrite Hlog1. unfold log2.
  rewrite <- !app_assoc. reflexivity.
Qed.

Lemma decode_pixel_events_witness :
  fst (decode_pixel (flat_decoder (Num half)) toy_pixel toy_latent []) =
  [EvTo (Cuda 0) Float16; EvTo (Cuda 0) Float16;
   EvForward (1, 3, 2, 3) (1, 4, 1, 1); EvForward (1, 3, 3, 2) (1, 4, 1, 1);
   EvForward (1, 3, 2, 3) (1, 4, 1, 1); EvForward (1, 3, 3, 2) (1, 4, 1, 1);
   EvForward (1, 3, 2, 3) (1, 4, 1, 1); EvForward (1, 3, 3, 2) (1, 4, 1, 1);
   EvForward (1, 3, 2, 3) (1, 4, 1, 1); EvForward (1, 3, 3, 2) (1, 4, 1, 1);
   EvTo Cpu Float32].
Proof.
  apply (proj1 (decode_pixel_events (flat_decoder (Num half))
                  toy_pixel toy_latent []
                  ltac:(vm_compute; reflexivity))).
Defined.

(** ** The ensemble of an equivariant network *)

Lemma clip01_zero : vclip01 zero = zero.
Proof. reflexivity. Qed.

Lemma map_plane_transpose (f : val -> val) (w : nat) (m : plane) :
  f zero = zero ->
  map (map f) (transpose_plane w m) = transpose_plane w (map (map f) m).
Proof.
  intros Hz. unfold transpose_plane. rewrite map_map.
  apply map_ext. intros j. rewrite !map_map.
  apply map_ext. intros r.
  rewrite <- Hz at 2. now rewrite map_nth.
Qed.

Lemma clip01_flip3 (t : tensor) : clip01 (flip3 t) = flip3 (clip01 t).
Proof.
  destruct t as [b c h w dv dt d]. unfold clip01, flip3, map4; simpl. f_equal.
  rewrite !map_map_compose. apply map_ext. intros x.
  apply map_ext. intros m. rewrite !map_map.
  apply map_ext. intros r. apply map_rev.
Qed.

Lemma clip01_flip2 (t : tensor) : clip01 (flip2 t) = flip2 (clip01 t).
Proof.
  destruct t as [b c h w dv dt d]. unfold clip01, flip2, map4; simpl. f_equal.
  rewrite !map_map_compose. apply map_ext. intros x.
  apply map_ext. intros m. apply map_rev.
Qed.

Lemma clip01_transpose23 (t : tensor) :
  clip01 (transpose23 t) = transpose23 (clip01 t).
Proof.
  destruct t as [b c h w dv dt d].
  unfold clip01, transpose23, map4; simpl. f_equal.
  rewrite !map_map_compose. apply map_ext. intros x.
  apply map_ext. intros m. apply map_plane_transpose, clip01_zero.
Qed.

Lemma clip01_rot90 (k : Z) (t : tensor) :
  clip01 (rot90 k t) = rot90 k (clip01 t).
Proof.
  unfold rot90. destruct (rot90_steps k) as [|p|p]; try reflexivity.
  destruct p as [[|p|]|[|p|]|]; try reflexivity.
  - now rewrite clip01_transpose23, clip01_flip2.
  - now rewrite clip01_flip2, clip01_flip3.
  - now rewrite clip01_transpose23, clip01_flip3.
Qed.

Lemma clip01_augment (flip : bool) (k : Z) (t : tensor) :
  clip01 (augment flip k t) = augment flip k (clip01 t).
Proof.
  unfold augment, clone. rewrite clip01_rot90.
  destruct flip; [now rewrite clip01_flip3 | reflexivity].
Qed.

Lemma zip_with_map_same {A B C D : Type} (f : B -> C -> D)
      (g : A -> B) (h : A -> C) (l : list A) :
  zip_with f (map g l) (map h l) = map (fun a => f (g a) (h a)) l.
Proof. induction l as [|a l IH]; simpl; [reflexivity | now rewrite IH]. Qed.

Lemma zip4_map4_same (f : val -> val -> val) (g : val -> val) (d : data4) :
  zip4 f (map4 g d) d = map4 (fun v => f (g v) v) d.
Proof.
  unfold zip4, map4.
  rewrite <- (map_id d) at 2. rewrite zip_with_map_same.
  apply map_ext. intros x.
  rewrite <- (map_id x) at 2. rewrite zip_with_map_same.
  apply map_ext. intros m.
  rewrite <- (map_id m) at 2. rewrite zip_with_map_same.
  apply map_ext. intros r.
  rewrite <- (map_id r) at 2. now rewrite zip_with_map_same.
Qed.

Lemma fold_zip4_copies (n : nat) (g : val -> val) (d : data4) :
  fold_left (zip4 vadd) (repeat d n) (map4 g d)
  = map4 (fun v => Nat.iter n (fun acc => vadd acc v) (g v)) d.
Proof.
  revert g. induction n as [|n IH]; intros g; simpl.
  - reflexivity.
  - rewrite zip4_map4_same, IH.
    unfold map4. apply map_ext. intros x. apply map_ext. intros m.
    apply map_ext. intros r. apply map_ext. intros v.
    clear. induction n as [|n IHn]; simpl; [reflexivity|].
    now rewrite IHn.
Qed.

Lemma map4_id_in (P : val -> bool) (f : val -> val) (d : data4) :
  (forall v, P v = true -> f v = v) ->
  forall4 P d = true -> map4 f d = d.
Proof.
  intros Hf. unfold forall4, map4. rewrite forallb_forall. intros Hd.
  rewrite <- (map_id d) at 2. apply map_ext_in. intros x Hx.
  specialize (Hd x Hx). rewrite forallb_forall in Hd.
  rewrite <- (map_id x) at 2. apply map_ext_in. intros m Hm.
  specialize (Hd m Hm). rewrite forallb_forall in Hd.
  rewrite <- (map_id m) at 2. apply map_ext_in. intros r Hr.
  specialize (Hd r Hr). rewrite forallb_forall in Hd.
  rewrite <- (map_id r) at 2. apply map_ext_in. intros v Hv. auto.
Qed.

Lemma mean_of_eight_copies (v : val) :
  is_finite v = true -> vdiv_count (repeated_sum 7 v) 8 = v.
Proof.
  destruct v as [x| | |]; try discriminate. intros _.
  unfold repeated_sum. simpl. f_equal.
  assert (H8 : Q2Qc (inject_Z 8) = (1 + 1 + 1 + 1 + 1 + 1 + 1 + 1)%Qc)
    by (apply Qc_is_canon; reflexivity).
  rewrite H8. field. intros H. discriminate H.
Qed.

Lemma Forall2_repeat {A B : Type} (R : A -> B -> Prop) (l : list A) (b : B) :
  (forall a, In a l -> R a b) -> Forall2 R l (repeat b (length l)).
Proof.
  induction l as [|a l IH]; intros H; simpl; constructor.
  - apply H. now left.
  - apply IH. intros a' Ha'. apply H. now right.
Qed.

Lemma shape_eqb_refl (s : nat * nat * nat * nat) : shape_eqb s s = true.
Proof. now apply shape_eqb_eq. Qed.

Lemma mean_of_copies (e : tensor) :
  forall4 is_finite (t_data e) = true ->
  exists st,
    stack (repeat e 8) = inr st /\
    any_nan st || any_inf st = false /\
    mean_dim0 st = e.
Proof.
  intros Hfin. eexists. split; [|split].
  - unfold stack. cbn [repeat forallb length map].
    rewrite !shape_eqb_refl. reflexivity.
  - apply finite_stack_clean. cbn [s_data forallb].
    now rewrite !Hfin.
  - destruct e as [b c h w dv dt d]. simpl in Hfin.
    unfold mean_dim0. cbn [s_shape s_device s_dtype s_count s_data t_shape
      dim0 dim1 dim2 dim3 t_device t_dtype t_data sum_dim0].
    f_equal.
    change [d; d; d; d; d; d; d] with (repeat d 7).
    transitivity
      (map4 (fun v => vdiv_count v 8)
         (fold_left (zip4 vadd) (repeat d 7) (map4 (fun v => v) d))).
    + f_equal. f_equal. symmetry.
      apply (map4_id_in (fun _ => true)); [reflexivity|].
      clear. unfold forall4. rewrite forallb_forall. intros x _.
      rewrite forallb_forall. intros m _. rewrite forallb_forall. intros r _.
      now rewrite forallb_forall.
    + rewrite fold_zip4_copies.
      transitivity (map4 (fun v => vdiv_count (repeated_sum 7 v) 8) d).
      * unfold map4. rewrite !map_map. apply map_ext. intros x.
        rewrite !map_map. apply map_ext. intros m.
        rewrite !map_map. apply map_ext. intros r.
        rewrite !map_map. reflexivity.
      * apply (map4_id_in is_finite); [apply mean_of_eight_copies|].
        assumption.
Qed.

Lemma estimate_augmented_equivariant (self : TransparentVAEDecoder)
        (pixel latent y0 : tensor) (log : list event) :
  shape_ok y0 = true ->
  exists4 is_nan (t_data y0) = false ->
  equivariant_on self pixel latent y0 ->
  model self pixel latent = inr y0 /\
  estimate_augmented self pixel latent log =
  (log ++ map (forward_event pixel latent) args, inr (clip01 y0)).
Proof.
  intros Hok Hnan Heq. split.
  { exact (Heq (false, 0%Z) (or_introl eq_refl)). }
  assert (Hpass : forall a, In a args -> forall log0,
               augmented_pass self pixel latent a log0 =
               (log0 ++ [forward_event pixel latent a], inr (clip01 y0))).
  { intros a Ha log0. rewrite (augmented_pass_run _ _ _ _ _ _ (Heq a Ha)).
    rewrite clip01_augment, unaugment_augment; [reflexivity|].
    now apply clip01_shape_ok. }
  pose proof (for_each_Forall2 (augmented_pass self pixel latent)
                (forward_event pixel latent) args
                (repeat (clip01 y0) (length args))
                (Forall2_repeat _ args (clip01 y0) Hpass) log) as Hrun.
  change (length args) with 8 in Hrun.
  destruct (mean_of_copies (clip01 y0)) as [st [Hst [Hclean Hmean]]].
  { apply forall4_weaken with (P := in_unit); [apply in_unit_finite|].
    now apply clip01_in_unit. }
  unfold estimate_augmented, ensemble, bind, lift.
  rewrite Hrun, Hst, Hclean. unfold ret. now rewrite Hmean.
Qed.

(** X14: on a pair where the network is equivariant under the eight
    transforms and its answer is well-shaped and free of NaN, every pass of
    the ensemble gives the same tensor, and estimate_augmented returns the
    clipped answer of the plain forward pass: averaging the ensemble changes
    nothing. *)
Theorem equivariant_ensemble (self : TransparentVAEDecoder)
        (pixel latent y0 : tensor) (log : list event) :
  shape_ok y0 = true ->
  exists4 is_nan (t_data y0) = false ->
  equivariant_on self pixel latent y0 ->
  model self pixel latent = inr y0 /\
  estimate_augmented self pixel latent log =
  (log ++ map (forward_event pixel latent) args, inr (clip01 y0)).
Proof.
  exact (estimate_augmented_equivariant self pixel latent y0 log).
Qed.

Lemma equivariant_ensemble_witness :
  estimate_augmented
    (mkDecoder Cpu Float32 (flat_network (Num half)))
    (const_tensor 1 3 2 2 Cpu Float32 (Num half))
    (const_tensor 1 4 1 1 Cpu Float32 zero) [] =
  (map (forward_event (const_tensor 1 3 2 2 Cpu Float32 (Num half))
                      (const_tensor 1 4 1 1 Cpu Float32 zero)) args,
   inr (clip01 (const_tensor 1 4 2 2 Cpu Float32 (Num half)))).
Proof.
  apply (proj2 (equivariant_ensemble
                  (mkDecoder Cpu Float32 (flat_network (Num half)))
                  (const_tensor 1 3 2 2 Cpu Float32 (Num half))
                  (const_tensor 1 4 1 1 Cpu Float32 zero)
                  (const_tensor 1 4 2 2 Cpu Float32 (Num half)) []
                  ltac:(reflexivity) ltac:(reflexivity)
                  ltac:(intros a Ha;
                        repeat (destruct Ha as [<- | Ha]; [reflexivity|]);
                        destruct Ha))).
Defined.

(** ** The offset encoder on arbitrary shapes *)

Lemma offset_encoder_wrong_channels (b ch h w : nat) :
  ch <> 4 -> offset_encoder_call (b, ch, h, w) = inl RuntimeError_conv.
Proof.
  intros Hch. unfold offset_encoder_call, offset_encoder_blocks.
  cbn [sequential_shape layer_shape conv2d_shape conv_in_channels].
  apply Nat.eqb_neq in Hch. now rewrite Hch.
Qed.

Lemma offset_encoder_empty (b h w : nat) :
  h = 0 \/ w = 0 -> offset_encoder_call (b, 4, h, w) = inl RuntimeError_conv.
Proof.
  intros Hz. unfold offset_encoder_call, offset_encoder_blocks.
  cbn [sequential_shape layer_shape conv2d_shape conv_in_channels
       kernel_size padding Nat.eqb negb].
  destruct Hz as [-> | ->].
  - reflexivity.
  - replace (0 + 2 * 1 <? 3) with true by reflexivity.
    now rewrite orb_true_r.
Qed.

(** X15: a call of the offset encoder succeeds exactly on inputs with 4
    channels and non-empty height and width, giving 4 channels and each
    spatial size divided by 8 and rounded up, with the batch size kept; on
    any other input the first convolution raises.  In particular an input
    of 8h x 8w becomes h x w. *)
Theorem offset_encoder_domain (b ch h w : nat) :
  offset_encoder_call (b, ch, h, w) =
    (if (ch =? 4) && (1 <=? h) && (1 <=? w)
     then inr (b, 4, (h - 1) / 8 + 1, (w - 1) / 8 + 1)
     else inl RuntimeError_conv) /\
  offset_encoder_call (b, 4, 8 * S h, 8 * S w) = inr (b, 4, S h, S w).
Proof.
  assert (Hgen : forall ch0 h0 w0,
             offset_encoder_call (b, ch0, h0, w0) =
             (if (ch0 =? 4) && (1 <=? h0) && (1 <=? w0)
              then inr (b, 4, (h0 - 1) / 8 + 1, (w0 - 1) / 8 + 1)
              else inl RuntimeError_conv)).
  { intros ch0 h0 w0. destruct (Nat.eq_dec ch0 4) as [-> | Hch].
    - destruct h0 as [|h0].
      + now rewrite offset_encoder_empty by now left.
      + destruct w0 as [|w0].
        * rewrite offset_encoder_empty by now right. reflexivity.
        * rewrite offset_encoder_shape.
          cbn [Nat.eqb Nat.leb andb]. now rewrite !Nat.sub_succ, !Nat.sub_0_r.
    - rewrite offset_encoder_wrong_channels by assumption.
      apply Nat.eqb_neq in Hch. now rewrite Hch. }
  split; [apply Hgen|].
  rewrite Hgen.
  replace (1 <=? 8 * S h) with true by (symmetry; apply Nat.leb_le; lia).
  replace (1 <=? 8 * S w) with true by (symmetry; apply Nat.leb_le; lia).
  cbn [Nat.eqb andb].
  replace (8 * S h - 1) with (7 + h * 8) by lia.
  replace (8 * S w - 1) with (7 + w * 8) by lia.
  rewrite !Nat.div_add by lia.
  change (7 / 8) with 0. repeat f_equal; lia.
Qed.

(** ** The checkerboard of the compositor *)





(** ** The compositor keeps images images *)

Lemma qc_leb_le (a b : Qc) : qc_leb a b = true <-> (a <= b)%Qc.
Proof. unfold qc_leb, Qcle. apply Qle_bool_iff. Qed.

Lemma in_unit_qc_iff (c : Qc) :
  in_unit_qc c = true <-> (0 <= c)%Qc /\ (c <= 1)%Qc.
Proof. unfold in_unit_qc. now rewrite andb_true_iff, !qc_leb_le. Qed.

Lemma blend_qc_in_unit (c x y : Qc) :
  in_unit_qc c = true -> in_unit_qc x = true -> in_unit_qc y = true ->
  in_unit_qc (x * y + c * (1 + - y))%Qc = true.
Proof.
  rewrite !in_unit_qc_iff. intros [Hc0 Hc1] [Hx0 Hx1] [Hy0 Hy1].
  assert (Hz : (0 <= 1 + - y)%Qc) by (apply -> Qcle_minus_iff; assumption).
  split.
  - assert (H0 : (0 * y + 0 * (1 + - y) = 0)%Qc) by ring.
    apply Qcle_trans with (0 * y + 0 * (1 + - y))%Qc;
      [rewrite H0; apply Qcle_refl|].
    apply Qcplus_le_compat; now apply Qcmult_le_compat_r.
  - assert (H1 : (1 * y + 1 * (1 + - y) = 1)%Qc) by ring.
    apply Qcle_trans with (1 * y + 1 * (1 + - y))%Qc;
      [|rewrite H1; apply Qcle_refl].
    apply Qcplus_le_compat; now apply Qcmult_le_compat_r.
Qed.

Lemma blend_in_unit (c : Qc) (f a : val) :
  in_unit_qc c = true -> in_unit f = true -> in_unit a = true ->
  in_unit (blend (Num c) f a) = true.
Proof.
  destruct f as [x| | |], a as [y| | |]; try discriminate.
  intros Hc Hx Hy. exact (blend_qc_in_unit c x y Hc Hx Hy).
Qed.

Lemma forallb_firstn {A : Type} (P : A -> bool) (n : nat) (l : list A) :
  forallb P l = true -> forallb P (firstn n l) = true.
Proof.
  revert n. induction l as [|a l IH]; intros [|n]; simpl; auto.
  rewrite !andb_true_iff. intros [Ha Hl]. auto.
Qed.

Lemma forallb_skipn {A : Type} (P : A -> bool) (n : nat) (l : list A) :
  forallb P l = true -> forallb P (skipn n l) = true.
Proof.
  revert n. induction l as [|a l IH]; intros [|n]; simpl; auto.
  rewrite !andb_true_iff. intros [Ha Hl]. auto.
Qed.

Lemma forallb_combine {A B : Type} (P : A -> bool) (Q : B -> bool)
      (l : list A) (l' : list B) :
  forallb P l = true -> forallb Q l' = true ->
  forallb (fun p => P (fst p) && Q (snd p)) (combine l l') = true.
Proof.
  revert l'. induction l as [|a l IH]; intros [|b l']; simpl; auto.
  rewrite !andb_true_iff. intros [Ha Hl] [Hb Hl']. auto.
Qed.

Lemma blend_pixel_in_unit (c : Qc) (fg alpha : list val) :
  in_unit_qc c = true ->
  forallb in_unit fg = true -> forallb in_unit alpha = true ->
  forallb in_unit (blend_pixel c fg alpha) = true.
Proof.
  intros Hc Hfg Ha. unfold blend_pixel.
  destruct alpha as [|a [|a' alpha]]; try reflexivity.
  simpl in Ha. rewrite andb_true_r in Ha.
  revert Hfg. apply forallb_map. intros f Hf. now apply blend_in_unit.
Qed.

Lemma blend_row_in_unit (cb_row : list Qc) (fg_row alpha_row : list (list val)) :
  forallb in_unit_qc cb_row = true ->
  forallb (forallb in_unit) fg_row = true ->
  forallb (forallb in_unit) alpha_row = true ->
  forallb (forallb in_unit) (blend_row cb_row fg_row alpha_row) = true.
Proof.
  intros Hc Hfg Ha. unfold blend_row.
  apply (forallb_zip_with _ _ _ in_unit_qc
           (fun p => forallb in_unit (fst p) && forallb in_unit (snd p))).
  - intros c [f a]. simpl. rewrite andb_true_iff. intros Hc0 [Hf0 Ha0].
    now apply blend_pixel_in_unit.
  - assumption.
  - now apply forallb_combine.
Qed.

Lemma blend_image_in_unit (cb : list (list Qc))
      (fg_img alpha_img : list (list (list val))) :
  forallb (forallb in_unit_qc) cb = true ->
  forallb (forallb (forallb in_unit)) fg_img = true ->
  forallb (forallb (forallb in_unit)) alpha_img = true ->
  forallb (forallb (forallb in_unit)) (blend_image cb fg_img alpha_img) = true.
Proof.
  intros Hc Hfg Ha. unfold blend_image.
  apply (forallb_zip_with _ _ _ (forallb in_unit_qc)
           (fun p => forallb (forallb in_unit) (fst p)
                     && forallb (forallb in_unit) (snd p))).
  - intros c [f a]. simpl. rewrite andb_true_iff. intros Hc0 [Hf0 Ha0].
    now apply blend_row_in_unit.
  - assumption.
  - now apply forallb_combine.
Qed.

Lemma resized_checkerboard_in_unit (H W : nat) :
  64 <= H -> 64 <= W ->
  forallb (forallb in_unit_qc)
    (map (map band)
       (map (fun y =>
               map (fun x =>
                      nth (nearest (W / 64) W x)
                          (nth (nearest (H / 64) H y)
                               (a_cells (checkerboard (H / 64, W / 64))) [])
                          0%Z)
                   (seq 0 W))
            (seq 0 H))) = true.
Proof.
  intros HH HW.
  assert (Hr : 0 < H / 64) by (apply Nat.div_str_pos; lia).
  assert (Hc : 0 < W / 64) by (apply Nat.div_str_pos; lia).
  rewrite map_map. apply forallb_forall. intros row Hrow.
  apply in_map_iff in Hrow. destruct Hrow as [y [<- _]].
  rewrite map_map. apply forallb_forall. intros c Hcell.
  apply in_map_iff in Hcell. destruct Hcell as [x [<- _]].
  rewrite checkerboard_cell by now apply nearest_lt.
  destruct (band_values (nearest (H / 64) H y + nearest (W / 64) W x))
    as [-> | ->]; reflexivity.
Qed.

Lemma blend_pixel_length (c : Qc) (px1 px2 : list val) (ch : nat) :
  length px1 = ch -> length px2 = ch ->
  length (blend_pixel c (skipn 1 px1) (firstn 1 px2)) = ch - 1.
Proof.
  intros H1 H2. destruct px2 as [|a px2].
  - simpl in *. lia.
  - change (firstn 1 (a :: px2)) with [a]. unfold blend_pixel.
    rewrite length_map, length_skipn. lia.
Qed.

Lemma blend_row_shape (cb_row : list Qc) (row1 row2 : list (list val))
      (w ch : nat) :
  length cb_row = w ->
  length row1 = w -> (forall px, In px row1 -> length px = ch) ->
  length row2 = w -> (forall px, In px row2 -> length px = ch) ->
  length (blend_row cb_row (map (skipn 1) row1) (map (firstn 1) row2)) = w /\
  forall r,
    In r (blend_row cb_row (map (skipn 1) row1) (map (firstn 1) row2)) ->
    length r = ch - 1.
Proof.
  intros Hc H1 Hp1 H2 Hp2. unfold blend_row. split.
  - rewrite zip_with_length, length_combine, !length_map. lia.
  - intros r Hr. apply zip_with_in in Hr.
    destruct Hr as [c [[f a] [_ [Hfa ->]]]].
    pose proof (in_combine_l _ _ _ _ Hfa) as Hf.
    pose proof (in_combine_r _ _ _ _ Hfa) as Ha.
    apply in_map_iff in Hf. destruct Hf as [px1 [<- Hpx1]].
    apply in_map_iff in Ha. destruct Ha as [px2 [<- Hpx2]].
    simpl. apply blend_pixel_length; auto.
Qed.

Lemma blend_image_shape (cb : list (list Qc))
      (img1 img2 : list (list (list val))) (h w ch : nat) :
  length cb = h -> (forall r, In r cb -> length r = w) ->
  length img1 = h ->
  (forall row, In row img1 ->
     length row = w /\ forall px, In px row -> length px = ch) ->
  length img2 = h ->
  (forall row, In row img2 ->
     length row = w /\ forall px, In px row -> length px = ch) ->
  let x := blend_image cb (map (map (skipn 1)) img1)
                          (map (map (firstn 1)) img2) in
  length x = h /\
  forall m, In m x -> length m = w /\ forall r, In r m -> length r = ch - 1.
Proof.
  intros Hc Hcw H1 Hr1 H2 Hr2 x. unfold x, blend_image. split.
  - rewrite zip_with_length, length_combine, !length_map. lia.
  - intros m Hm. apply zip_with_in in Hm.
    destruct Hm as [cb_row [[f a] [Hcb [Hfa ->]]]].
    pose proof (in_combine_l _ _ _ _ Hfa) as Hf.
    pose proof (in_combine_r _ _ _ _ Hfa) as Ha.
    apply in_map_iff in Hf. destruct Hf as [row1 [<- Hrow1]].
    apply in_map_iff in Ha. destruct Ha as [row2 [<- Hrow2]].
    simpl. destruct (Hr1 row1 Hrow1) as [Hw1 Hp1].
    destruct (Hr2 row2 Hrow2) as [Hw2 Hp2].
    apply blend_row_shape; auto.
Qed.

Lemma composite_data_ok (cb : list (list Qc)) (bn h w ch : nat) (d : data4) :
  data_ok bn h w ch d = true ->
  length cb = h -> (forall r, In r cb -> length r = w) ->
  data_ok bn h w (ch - 1)
    (zip_with (blend_image cb)
       (map (map (map (skipn 1))) d) (map (map (map (firstn 1))) d)) = true.
Proof.
  intros Hd Hc Hcw. apply data_ok_iff. apply data_ok_iff in Hd.
  destruct Hd as [Hb Hd]. unfold data4, plane in *. split.
  - rewrite zip_with_length, !length_map. lia.
  - intros x Hx. apply zip_with_in in Hx.
    destruct Hx as [f [a [Hf [Ha ->]]]].
    apply in_map_iff in Hf. destruct Hf as [img1 [<- Himg1]].
    apply in_map_iff in Ha. destruct Ha as [img2 [<- Himg2]].
    destruct (Hd img1 Himg1) as [Hh1 Hr1].
    destruct (Hd img2 Himg2) as [Hh2 Hr2].
    apply (blend_image_shape cb img1 img2 h w ch); auto.
Qed.

Lemma forall4_slices (d : data4) :
  forall4 in_unit d = true ->
  forallb (forallb (forallb (forallb in_unit)))
          (map (map (map (skipn 1))) d) = true /\
  forallb (forallb (forallb (forallb in_unit)))
          (map (map (map (firstn 1))) d) = true.
Proof.
  unfold forall4. intros H. split; revert H;
    apply forallb_map; intros x; apply forallb_map; intros m;
    apply forallb_map; intros r.
  - apply forallb_skipn.
  - apply forallb_firstn.
Qed.

(** X17: the compositor keeps images images: on a well-shaped input at
    least 64 pixels high and wide whose values all lie in [0, 1], it returns
    a well-shaped tensor with one channel less, on the device and in the
    dtype of the input, whose values all lie in [0, 1]. *)
Theorem composite_in_unit (y : tensor) :
  shape_ok y = true -> 64 <= dim1 y -> 64 <= dim2 y ->
  forall4 in_unit (t_data y) = true ->
  exists vis,
    fill_checkerboard_bg y = inr vis /\
    t_shape vis = (dim0 y, dim1 y, dim2 y, dim3 y - 1) /\
    shape_ok vis = true /\
    t_device vis = t_device y /\ t_dtype vis = t_dtype y /\
    forall4 in_unit (t_data vis) = true.
Proof.
  intros Hok HH HW Hunit. unfold fill_checkerboard_bg.
  unfold t_shape.
  cbn [fg_of alpha_of dim0 dim1 dim2 dim3 t_data t_device t_dtype].
  rewrite resize_checkerboard by assumption. cbn [a_cells].
  eexists. split; [reflexivity|].
  unfold shape_ok. cbn [dim0 dim1 dim2 dim3 t_device t_dtype t_data].
  repeat split.
  - apply composite_data_ok; [assumption | |].
    + now rewrite !length_map, length_seq.
    + intros r Hr. apply in_map_iff in Hr. destruct Hr as [r0 [<- Hr0]].
      apply in_map_iff in Hr0. destruct Hr0 as [i0 [<- _]].
      now rewrite !length_map, length_seq.
  - destruct (forall4_slices (t_data y) Hunit) as [Hfg Halpha].
    unfold forall4.
    apply (forallb_zip_with _ _ _
             (forallb (forallb (forallb in_unit)))
             (forallb (forallb (forallb in_unit)))); try assumption.
    intros f a Hf Ha. apply blend_image_in_unit; try assumption.
    now apply resized_checkerboard_in_unit.
Qed.

Lemma composite_in_unit_witness :
  exists vis,
    fill_checkerboard_bg opaque_image = inr vis /\
    t_shape vis = (1, 64, 64, 3) /\
    shape_ok vis = true /\
    t_device vis = Cpu /\ t_dtype vis = Float32 /\
    forall4 in_unit (t_data vis) = true.
Proof.
  apply (composite_in_unit opaque_image).
  - vm_compute. reflexivity.
  - simpl. lia.
  - simpl. lia.
  - vm_compute. reflexivity.
Defined.

(** ** What the NaN check can and cannot see *)

Lemma for_each_inr_all {A B : Type} (f : A -> M B) (P : B -> Prop)
      (l : list A) :
  (forall a log log' b, f a log = (log', inr b) -> P b) ->
  forall log log' bs, for_each f l log = (log', inr bs) -> Forall P bs.
Proof.
  intros Hf. induction l as [|a l IH]; intros log log' bs; simpl.
  - unfold ret. intros [= _ <-]. constructor.
  - unfold bind, ret.
    destruct (f a log) as [log1 [e | b]] eqn:Hb; [discriminate|].
    destruct (for_each f l log1) as [log2 [e | bs']] eqn:Hbs; [discriminate|].
    intros [= _ <-]. constructor; [eapply Hf | eapply IH]; eassumption.
Qed.

Lemma augmented_pass_inr (self : TransparentVAEDecoder)
      (pixel latent : tensor) (a : bool * Z) (log log' : list event)
      (eps : tensor) :
  augmented_pass self pixel latent a log = (log', inr eps) ->
  exists y, eps = unaugment (fst a) (snd a) (clip01 y).
Proof.
  destruct a as [flip rok].
  unfold augmented_pass, estimate_single_pass, bind, emit, lift, ret.
  destruct (model self _ _) as [e | y]; [discriminate|].
  intros [= _ <-]. now exists y.
Qed.

Lemma ensemble_clipped (self : TransparentVAEDecoder) (pixel latent : tensor)
      (log log' : list event) (st : stacked) :
  ensemble self pixel latent log = (log', inr st) ->
  forallb (forall4 clipped) (s_data st) = true.
Proof.
  intros He. destruct (ensemble_inr _ _ _ _ _ _ He) as [result [Hrun Hst]].
  destruct (stack_inr _ _ Hst) as [t [rest [_ [_ ->]]]]. simpl s_data.
  pose proof (for_each_inr_all (augmented_pass self pixel latent)
                (fun e => forall4 clipped (t_data e) = true) args) as Hall.
  specialize (Hall (fun a l0 l1 b Hb =>
    match augmented_pass_inr self pixel latent a l0 l1 b Hb with
    | ex_intro _ y Hy =>
        eq_ind_r (fun e => forall4 clipped (t_data e) = true)
          (forall4_unaugment clipped (fst a) (snd a) (clip01 y) eq_refl
             (clip01_clipped y)) Hy
    end) log log' result Hrun).
  apply forallb_forall. intros d Hd. apply in_map_iff in Hd.
  destruct Hd as [e [<- He']]. rewrite Forall_forall in Hall. now apply Hall.
Qed.

Lemma clipped_not_inf (d : data4) :
  forall4 clipped d = true -> exists4 is_inf d = false.
Proof.
  unfold exists4, forall4.
  apply forallb_existsb_false. intros x.
  apply forallb_existsb_false. intros m.
  apply forallb_existsb_false. intros r.
  apply forallb_existsb_false. intros v. now destruct v.
Qed.

Lemma clipped_no_nan_in_unit (d : data4) :
  forall4 clipped d = true -> exists4 is_nan d = false ->
  forall4 in_unit d = true.
Proof.
  unfold exists4, forall4, clipped. revert d.
  assert (H1 : forall r : list val,
             forallb (fun v => in_unit v || is_nan v) r = true ->
             existsb is_nan r = false -> forallb in_unit r = true).
  { induction r as [|v r IH]; simpl; auto.
    rewrite !andb_true_iff, orb_false_iff. intros [Hv Hr] [Hn Hrn].
    rewrite Hn, orb_false_r in Hv. auto. }
  assert (H2 : forall m : plane,
             forallb (forallb (fun v => in_unit v || is_nan v)) m = true ->
             existsb (existsb is_nan) m = false ->
             forallb (forallb in_unit) m = true).
  { induction m as [|r m IH]; simpl; auto.
    rewrite !andb_true_iff, orb_false_iff. intros [Hv Hr] [Hn Hrn]. auto. }
  assert (H3 : forall x : list plane,
             forallb (forallb (forallb (fun v => in_unit v || is_nan v))) x
               = true ->
             existsb (existsb (existsb is_nan)) x = false ->
             forallb (forallb (forallb in_unit)) x = true).
  { induction x as [|m x IH]; simpl; auto.
    rewrite !andb_true_iff, orb_false_iff. intros [Hv Hr] [Hn Hrn]. auto. }
  induction d as [|x d IH]; simpl; auto.
  rewrite !andb_true_iff, orb_false_iff. intros [Hv Hr] [Hn Hrn]. auto.
Qed.

Lemma ensemble_no_inf (self : TransparentVAEDecoder) (pixel latent : tensor)
      (log log' : list event) (st : stacked) :
  ensemble self pixel latent log = (log', inr st) -> any_inf st = false.
Proof.
  intros He. pose proof (ensemble_clipped _ _ _ _ _ _ He) as Hc.
  unfold any_inf. revert Hc. apply forallb_existsb_false.
  apply clipped_not_inf.
Qed.

(** X18: the infinity half of the check can never fire: whatever the network
    answers, no value of the stacked tensor is infinite, because every
    answer is clipped first; so estimate_augmented raises its ValueError
    exactly when the stacked tensor holds a NaN, and an infinite network
    output alone is averaged as 0 or 1 without any error. *)
Theorem inf_check_never_fires (self : TransparentVAEDecoder)
        (pixel latent : tensor) (log log' : list event) (st : stacked) :
  ensemble self pixel latent log = (log', inr st) ->
  any_inf st = false /\
  (estimate_augmented self pixel latent log = (log', inl ValueError_nan_inf)
   <-> any_nan st = true) /\
  (any_nan st = false ->
   estimate_augmented self pixel latent log = (log', inr (mean_dim0 st))).
Proof.
  intros He. pose proof (ensemble_no_inf _ _ _ _ _ _ He) as Hinf.
  pose proof (estimate_augmented_cases _ _ _ _ _ _ He) as Hcases.
  rewrite Hinf, orb_false_r in Hcases.
  split; [assumption|]. split.
  - destruct (any_nan st); rewrite Hcases; split; congruence.
  - intros Hn. now rewrite Hn in Hcases.
Qed.

Lemma inf_check_never_fires_witness :
  exists log' y,
    estimate_augmented (mkDecoder Cpu Float32 (spiked_network PInf))
      dot_pixel dot_latent [] = (log', inr y) /\
    get y 0 0 0 0 = Num 1%Qc.
Proof.
  destruct (ensemble (mkDecoder Cpu Float32 (spiked_network PInf))
              dot_pixel dot_latent []) as [log' [e | st]] eqn:He.
  - vm_compute in He. discriminate He.
  - exists log', (mean_dim0 st).
    destruct (inf_check_never_fires _ _ _ _ _ _ He) as [_ [_ Hok]].
    split.
    + apply Hok. vm_compute in He. injection He as _ <-. reflexivity.
    + vm_compute in He. injection He as _ <-.
      vm_compute. f_equal. apply Qc_is_canon. reflexivity.
Defined.

(** ** A NaN of the network reaches the check *)

Lemma is_nan_vclip01 (v : val) : is_nan (vclip01 v) = is_nan v.
Proof. now destruct v. Qed.

Lemma exists4_map4 (P Q : val -> bool) (f : val -> val) (d : data4) :
  (forall v, P (f v) = Q v) -> exists4 P (map4 f d) = exists4 Q d.
Proof.
  intros H. unfold exists4, map4.
  induction d as [|x d IHd]; simpl; [reflexivity|]. rewrite IHd. f_equal.
  induction x as [|m x IHx]; simpl; [reflexivity|]. rewrite IHx. f_equal.
  induction m as [|r m IHm]; simpl; [reflexivity|]. rewrite IHm. f_equal.
  induction r as [|v r IHr]; simpl; [reflexivity|]. now rewrite IHr, H.
Qed.

Lemma forall4_negb_exists4 (P : val -> bool) (d : data4) :
  forall4 (fun v => negb (P v)) d = negb (exists4 P d).
Proof.
  unfold exists4, forall4.
  induction d as [|x d IHd]; simpl; [reflexivity|].
  rewrite IHd, negb_orb. f_equal.
  induction x as [|m x IHx]; simpl; [reflexivity|].
  rewrite IHx, negb_orb. f_equal.
  induction m as [|r m IHm]; simpl; [reflexivity|].
  rewrite IHm, negb_orb. f_equal.
  induction r as [|v r IHr]; simpl; [reflexivity|].
  now rewrite IHr, negb_orb.
Qed.

Lemma augment_unaugment (flip : bool) (k : Z) (t : tensor) :
  shape_ok t = true -> augment flip k (unaugment flip k t) = t.
Proof.
  intros Hok. unfold augment, unaugment, clone.
  assert (Hback : forall u, shape_ok u = true -> rot90 k (rot90 (- k) u) = u).
  { intros u Hu. rewrite <- (Z.opp_involutive k) at 1.
    now apply rot90_inverse. }
  destruct flip.
  - rewrite flip3_involutive. now apply Hback.
  - now apply Hback.
Qed.

Lemma forall4_augment (P : val -> bool) (flip : bool) (k : Z) (t : tensor) :
  P zero = true ->
  forall4 P (t_data t) = true ->
  forall4 P (t_data (augment flip k t)) = true.
Proof.
  intros Hz Ht. unfold augment, clone. apply forall4_rot90; [assumption|].
  destruct flip; [now apply forall4_flip3 | assumption].
Qed.

Lemma nan_unaugment (flip : bool) (k : Z) (t : tensor) :
  shape_ok t = true ->
  exists4 is_nan (t_data (unaugment flip k t)) = exists4 is_nan (t_data t).
Proof.
  intros Hok.
  pose proof (forall4_negb_exists4 is_nan (t_data (unaugment flip k t))) as H1.
  pose proof (forall4_negb_exists4 is_nan (t_data t)) as H2.
  destruct (exists4 is_nan (t_data t)) eqn:Et;
    destruct (exists4 is_nan (t_data (unaugment flip k t))) eqn:Eu;
    try reflexivity; simpl in H1, H2.
  - pose proof (forall4_augment (fun v => negb (is_nan v)) flip k
                  (unaugment flip k t) eq_refl H1) as H3.
    rewrite augment_unaugment in H3 by assumption. congruence.
  - pose proof (forall4_unaugment (fun v => negb (is_nan v)) flip k t
                  eq_refl H2) as H3.
    congruence.
Qed.

Lemma nan_of_pass (flip : bool) (k : Z) (y : tensor) :
  shape_ok y = true ->
  exists4 is_nan (t_data (unaugment flip k (clip01 y)))
  = exists4 is_nan (t_data y).
Proof.
  intros Hok. rewrite nan_unaugment by now apply clip01_shape_ok.
  unfold clip01; simpl. apply exists4_map4, is_nan_vclip01.
Qed.

Lemma any_nan_of_answers (l : list (bool * Z)) (ys : list tensor) :
  length l = length ys ->
  Forall (fun y => shape_ok y = true) ys ->
  existsb (exists4 is_nan)
    (map t_data
       (zip_with (fun a y => unaugment (fst a) (snd a) (clip01 y)) l ys))
  = existsb (fun y => exists4 is_nan (t_data y)) ys.
Proof.
  revert ys. induction l as [|a l IH]; intros [|y ys]; simpl;
    try discriminate; [reflexivity|].
  intros Hlen Hok. inversion Hok as [|y' ys' Hy Hys]; subst.
  rewrite nan_of_pass by assumption. f_equal. apply IH; [lia | assumption].
Qed.

Lemma ensemble_of_answers (self : TransparentVAEDecoder)
      (pixel latent : tensor) (log : list event) (ys : list tensor)
      (st : stacked) :
  Forall2
    (fun a y =>
       model self (augment (fst a) (snd a) pixel)
                  (augment (fst a) (snd a) latent) = inr y) args ys ->
  stack (zip_with (fun a y => unaugment (fst a) (snd a) (clip01 y)) args ys)
    = inr st ->
  ensemble self pixel latent log =
    (log ++ map (forward_event pixel latent) args, inr st) /\
  s_data st =
    map t_data
      (zip_with (fun a y => unaugment (fst a) (snd a) (clip01 y)) args ys).
Proof.
  intros Hys Hst. split.
  - unfold ensemble, bind, lift.
    rewrite (for_each_Forall2 (augmented_pass self pixel latent)
               (forward_event pixel latent) args
               (zip_with (fun a y => unaugment (fst a) (snd a) (clip01 y))
                         args ys)).
    + now rewrite Hst.
    + apply Forall2_zip_with with (2 := Hys).
      intros a y Hy log0. now apply augmented_pass_run.
  - destruct (stack_inr _ _ Hst) as [t [rest [_ [_ ->]]]]. reflexivity.
Qed.

(** X19: when the network answers all eight feeds with well-shaped tensors
    that can be stacked, estimate_augmented raises its ValueError exactly
    when one of the eight answers holds a NaN: clipping and the inverse
    transform never lose a NaN and never make one. *)
Theorem network_nan_raises (self : TransparentVAEDecoder)
        (pixel latent : tensor) (log : list event) (ys : list tensor)
        (st : stacked) :
  Forall2
    (fun a y =>
       model self (augment (fst a) (snd a) pixel)
                  (augment (fst a) (snd a) latent) = inr y) args ys ->
  Forall (fun y => shape_ok y = true) ys ->
  stack (zip_with (fun a y => unaugment (fst a) (snd a) (clip01 y)) args ys)
    = inr st ->
  (existsb (fun y => exists4 is_nan (t_data y)) ys = true <->
   estimate_augmented self pixel latent log =
     (log ++ map (forward_event pixel latent) args, inl ValueError_nan_inf)).
Proof.
  intros Hys Hok Hst.
  destruct (ensemble_of_answers self pixel latent log ys st Hys Hst)
    as [He Hdata].
  pose proof (estimate_augmented_cases _ _ _ _ _ _ He) as Hcases.
  rewrite (ensemble_no_inf _ _ _ _ _ _ He), orb_false_r in Hcases.
  assert (Hnan : any_nan st = existsb (fun y => exists4 is_nan (t_data y)) ys).
  { unfold any_nan. rewrite Hdata.
    apply any_nan_of_answers; [|assumption].
    exact (Forall2_length Hys). }
  rewrite <- Hnan.
  destruct (any_nan st); rewrite Hcases; split; congruence.
Qed.

Lemma network_nan_raises_witness :
  estimate_augmented (mkDecoder Cpu Float32 (spiked_network NaN))
    dot_pixel dot_latent [] =
  (map (forward_event dot_pixel dot_latent) args, inl ValueError_nan_inf).
Proof.
  destruct (stack (zip_with
                     (fun a y => unaugment (fst a) (snd a) (clip01 y)) args
                     (repeat (mkTensor 1 4 1 1 Cpu Float32
                                [[[[NaN]]; [[Num half]]; [[Num half]];
                                   [[Num half]]]]) 8)))
    as [e | st] eqn:Hst.
  - vm_compute in Hst. discriminate Hst.
  - apply (proj1 (network_nan_raises
                    (mkDecoder Cpu Float32 (spiked_network NaN))
                    dot_pixel dot_latent []
                    (repeat (mkTensor 1 4 1 1 Cpu Float32
                               [[[[NaN]]; [[Num half]]; [[Num half]];
                                  [[Num half]]]]) 8)
                    st
                    ltac:(repeat constructor)
                    ltac:(repeat constructor)
                    Hst)).
    reflexivity.
Defined.

(** ** The assertion on the output, and the last clip *)

(** X20: when the network (equivariant on the pair, without NaN) answers
    with a number of channels other than 4, decode_pixel raises the
    assertion error on the output, after the eight passes, and returns
    nothing. *)
Theorem output_channels_asserted (self : TransparentVAEDecoder)
        (pixel latent y0 : tensor) (log : list event) :
  dim1 pixel = 3 ->
  let pixel' := to_tensor (load_device self) (self_dtype self) pixel in
  let latent' := to_tensor (load_device self) (self_dtype self) latent in
  shape_ok y0 = true ->
  exists4 is_nan (t_data y0) = false ->
  equivariant_on self pixel' latent' y0 ->
  dim1 y0 <> 4 ->
  decode_pixel self pixel latent log =
  (((log ++ [EvTo (load_device self) (self_dtype self)])
      ++ [EvTo (load_device self) (self_dtype self)])
     ++ map (forward_event pixel' latent') args,
   inl (AssertionError_output (dim1 y0))).
Proof.
  intros Hc pixel' latent' Hok Hnan Heq H4.
  rewrite decode_pixel_unfold by assumption. fold pixel' latent'.
  destruct (estimate_augmented_equivariant self pixel' latent' y0
              ((log ++ [EvTo (load_device self) (self_dtype self)])
                 ++ [EvTo (load_device self) (self_dtype self)])
              Hok Hnan Heq) as [_ Hrun].
  rewrite Hrun. change (dim1 (clip01 y0)) with (dim1 y0).
  apply Nat.eqb_neq in H4. now rewrite H4.
Qed.

Lemma output_channels_asserted_witness :
  decode_pixel (mkDecoder Cpu Float32 rgb_network) dot_pixel dot_latent [] =
  ([EvTo Cpu Float32; EvTo Cpu Float32]
     ++ map (forward_event dot_pixel dot_latent) args,
   inl (AssertionError_output 3)).
Proof.
  apply (output_channels_asserted (mkDecoder Cpu Float32 rgb_network)
           dot_pixel dot_latent
           (const_tensor 1 3 1 1 Cpu Float32 (Num half)) []).
  - reflexivity.
  - reflexivity.
  - reflexivity.
  - intros a Ha.
    repeat (destruct Ha as [<- | Ha]; [reflexivity|]). destruct Ha.
  - simpl. lia.
Defined.

Lemma vclip01_fixes (v : val) : in_unit v = true -> vclip01 v = v.
Proof.
  destruct v as [x| | |]; try discriminate. simpl.
  rewrite andb_true_iff, !qc_leb_le. intros [H0 H1]. f_equal.
  unfold qc_max, qc_min.
  destruct (qc_leb x 0) eqn:E0.
  - apply qc_leb_le in E0.
    assert (Hx : x = 0%Qc) by now apply Qcle_antisym.
    subst x. reflexivity.
  - apply qc_leb_le in H1. now rewrite H1.
Qed.

Lemma count_succ (k : nat) :
  Q2Qc (inject_Z (Z.of_nat (S k)))
  = (Q2Qc (inject_Z (Z.of_nat k)) + 1)%Qc.
Proof.
  apply Qc_is_canon. unfold Qcplus. cbn [this Q2Qc].
  rewrite !Qred_correct.
  rewrite Nat2Z.inj_succ. unfold Z.succ. rewrite inject_Z_plus. reflexivity.
Qed.

Lemma count_pos (n : nat) : (0 < Q2Qc (inject_Z (Z.of_nat (S n))))%Qc.
Proof.
  unfold Qclt. cbn [this Q2Qc]. rewrite !Qred_correct.
  unfold Qlt, inject_Z. simpl. lia.
Qed.

Lemma le_count_add (k : nat) (a b : val) :
  le_count k a = true -> in_unit b = true ->
  le_count (S k) (vadd a b) = true.
Proof.
  destruct a as [x| | |], b as [y| | |]; try discriminate.
  cbn [le_count vadd in_unit].
  rewrite !andb_true_iff, !qc_leb_le, count_succ.
  intros [Hx0 Hxk] [Hy0 Hy1]. split.
  - assert (H0 : (0 + 0 = 0)%Qc) by ring.
    apply Qcle_trans with (0 + 0)%Qc; [rewrite H0; apply Qcle_refl|].
    now apply Qcplus_le_compat.
  - now apply Qcplus_le_compat.
Qed.

Lemma le_count_mean (n : nat) (v : val) :
  le_count (S n) v = true -> in_unit (vdiv_count v (S n)) = true.
Proof.
  destruct v as [x| | |]; try discriminate. cbn [le_count vdiv_count in_unit].
  rewrite !andb_true_iff, !qc_leb_le. intros [H0 Hn].
  pose proof (count_pos n) as Hpos.
  set (N := Q2Qc (inject_Z (Z.of_nat (S n)))) in *.
  assert (HN : N <> 0%Qc).
  { intros E. rewrite E in Hpos. now apply Qclt_not_eq in Hpos. }
  assert (Hmul : (x / N * N = x)%Qc) by (field; assumption).
  split.
  - apply (Qcmult_lt_0_le_reg_r _ _ N Hpos).
    rewrite Hmul. now replace (0 * N)%Qc with 0%Qc by ring.
  - apply (Qcmult_lt_0_le_reg_r _ _ N Hpos).
    rewrite Hmul. now replace (1 * N)%Qc with N by ring.
Qed.

Lemma forall4_zip4_het (P Q R : val -> bool) (f : val -> val -> val)
      (d d' : data4) :
  (forall a b, P a = true -> Q b = true -> R (f a b) = true) ->
  forall4 P d = true -> forall4 Q d' = true -> forall4 R (zip4 f d d') = true.
Proof.
  intros Hf. unfold forall4, zip4.
  apply forallb_zip_with. intros x x'. apply forallb_zip_with. intros m m'.
  apply forallb_zip_with. intros r r'. now apply forallb_zip_with.
Qed.

Lemma fold_sum_le_count (rest : list data4) (d : data4) (k : nat) :
  forall4 (le_count k) d = true ->
  forallb (forall4 in_unit) rest = true ->
  forall4 (le_count (k + length rest)) (fold_left (zip4 vadd) rest d) = true.
Proof.
  revert d k. induction rest as [|d' rest IH]; intros d k Hd Hrest; simpl.
  - now rewrite Nat.add_0_r.
  - simpl in Hrest. rewrite andb_true_iff in Hrest. destruct Hrest as [Hd' Hrest].
    replace (k + S (length rest)) with (S k + length rest) by lia.
    apply IH; [|assumption].
    apply forall4_zip4_het with (P := le_count k) (Q := in_unit);
      [apply le_count_add | assumption | assumption].
Qed.

Lemma mean_dim0_in_unit (ts : list tensor) (st : stacked) :
  stack ts = inr st ->
  forallb (forall4 in_unit) (s_data st) = true ->
  forall4 in_unit (t_data (mean_dim0 st)) = true.
Proof.
  intros Hst Hunit.
  destruct (stack_inr _ _ Hst) as [t [rest [-> [_ ->]]]].
  cbn [s_data map forallb] in Hunit. rewrite andb_true_iff in Hunit.
  destruct Hunit as [Ht Hrest].
  unfold mean_dim0. cbn [s_shape s_device s_dtype s_count s_data].
  unfold t_shape. cbn [t_data map sum_dim0 length].
  apply forall4_map4 with (Q := le_count (S (length rest))).
  - apply le_count_mean.
  - replace (S (length rest)) with (1 + length (map t_data rest))
      by (rewrite length_map; reflexivity).
    apply fold_sum_le_count; [|assumption].
    revert Ht. apply forall4_weaken. intros v Hv. now destruct v.
Qed.

(** X21: the last clip of decode_pixel changes nothing: whenever
    decode_pixel returns, every value of the ensemble mean already lies in
    [0, 1], and the tensor returned is the mean itself, moved to the device
    and dtype of the pixel input. *)
Theorem decode_pixel_is_mean (self : TransparentVAEDecoder)
        (pixel latent : tensor) (log log' : list event) (y : tensor) :
  decode_pixel self pixel latent log = (log', inr y) ->
  exists log1 st,
    ensemble self
      (to_tensor (load_device self) (self_dtype self) pixel)
      (to_tensor (load_device self) (self_dtype self) latent)
      ((log ++ [EvTo (load_device self) (self_dtype self)])
           ++ [EvTo (load_device self) (self_dtype self)]) = (log1, inr st) /\
    forall4 in_unit (t_data (mean_dim0 st)) = true /\
    clip01 (mean_dim0 st) = mean_dim0 st /\
    y = to_tensor (t_device pixel) (t_dtype pixel) (mean_dim0 st).
Proof.
  intros Hd.
  destruct (decode_pixel_inr _ _ _ _ _ _ Hd)
    as [_ [log1 [y0 [Hrun [_ [_ Hy]]]]]].
  destruct (estimate_augmented_inr _ _ _ _ _ _ Hrun) as [st [He [Hclean ->]]].
  exists log1, st. split; [assumption|].
  assert (Hunit : forall4 in_unit (t_data (mean_dim0 st)) = true).
  { destruct (ensemble_inr _ _ _ _ _ _ He) as [result [_ Hst]].
    apply (mean_dim0_in_unit result); [assumption|].
    pose proof (ensemble_clipped _ _ _ _ _ _ He) as Hc.
    apply orb_false_iff in Hclean. destruct Hclean as [Hnan _].
    unfold any_nan in Hnan.
    induction (s_data st) as [|d ds IH]; simpl in *; [reflexivity|].
    rewrite andb_true_iff in Hc. rewrite orb_false_iff in Hnan.
    destruct Hc as [Hc Hcs], Hnan as [Hn Hns].
    rewrite andb_true_iff. split; [now apply clipped_no_nan_in_unit | auto]. }
  assert (Hclip : clip01 (mean_dim0 st) = mean_dim0 st).
  { destruct (mean_dim0 st) as [b c h w dv dt d]. unfold clip01; simpl.
    f_equal. simpl in Hunit.
    apply (map4_id_in in_unit); [apply vclip01_fixes | assumption]. }
  split; [assumption|]. split; [assumption|].
  now rewrite Hclip in Hy.
Qed.

Lemma decode_pixel_is_mean_witness :
  exists log1 st,
    ensemble (flat_decoder (Num half))
      (to_tensor (Cuda 0) Float16 toy_pixel)
      (to_tensor (Cuda 0) Float16 toy_latent)
      [EvTo (Cuda 0) Float16; EvTo (Cuda 0) Float16] = (log1, inr st) /\
    forall4 in_unit (t_data (mean_dim0 st)) = true /\
    clip01 (mean_dim0 st) = mean_dim0 st.
Proof.
  destruct (decode_pixel (flat_decoder (Num half)) toy_pixel toy_latent [])
    as [log' [e | y]] eqn:Hd.
  - vm_compute in Hd. discriminate Hd.
  - destruct (decode_pixel_is_mean _ _ _ _ _ _ Hd)
      as [log1 [st [He [Hunit [Hclip _]]]]].
    exists log1, st. repeat split; assumption.
Defined.
